(** * MGANPrior_Reproduce: multi-code GAN inversion

    A shallow embedding of the three source files

    - [GAN/pggan_generator_network.py]   (the frozen generator),
    - [Derivable_Models/Derivable_Generator.py]   (the two wrappers),
    - [inversion/inversion_methods.py]   (the optimisation loop),

    followed by the properties the specification states about them.

    Conventions.  Python [int]s are [Z]; tensor entries are real numbers
    ([R]).  A value that the code stores as it is, the fill value of
    [torch.full], is rounded as IEEE 754 prescribes (module [Float]); the
    arithmetic between tensors is that of the real numbers: the rounding
    of its results, infinities and NaN are outside the model.  A tensor of
    rank [n] is an [n]-fold nested list, the value [tolist()] would print.
    Fallible code returns [res]; code that allocates or mutates tensor
    objects runs in the state-and-exception monad [M] over an explicit
    heap. *)

From Stdlib Require Import Reals Lra Lia ZArith List String Ascii DecimalString Eqdep_dec.
From stdpp Require Import base option list strings gmap.
Import ListNotations.

Open Scope Z_scope.

(** ** Python exceptions and results *)

Inductive exn : Type :=
| Exception (msg : string)
| ValueError (msg : string)
| AssertionError (msg : string)
| NotImplementedError (msg : string)
| RuntimeError (msg : string)
| IndexError (msg : string)
| TypeError (msg : string)
| AttributeError (msg : string)
| UnboundLocalError (name : string)
| ZeroDivisionError.

Inductive res (A : Type) : Type :=
| Ok (a : A)
| Raise (e : exn).
Arguments Ok {A} a.
Arguments Raise {A} e.

#[global] Instance res_ret : MRet res := fun A a => Ok a.
#[global] Instance res_bind : MBind res := fun A B f m =>
  match m with
  | Ok a => f a
  | Raise e => Raise e
  end.

Fixpoint res_mapM {A B : Type} (f : A -> res B) (l : list A) : res (list B) :=
  match l with
  | [] => Ok []
  | x :: l' =>
      match f x with
      | Ok y =>
          match res_mapM f l' with
          | Ok ys => Ok (y :: ys)
          | Raise e => Raise e
          end
      | Raise e => Raise e
      end
  end.

Fixpoint res_foldM {A B : Type} (f : A -> B -> res A) (a : A) (l : list B) : res A :=
  match l with
  | [] => Ok a
  | x :: l' =>
      match f a x with
      | Ok a' => res_foldM f a' l'
      | Raise e => Raise e
      end
  end.

(** ** IEEE 754 binary formats *)

Module Float.

(** [2 ** e] for an integer exponent. *)
Definition pow2 (e : Z) : R :=
  if 0 <=? e then IZR (2 ^ e) else (/ IZR (2 ^ (- e)))%R.

(** The exponent of the binade of [x >= 0], searched upwards from [e]
    and not beyond [e + fuel]. *)
Fixpoint find_exp (fuel : nat) (e : Z) (x : R) : Z :=
  match fuel with
  | O => e
  | S fuel' => if Rlt_dec x (pow2 (e + 1)) then e else find_exp fuel' (e + 1) x
  end.

(** The integer nearest to [y], ties going to the even one. *)
Definition nearest_even (y : R) : Z :=
  let n := Int_part y in
  let f := (y - IZR n)%R in
  if Rlt_dec f (1 / 2) then n
  else if Rlt_dec (1 / 2) f then n + 1
  else if Z.even n then n else n + 1.

(** Rounding of [x >= 0] to [prec] significant bits, with exponents
    from [emin] (below which the spacing stays that of [emin]) to
    [emax]. *)
Definition round_pos (prec emin emax : Z) (x : R) : R :=
  let e := find_exp (Z.to_nat (emax - emin)) emin x in
  let ulp := pow2 (e - prec + 1) in
  (IZR (nearest_even (x / ulp)) * ulp)%R.

(** Round to nearest, ties to even.  Results beyond the largest finite
    number (infinities) are outside the model. *)
Definition round (prec emin emax : Z) (x : R) : R :=
  if Rlt_dec x 0 then (- round_pos prec emin emax (- x))%R
  else round_pos prec emin emax x.

(** A Python [float]. *)
Definition float64 : R -> R := round 53 (-1022) 1023.

(** A [torch.float32] entry. *)
Definition float32 : R -> R := round 24 (-126) 127.

End Float.

(** ** Python built-ins used by the sources *)

Module Py.

(** [range(n)]: empty for [n <= 0]. *)
Definition range (n : Z) : list Z :=
  map Z.of_nat (seq 0 (Z.to_nat n)).

(** [range(a, b)]. *)
Definition range2 (a b : Z) : list Z :=
  map (fun i => a + Z.of_nat i) (seq 0 (Z.to_nat (b - a))).

(** [l[i]] with Python's negative indices. *)
Definition getitem {A : Type} (l : list A) (i : Z) : res A :=
  let n := Z.of_nat (length l) in
  let k := if i <? 0 then i + n else i in
  if (k <? 0) || (n <=? k) then Raise (IndexError "index out of range")
  else match l !! Z.to_nat k with
       | Some x => Ok x
       | None => Raise (IndexError "index out of range")
       end.

(** The clamped bound of a slice [l[:i]] or [l[i:]]. *)
Definition slice_bound {A : Type} (l : list A) (i : Z) : nat :=
  let n := Z.of_nat (length l) in
  Z.to_nat (Z.min n (Z.max 0 (if i <? 0 then i + n else i))).

(** [l[:i]] *)
Definition slice_to {A : Type} (l : list A) (i : Z) : list A :=
  firstn (slice_bound l i) l.

(** [l[i:]] *)
Definition slice_from {A : Type} (l : list A) (i : Z) : list A :=
  skipn (slice_bound l i) l.

(** [str(i)] for an [int]. *)
Definition str (i : Z) : string := NilZero.string_of_int (Z.to_int i).

(** [sub in s] for strings. *)
Fixpoint contains (s sub : string) : bool :=
  String.prefix sub s ||
  match s with
  | EmptyString => false
  | String _ s' => contains s' sub
  end.

End Py.

(** ** Tensors *)

Module Torch.

(** A rank-[n] tensor as nested lists of reals. *)
Fixpoint tensor (n : nat) : Type :=
  match n with
  | O => R
  | S k => list (tensor k)
  end.

(** A tensor object of any rank, as Python handles it. *)
Definition Tensor : Type := { n : nat & tensor n }.

Definition mk (n : nat) (t : tensor n) : Tensor := existT n t.

(** Elementwise map. *)
Fixpoint tmap (g : R -> R) (n : nat) : tensor n -> tensor n :=
  match n with
  | O => g
  | S k => fun l : list (tensor k) => map (tmap g k) l
  end.

(** All entries, in row-major order. *)
Fixpoint flatten (n : nat) : tensor n -> list R :=
  match n with
  | O => fun x => [x]
  | S k => fun l : list (tensor k) => concat (map (flatten k) l)
  end.

(** [t] is rectangular with extents [s]. *)
Fixpoint has_shape (n : nat) (s : list nat) : tensor n -> Prop :=
  match n, s with
  | O, [] => fun _ => True
  | S k, d :: s' => fun l : list (tensor k) => length l = d /\ Forall (has_shape k s') l
  | _, _ => fun _ => False
  end.

(** The entry at a multi-index ([0] outside the tensor). *)
Fixpoint get (n : nat) (idx : list nat) : tensor n -> R :=
  match n with
  | O => fun x => x
  | S k => fun l : list (tensor k) =>
      match idx with
      | i :: idx' =>
          match l !! i with
          | Some t => get k idx' t
          | None => 0%R
          end
      | [] => 0%R
      end
  end.

(** [idx] is a valid multi-index for extents [s]. *)
Definition in_range (idx s : list nat) : Prop :=
  Forall2 (fun i d => (i < d)%nat) idx s.

(** Negative extents are rejected by every allocating call. *)
Definition check_size (shape : list Z) : res (list nat) :=
  if forallb (fun d => 0 <=? d) shape then Ok (map Z.to_nat shape)
  else Raise (RuntimeError "Trying to create tensor with negative dimension").

Fixpoint full_n (shape : list nat) (v : R) : tensor (length shape) :=
  match shape with
  | [] => v
  | d :: s => repeat (full_n s v) d
  end.

(** [torch.full(shape, v)]: the fill value, a Python [float], is stored
    in the default type [float32] of the tensor. *)
Definition full (shape : list Z) (v : R) : res Tensor :=
  s ← check_size shape; Ok (mk (length s) (full_n s (Float.float32 v))).

(** [torch.zeros(shape)] *)
Definition zeros (shape : list Z) : res Tensor :=
  s ← check_size shape; Ok (mk (length s) (full_n s 0%R)).

(** The random generator: the sequence of standard-normal samples still
    to be drawn. *)
Definition rng : Type := nat -> R.

Definition draw (g : rng) : R * rng := (g O, fun i => g (S i)).

Fixpoint draw_list {A : Type} (one : rng -> A * rng) (d : nat) (g : rng) : list A * rng :=
  match d with
  | O => ([], g)
  | S d' =>
      let '(x, g1) := one g in
      let '(xs, g2) := draw_list one d' g1 in
      (x :: xs, g2)
  end.

Fixpoint randn_n (shape : list nat) : rng -> tensor (length shape) * rng :=
  match shape with
  | [] => draw
  | d :: s => draw_list (randn_n s) d
  end.

(** [torch.randn(shape)]: one fresh sample per entry, row-major. *)
Definition randn (shape : list Z) (g : rng) : res (Tensor * rng) :=
  s ← check_size shape;
  let '(t, g') := randn_n s g in Ok (mk (length s) t, g').

(** One level of broadcasting: equal extents are paired, an extent of
    one is repeated, anything else is a shape error. *)
Definition bcast2 {A : Type} (f : A -> A -> res A) (xs ys : list A) : res (list A) :=
  if (length xs =? length ys)%nat
  then res_mapM (fun p => f (fst p) (snd p)) (combine xs ys)
  else match xs, ys with
       | [x], _ => res_mapM (f x) ys
       | _, [y] => res_mapM (fun x => f x y) xs
       | _, _ => Raise (RuntimeError "The size of tensor a must match the size of tensor b")
       end.

(** Elementwise binary operation on two tensors of one rank. *)
Fixpoint bop (f : R -> R -> R) (n : nat) : tensor n -> tensor n -> res (tensor n) :=
  match n with
  | O => fun x y => Ok (f x y)
  | S k => fun xs ys : list (tensor k) => bcast2 (bop f k) xs ys
  end.

(** Leading extents of one, as broadcasting prepends them. *)
Fixpoint unsqueeze_front (k n : nat) : tensor n -> tensor (k + n) :=
  match k with
  | O => fun t => t
  | S k' => fun t => [unsqueeze_front k' n t] : list (tensor (k' + n))
  end.

(** A tensor of rank [n] at rank [m], when the two ranks are equal. *)
Definition cast (n m : nat) (t : tensor n) : option (tensor m) :=
  match Nat.eq_dec n m with
  | left e => Some (eq_rect n tensor t m e)
  | right _ => None
  end.

(** Elementwise binary operation on tensor objects: the operand of
    lower rank is aligned on the trailing dimensions.  Both operands
    reach the larger rank [r], so the last branch is never taken. *)
Definition binop (f : R -> R -> R) (a b : Tensor) : res Tensor :=
  let (n, x) := a in
  let (m, y) := b in
  let r := Nat.max n m in
  match cast (r - n + n) r (unsqueeze_front (r - n) n x),
        cast (r - m + m) r (unsqueeze_front (r - m) m y) with
  | Some x', Some y' => c ← bop f r x' y'; Ok (mk r c)
  | _, _ => Raise (RuntimeError "rank alignment")
  end.

Fixpoint chunks_aux (fuel d : nat) (l : list R) : list (list R) :=
  match fuel with
  | O => []
  | S fuel' =>
      match l with
      | [] => []
      | _ :: _ => firstn d l :: chunks_aux fuel' d (skipn d l)
      end
  end.

Definition chunks (d : nat) (l : list R) : list (list R) :=
  chunks_aux (length l) d l.

(** [t.view((-1, d, 1, 1))]: the entries regrouped [d] at a time.  The
    stride compatibility that [view] also demands of a sliced tensor is
    not tracked; for a slice whose last extent is [d] the call is the
    plain re-indexing below. *)
Definition view_m1_d_1_1 (d : Z) (t : Tensor) : res Tensor :=
  let (n, x) := t in
  let data := flatten n x in
  if d <=? 0 then Raise (RuntimeError "invalid shape for view")
  else if (Z.of_nat (length data) mod d =? 0)
  then Ok (mk 4 (map (map (fun v => [[v]])) (chunks (Z.to_nat d) data)))
  else Raise (RuntimeError "shape is invalid for input size").

Definition select1_n (j : Z) (n : nat) : tensor n -> res Tensor :=
  match n with
  | S (S (S k)) => fun x : list (list (tensor (S k))) =>
      rows ← res_mapM (fun row : list (tensor (S k)) => Py.getitem row j) x;
      Ok (mk (S (S k)) rows)
  | _ => fun _ => Raise (IndexError "too many indices for tensor")
  end.

(** [t[:, j, :]] *)
Definition select1 (j : Z) (t : Tensor) : res Tensor :=
  let (n, x) := t in select1_n j n x.

(** The tensor without entries standing for a reduction over nothing
    (a scalar reduces to [0]). *)
Definition tnil (k : nat) : tensor k :=
  match k with
  | O => 0%R
  | S _ => []
  end.

(** Sum of the tensors of a list, entry by entry. *)
Definition tsum (k : nat) (row : list (tensor k)) : res (tensor k) :=
  match row with
  | [] => Ok (tnil k)
  | t :: rest => res_foldM (bop Rplus k) t rest
  end.

Definition mean_dim1_n (n : nat) : tensor n -> res Tensor :=
  match n with
  | S (S k) => fun x : list (list (tensor k)) =>
      rows ← res_mapM (fun row : list (tensor k) =>
                         s ← tsum k row;
                         Ok [tmap (fun v => v / INR (length row))%R k s]) x;
      Ok (mk (S (S k)) rows)
  | _ => fun _ => Raise (IndexError "Dimension out of range")
  end.

(** [torch.mean(t, dim=1, keepdim=True)] *)
Definition mean_dim1_keepdim (t : Tensor) : res Tensor :=
  let (n, x) := t in mean_dim1_n n x.

(** [t ** 2] *)
Definition pow2 (t : Tensor) : Tensor :=
  let (n, x) := t in mk n (tmap (fun v => v ^ 2)%R n x).

(** [t + c] for a Python float [c] *)
Definition add_scalar (t : Tensor) (c : R) : Tensor :=
  let (n, x) := t in mk n (tmap (fun v => v + c)%R n x).

(** [torch.sqrt(t)] *)
Definition sqrt (t : Tensor) : Tensor :=
  let (n, x) := t in mk n (tmap R_sqrt.sqrt n x).

(** [a / b] for two tensors *)
Definition div (a b : Tensor) : res Tensor := binop Rdiv a b.

(** [t * c] for a Python float [c] *)
Definition mul_scalar (t : Tensor) (c : R) : Tensor :=
  let (n, x) := t in mk n (tmap (fun v => v * c)%R n x).

(** [a + b] for two tensors *)
Definition add (a b : Tensor) : res Tensor := binop Rplus a b.

(** [t.view(1, -1, 1, 1)]: all entries along the second dimension. *)
Definition view_1_m1_1_1 (t : Tensor) : Tensor :=
  let (n, x) := t in mk 4 [map (fun v : R => [[v]]) (flatten n x)].

(** Every entry repeated [s] times along every dimension. *)
Fixpoint upsample_n (s k : nat) : tensor k -> tensor k :=
  match k with
  | O => fun x => x
  | S k' => fun l : list (tensor k') =>
      flat_map (fun t => repeat (upsample_n s k' t) s) l
  end.

Definition interpolate_n (scale_factor : Z) (n : nat) : tensor n -> res Tensor :=
  match n with
  | S (S (S k)) => fun x : list (list (tensor (S k))) =>
      if (k <? 3)%nat
      then
        if 0 <? scale_factor
        then Ok (mk (S (S (S k)))
                   (map (map (upsample_n (Z.to_nat scale_factor) (S k))) x))
        else Raise (RuntimeError "Input and output sizes should be greater than 0")
      else Raise (NotImplementedError "Only 3D, 4D and 5D input Tensors supported")
  | _ => fun _ =>
      Raise (NotImplementedError "Only 3D, 4D and 5D input Tensors supported")
  end.

(** [F.interpolate(t, scale_factor=s, mode='nearest')] for an [int]
    factor: the dimensions after the first two grow [s]-fold, and the
    entry at [i] is the input entry at [i // s]. *)
Definition interpolate_nearest (scale_factor : Z) (t : Tensor) : res Tensor :=
  let (n, x) := t in interpolate_n scale_factor n x.

(** [t.shape], read off the first entry along each dimension (nothing
    is known past an empty dimension, which reads as zeros). *)
Fixpoint shape (n : nat) : tensor n -> list nat :=
  match n with
  | O => fun _ => []
  | S k => fun l : list (tensor k) =>
      length l :: match l with
                  | [] => repeat 0%nat k
                  | t :: _ => shape k t
                  end
  end.

End Torch.

(** A Python value that flows through the wrappers: a number or a tensor. *)
Inductive pyval : Type :=
| PyNum (x : R)
| PyTensor (t : Torch.Tensor).

(** ** GAN/pggan_generator_network.py *)

Module pggan_generator_network.

(** Resolutions allowed. *)
Definition _RESOLUTIONS_ALLOWED : list Z := [8; 16; 32; 64; 128; 256; 512; 1024].

(** Initial resolution. *)
Definition _INIT_RES : Z := 4.

(** [int(np.log2(x))]; every argument it receives here is a power of
    two, where the logarithm is exact. *)
Definition int_log2 (x : Z) : Z := Z.log2 x.

Definition newline : string := String (ascii_of_nat 10) EmptyString.

(** [str(l)] for a list of [int]s. *)
Definition str_list (l : list Z) : string :=
  ("[" ++ String.concat ", " (map Py.str l) ++ "]")%string.

Module PixelNormLayer.

Record t : Type := { eps : R }.

Definition default_epsilon : R := 1e-8%R.

Definition __init__ (epsilon : R) : t := {| eps := epsilon |}.

(** [x / torch.sqrt(torch.mean(x ** 2, dim=1, keepdim=True) + self.eps)] *)
Definition forward (self : t) (x : Torch.Tensor) : res Torch.Tensor :=
  m ← Torch.mean_dim1_keepdim (Torch.pow2 x);
  Torch.div x (Torch.sqrt (Torch.add_scalar m (eps self))).

End PixelNormLayer.

Module ResolutionScalingLayer.

Record t : Type := { scale_factor : Z }.

Definition __init__ (scale_factor : Z) : t := {| scale_factor := scale_factor |}.

(** [F.interpolate(x, scale_factor=self.scale_factor, mode='nearest')] *)
Definition forward (self : t) (x : Torch.Tensor) : res Torch.Tensor :=
  Torch.interpolate_nearest (scale_factor self) x.

End ResolutionScalingLayer.

Module WScaleLayer.

Record t : Type := { scale : R; bias : Torch.Tensor }.

Definition __init__ (in_channels out_channels kernel_size : Z) (gain : R) : res t :=
  let fan_in := in_channels * kernel_size * kernel_size in
  b ← Torch.zeros [out_channels];
  Ok {| scale := (gain / R_sqrt.sqrt (IZR fan_in))%R; bias := b |}.

(** [x * self.scale + self.bias.view(1, -1, 1, 1)] *)
Definition forward (self : t) (x : Torch.Tensor) : res Torch.Tensor :=
  Torch.add (Torch.mul_scalar x (scale self)) (Torch.view_1_m1_1_1 (bias self)).

End WScaleLayer.

(** [nn.Conv2d]: the hyper-parameters; the kernel it allocates has
    extents [(out_channels, in_channels // groups, k, k)].  The values
    of learnable parameters are set when weights are loaded and are not
    part of this record. *)
Module Conv2d.

Record t : Type :=
  { in_channels : Z; out_channels : Z; kernel_size : Z; stride : Z;
    padding : Z; dilation : Z; groups : Z; bias : bool }.

Definition __init__ (in_channels out_channels kernel_size stride padding dilation groups : Z)
    (bias : bool) : res t :=
  _ ← Torch.check_size [out_channels; in_channels / groups; kernel_size; kernel_size];
  Ok {| in_channels := in_channels; out_channels := out_channels;
        kernel_size := kernel_size; stride := stride; padding := padding;
        dilation := dilation; groups := groups; bias := bias |}.

End Conv2d.

Inductive upsample_layer : Type :=
| Upsample (l : ResolutionScalingLayer.t)
| UpIdentity.

Inductive activation : Type :=
| Identity
| LeakyReLU (negative_slope : R) (inplace : bool)
| Hardtanh.

(** [nn.LeakyReLU]: [max(0, v) + negative_slope * min(0, v)]. *)
Definition leaky_relu (negative_slope v : R) : R :=
  (Rmax 0 v + negative_slope * Rmin 0 v)%R.

(** [nn.Hardtanh] with its default bounds [-1] and [1]. *)
Definition hardtanh (v : R) : R := Rmax (-1) (Rmin 1 v).

(** The activation layer applied to [x] (an in-place layer overwrites
    the tensor it is given, here the fresh output of the layer before
    it). *)
Definition activation_forward (a : activation) (x : Torch.Tensor) : Torch.Tensor :=
  let (n, t) := x in
  match a with
  | Identity => Torch.mk n t
  | LeakyReLU negative_slope _ => Torch.mk n (Torch.tmap (leaky_relu negative_slope) n t)
  | Hardtanh => Torch.mk n (Torch.tmap hardtanh n t)
  end.

Module ConvBlock.

Record t : Type :=
  { pixel_norm : PixelNormLayer.t;
    upsample : upsample_layer;
    use_conv2d_transpose : bool;
    (** extents of the fused kernel and its scale, when fused *)
    weight : option (list nat);
    scale : option R;
    (** the ordinary convolution, otherwise *)
    conv : option Conv2d.t;
    wscale : WScaleLayer.t;
    activate : activation }.

Definition select_activation (activation_type : string) : res activation :=
  if (activation_type =? "linear")%string then Ok Identity
  else if (activation_type =? "lrelu")%string then Ok (LeakyReLU 0.2%R true)
  else if (activation_type =? "tanh")%string then Ok Hardtanh
  else Raise (NotImplementedError
                ("Not implemented activation function: " ++ activation_type ++ "!")%string).

Definition __init__ (in_channels out_channels kernel_size stride padding dilation : Z)
    (add_bias upsample fused_scale : bool) (wscale_gain : R)
    (activation_type : string) : res t :=
  let pixel_norm := PixelNormLayer.__init__ PixelNormLayer.default_epsilon in
  let up :=
    if upsample && negb fused_scale
    then Upsample (ResolutionScalingLayer.__init__ 2)
    else UpIdentity in
  '(use_t, w, sc, cv) ←
    (if upsample && fused_scale
     then
       shape ← Torch.check_size [kernel_size; kernel_size; in_channels; out_channels];
       let fan_in := in_channels * kernel_size * kernel_size in
       Ok (true, Some shape, Some (wscale_gain / R_sqrt.sqrt (IZR fan_in))%R, None)
     else
       c ← Conv2d.__init__ in_channels out_channels kernel_size stride padding
             dilation 1 add_bias;
       Ok (false, None, None, Some c));
  ws ← WScaleLayer.__init__ in_channels out_channels kernel_size wscale_gain;
  act ← select_activation activation_type;
  Ok {| pixel_norm := pixel_norm; upsample := up; use_conv2d_transpose := use_t;
        weight := w; scale := sc; conv := cv; wscale := ws; activate := act |}.

(** The block applied to [x].  [conv_of self] stands for the
    convolution of the block with its learned kernel: [self.conv(x)],
    or, when [use_conv2d_transpose] is set, the transposed convolution
    with the padded and averaged kernel followed by the division by
    [self.scale]. *)
Definition forward (conv_of : t -> Torch.Tensor -> res Torch.Tensor)
    (self : t) (x : Torch.Tensor) : res Torch.Tensor :=
  x ← PixelNormLayer.forward (pixel_norm self) x;
  x ← match upsample self with
      | Upsample l => ResolutionScalingLayer.forward l x
      | UpIdentity => Ok x
      end;
  x ← conv_of self x;
  x ← WScaleLayer.forward (wscale self) x;
  Ok (activation_forward (activate self) x).

End ConvBlock.

Inductive module : Type :=
| MConvBlock (b : ConvBlock.t)
| MResolutionScaling (l : ResolutionScalingLayer.t).

(** [self._modules[name] = m]: a new name goes last, a known name keeps
    its place. *)
Fixpoint add_module (ms : list (string * module)) (name : string) (m : module)
    : list (string * module) :=
  match ms with
  | [] => [(name, m)]
  | (k, v) :: ms' =>
      if (k =? name)%string then (k, m) :: ms' else (k, v) :: add_module ms' name m
  end.

(** The call [m(x)] of a child of the network. *)
Definition apply_module (conv_of : ConvBlock.t -> Torch.Tensor -> res Torch.Tensor)
    (m : module) (x : Torch.Tensor) : res Torch.Tensor :=
  match m with
  | MConvBlock b => ConvBlock.forward conv_of b x
  | MResolutionScaling l => ResolutionScalingLayer.forward l x
  end.

Module PGGANGeneratorNet.

Record t : Type :=
  { init_res : Z;
    init_res_log2 : Z;
    resolution : Z;
    final_res_log2 : Z;
    z_space_dim : Z;
    image_channels : Z;
    fused_scale : bool;
    fmaps_base : Z;
    fmaps_max : Z;
    num_layers : Z;
    lod : R;
    pth_to_tf_var_mapping : gmap string string;
    _modules : list (string * module) }.

(** Default arguments of the constructor. *)
Definition default_resolution : Z := 1024.
Definition default_z_space_dim : Z := 512.
Definition default_image_channels : Z := 3.
Definition default_fused_scale : bool := false.
Definition default_fmaps_base : Z := Z.shiftl 16 10.
Definition default_fmaps_max : Z := 512.

(** Number of feature maps at a resolution. *)
Definition get_nf (fmaps_base fmaps_max res : Z) : Z :=
  Z.min (fmaps_base / res) fmaps_max.

(** One pass of the constructor's loop, for one [res_log2]. *)
Definition build_stage (init_res init_res_log2 final_res_log2 z_space_dim image_channels : Z)
    (fused_scale : bool) (fmaps_base fmaps_max : Z)
    (st : list (string * module) * gmap string string) (res_log2 : Z)
    : res (list (string * module) * gmap string string) :=
  let '(mods, mapping) := st in
  let nf := get_nf fmaps_base fmaps_max in
  let res_ := 2 ^ res_log2 in
  let block_idx := res_log2 - init_res_log2 in
  let rr := (Py.str res_ ++ "x" ++ Py.str res_)%string in
  let layer0 := ("layer" ++ Py.str (2 * block_idx))%string in
  let layer1 := ("layer" ++ Py.str (2 * block_idx + 1))%string in
  let output := ("output" ++ Py.str block_idx)%string in
  let lod_name := ("ToRGB_lod" ++ Py.str (final_res_log2 - res_log2))%string in
  (* First convolution layer for each resolution. *)
  '(mods, mapping) ←
    (if res_ =? init_res
     then
       b ← ConvBlock.__init__ z_space_dim (nf res_) init_res 1 3 1
             false false false (R_sqrt.sqrt 2) "lrelu";
       Ok (add_module mods layer0 (MConvBlock b),
           <[(layer0 ++ ".wscale.bias")%string := (rr ++ "/Dense/bias")%string]>
           (<[(layer0 ++ ".conv.weight")%string := (rr ++ "/Dense/weight")%string]>
              mapping))
     else
       b ← ConvBlock.__init__ (nf (res_ / 2)) (nf res_) 3 1 1 1
             false true fused_scale (R_sqrt.sqrt 2) "lrelu";
       Ok (add_module mods layer0 (MConvBlock b),
           if fused_scale
           then
             <[(layer0 ++ ".wscale.bias")%string := (rr ++ "/Conv0_up/bias")%string]>
             (<[(layer0 ++ ".weight")%string := (rr ++ "/Conv0_up/weight")%string]>
                mapping)
           else
             <[(layer0 ++ ".wscale.bias")%string := (rr ++ "/Conv0/bias")%string]>
             (<[(layer0 ++ ".conv.weight")%string := (rr ++ "/Conv0/weight")%string]>
                mapping)));
  (* Second convolution layer for each resolution. *)
  b1 ← ConvBlock.__init__ (nf res_) (nf res_) 3 1 1 1
         false false false (R_sqrt.sqrt 2) "lrelu";
  let mods := add_module mods layer1 (MConvBlock b1) in
  let mapping :=
    if res_ =? init_res
    then
      <[(layer1 ++ ".wscale.bias")%string := (rr ++ "/Conv/bias")%string]>
      (<[(layer1 ++ ".conv.weight")%string := (rr ++ "/Conv/weight")%string]> mapping)
    else
      <[(layer1 ++ ".wscale.bias")%string := (rr ++ "/Conv1/bias")%string]>
      (<[(layer1 ++ ".conv.weight")%string := (rr ++ "/Conv1/weight")%string]> mapping) in
  (* Output convolution layer for each resolution. *)
  bo ← ConvBlock.__init__ (nf res_) image_channels 1 1 0 1
         false false false 1%R "linear";
  Ok (add_module mods output (MConvBlock bo),
      <[(output ++ ".wscale.bias")%string := (lod_name ++ "/bias")%string]>
      (<[(output ++ ".conv.weight")%string := (lod_name ++ "/weight")%string]> mapping)).

Definition __init__ (resolution z_space_dim image_channels : Z) (fused_scale : bool)
    (fmaps_base fmaps_max : Z) : res t :=
  if negb (existsb (Z.eqb resolution) _RESOLUTIONS_ALLOWED)
  then Raise (ValueError
                ("Invalid resolution: " ++ Py.str resolution ++ "!" ++ newline ++
                 "Resolutions allowed: " ++ str_list _RESOLUTIONS_ALLOWED ++ ".")%string)
  else
    let init_res := _INIT_RES in
    let init_res_log2 := int_log2 init_res in
    let final_res_log2 := int_log2 resolution in
    let num_layers := (final_res_log2 - init_res_log2 + 1) * 2 in
    '(mods, mapping) ←
      res_foldM
        (build_stage init_res init_res_log2 final_res_log2 z_space_dim image_channels
           fused_scale fmaps_base fmaps_max)
        ([], {[ "lod"%string := "lod"%string ]})
        (Py.range2 init_res_log2 (final_res_log2 + 1));
    Ok {| init_res := init_res; init_res_log2 := init_res_log2;
          resolution := resolution; final_res_log2 := final_res_log2;
          z_space_dim := z_space_dim; image_channels := image_channels;
          fused_scale := fused_scale; fmaps_base := fmaps_base;
          fmaps_max := fmaps_max; num_layers := num_layers; lod := 0%R;
          pth_to_tf_var_mapping := mapping;
          _modules := add_module mods "upsample"
                        (MResolutionScaling (ResolutionScalingLayer.__init__ 2)) |}.

(** [self.__getattr__(name)] for the name of a child module. *)
Definition getattr (self : t) (name : string) : res module :=
  match list_find (fun p => fst p = name) (_modules self) with
  | Some (_, (_, m)) => Ok m
  | None =>
      Raise (AttributeError
               ("'PGGANGeneratorNet' object has no attribute '" ++ name ++ "'")%string)
  end.

(** [z.view(z.shape[0], d, 1, 1)] of a matrix with [d] columns. *)
Definition latent_view (z : Torch.tensor 2) : Torch.tensor 4 :=
  map (map (fun v : R => [[v]])) z.

(** The test [len(z.shape) == 2 and z.shape[1] == self.z_space_dim],
    with the matrix when it holds. *)
Definition check_latent (self : t) (z : Torch.Tensor) : res (Torch.tensor 2) :=
  let bad :=
    Raise (ValueError
             ("The input tensor should be with shape [batch_size, " ++
              "latent_space_dim], where `latent_space_dim` equals to " ++
              Py.str (z_space_dim self) ++ "!" ++ newline ++
              "But torch.Size(" ++
              str_list (map Z.of_nat (Torch.shape (projT1 z) (projT2 z))) ++
              ") received!")%string) in
  match Torch.cast (projT1 z) 2 (projT2 z) with
  | Some m =>
      if forallb (fun row : list R => Z.of_nat (length row) =? z_space_dim self) m
      then Ok m else bad
  | None => bad
  end.

(** One pass of the loop of [forward]; [image] is [None] while the
    variable is unbound.  [apply m x] is the call [m(x)] of a child. *)
Definition forward_stage (apply : module -> Torch.Tensor -> res Torch.Tensor)
    (self : t) (st : Torch.Tensor * option Torch.Tensor) (res_log2 : Z)
    : res (Torch.Tensor * option Torch.Tensor) :=
  let '(x, image) := st in
  if Rle_dec (IZR res_log2 + lod self) (IZR (final_res_log2 self))
  then
    let block_idx := res_log2 - init_res_log2 self in
    l0 ← getattr self ("layer" ++ Py.str (2 * block_idx))%string;
    x ← apply l0 x;
    l1 ← getattr self ("layer" ++ Py.str (2 * block_idx + 1))%string;
    x ← apply l1 x;
    lo ← getattr self ("output" ++ Py.str block_idx)%string;
    image ← apply lo x;
    Ok (x, Some image)
  else
    up ← getattr self "upsample";
    match image with
    | Some im => image ← apply up im; Ok (x, Some image)
    | None => Raise (UnboundLocalError "image")
    end.

Definition forward (apply : module -> Torch.Tensor -> res Torch.Tensor)
    (self : t) (z : Torch.Tensor) : res Torch.Tensor :=
  m ← check_latent self z;
  '(_, image) ←
    res_foldM (forward_stage apply self) (Torch.mk 4 (latent_view m), None)
      (Py.range2 (init_res_log2 self) (final_res_log2 self + 1));
  match image with
  | Some im => Ok im
  | None => Raise (UnboundLocalError "image")
  end.

End PGGANGeneratorNet.

End pggan_generator_network.

(** ** Arithmetic on Python values *)

Module PyOps.

(** [a op b] where either side is a number or a tensor. *)
Definition arith (f : R -> R -> R) (a b : pyval) : res pyval :=
  match a, b with
  | PyNum x, PyNum y => Ok (PyNum (f x y))
  | PyNum x, PyTensor (existT n t) =>
      Ok (PyTensor (Torch.mk n (Torch.tmap (f x) n t)))
  | PyTensor (existT n t), PyNum y =>
      Ok (PyTensor (Torch.mk n (Torch.tmap (fun v => f v y) n t)))
  | PyTensor s, PyTensor t => c ← Torch.binop f s t; Ok (PyTensor c)
  end.

Definition add : pyval -> pyval -> res pyval := arith Rplus.
Definition mul : pyval -> pyval -> res pyval := arith Rmult.

(** [sum(l)]: the additions start from the integer [0]. *)
Definition sum (l : list pyval) : res pyval := res_foldM add (PyNum 0%R) l.

(** [a / k] for an [int] [k]: dividing a number by zero raises, a
    tensor is divided entry by entry. *)
Definition truediv_int (a : pyval) (k : Z) : res pyval :=
  match a with
  | PyNum x =>
      if k =? 0 then Raise ZeroDivisionError else Ok (PyNum (x / IZR k)%R)
  | PyTensor (existT n t) =>
      Ok (PyTensor (Torch.mk n (Torch.tmap (fun v => v / IZR k)%R n t)))
  end.

(** [a[:, j, :]] *)
Definition select1 (a : pyval) (j : Z) : res pyval :=
  match a with
  | PyNum _ => Raise (TypeError "object is not subscriptable")
  | PyTensor t => s ← Torch.select1 j t; Ok (PyTensor s)
  end.

(** [a.view((-1, d, 1, 1))] *)
Definition view_m1_d_1_1 (a : pyval) (d : Z) : res pyval :=
  match a with
  | PyNum _ => Raise (AttributeError "object has no attribute 'view'")
  | PyTensor t => s ← Torch.view_m1_d_1_1 d t; Ok (PyTensor s)
  end.

End PyOps.

(** ** Derivable_Models/Derivable_Generator.py *)

Module Derivable_Generator.

Definition PGGAN_LATENT_1024 : list (Z * Z * Z) :=
  [(512, 1, 1);
   (512, 4, 4); (512, 4, 4);
   (512, 8, 8); (512, 8, 8);
   (512, 16, 16); (512, 16, 16);
   (512, 32, 32); (512, 32, 32);
   (256, 64, 64); (256, 64, 64);
   (128, 128, 128); (128, 128, 128);
   (64, 256, 256); (64, 256, 256);
   (32, 512, 512); (32, 512, 512);
   (16, 1024, 1024); (16, 1024, 1024);
   (3, 1024, 1024)].

Definition PGGAN_LATENT_256 : list (Z * Z * Z) :=
  [(512, 1, 1); (512, 4, 4);
   (512, 4, 4); (512, 8, 8);
   (512, 8, 8); (512, 16, 16);
   (512, 16, 16); (512, 32, 32);
   (512, 32, 32); (256, 64, 64);
   (256, 64, 64); (128, 128, 128);
   (128, 128, 128); (64, 256, 256);
   (64, 256, 256); (3, 256, 256)].

Definition PGGAN_LAYER_MAPPING : list (Z * Z) :=
  [(0, 0); (1, 1); (2, 3); (3, 4); (4, 6); (5, 7); (6, 9); (7, 10); (8, 12)].

(** A callable layer. *)
Definition layer : Type := pyval -> res pyval.

(** The pretrained generator as the wrappers use it: it can be called,
    and it lists its child layers in order. *)
Record gan_model : Type :=
  { call : pyval -> res pyval;
    children : list layer }.

(** The command-line options the sources read. *)
Record args_t : Type :=
  { composing_layer : Z;
    args_z_number : Z;
    args_iterations : Z;
    args_lr : R;
    args_init_type : string }.

(** [nn.Sequential] over the given layers, applied to [x]. *)
Fixpoint Sequential (layers : list layer) (x : pyval) : res pyval :=
  match layers with
  | [] => Ok x
  | m :: rest =>
      match m x with
      | Ok y => Sequential rest y
      | Raise e => Raise e
      end
  end.

(** [a, b = z] *)
Definition unpack2 (z : list pyval) : res (pyval * pyval) :=
  match z with
  | [a; b] => Ok (a, b)
  | _ => Raise (ValueError "wrong number of values to unpack")
  end.

(** [Derivable_Models.Gan_Utils.get_gan_model], which loads the
    pretrained network of a given name, is not among the sources: the
    constructors below take it as their first argument. *)
Definition gan_utils : Type := string -> res gan_model.

Module PGGAN.

Record t : Type := { pggan : gan_model; init : bool }.

Definition __init__ (get_gan_model : gan_utils) (gan_model_name : string) : res t :=
  g ← get_gan_model gan_model_name;
  Ok {| pggan := g; init := false |}.

Definition input_size (self : t) : list (list Z) := [[512]].

Definition forward (self : t) (z : list pyval) : res pyval :=
  latent ← Py.getitem z 0;
  call (pggan self) latent.

End PGGAN.

Module PGGAN_multi_z.

Record t : Type :=
  { blending_layer : Z;
    z_number : Z;
    z_dim : Z;
    pggan : gan_model;
    pre_model : list layer;
    post_model : list layer;
    init : bool;
    mask_size : list Z;
    layer_c_number : Z }.

Definition __init__ (get_gan_model : gan_utils) (gan_model_name : string)
    (blending_layer z_number : Z) (args : args_t) : res t :=
  g ← get_gan_model gan_model_name;
  let pre := Py.slice_to (children g) blending_layer in
  let post := Py.slice_from (children g) blending_layer in
  let PGGAN_LATENT :=
    if (gan_model_name =? "PGGAN-CelebA")%string
    then PGGAN_LATENT_1024 else PGGAN_LATENT_256 in
  '(c, h, w) ← Py.getitem PGGAN_LATENT blending_layer;
  Ok {| blending_layer := blending_layer; z_number := z_number; z_dim := 512;
        pggan := g; pre_model := pre; post_model := post; init := true;
        mask_size := [h; w]; layer_c_number := c |}.

Definition input_size (self : t) : list (list Z) :=
  [[z_number self; z_dim self]; [z_number self; layer_c_number self]].

(** [1 / k] for an [int] [k]: the [float] nearest to the quotient. *)
Definition one_over (k : Z) : res R :=
  if k =? 0 then Raise ZeroDivisionError else Ok (Float.float64 (1 / IZR k)).

(** [.cuda()] moves a tensor to the device and leaves its entries as
    they are; devices are not modelled. *)
Definition init_value (self : t) (batch_size : Z) (g : Torch.rng)
    : res (list Torch.Tensor * Torch.rng) :=
  '(z_estimate, g') ← Torch.randn [batch_size; z_number self; z_dim self] g;
  v ← one_over (z_number self);
  z_alpha ← Torch.full [batch_size; z_number self; layer_c_number self] v;
  Ok ([z_estimate; z_alpha], g').

(** The weighted feature map of code [j]. *)
Definition weighted_feature_map (self : t) (z_estimate alpha_estimate : pyval) (j : Z)
    : res pyval :=
  zj ← PyOps.select1 z_estimate j;
  zv ← PyOps.view_m1_d_1_1 zj (z_dim self);
  fm ← Sequential (pre_model self) zv;
  aj ← PyOps.select1 alpha_estimate j;
  av ← PyOps.view_m1_d_1_1 aj (layer_c_number self);
  PyOps.mul fm av.

(** The value bound to [fused_feature_map] in [forward]. *)
Definition fused_feature_map (self : t) (z : list pyval) : res pyval :=
  '(z_estimate, alpha_estimate) ← unpack2 z;
  feature_maps_list ←
    res_mapM (weighted_feature_map self z_estimate alpha_estimate)
      (Py.range (z_number self));
  s ← PyOps.sum feature_maps_list;
  PyOps.truediv_int s (z_number self).

Definition forward (self : t) (z : list pyval) : res pyval :=
  fused ← fused_feature_map self z;
  Sequential (post_model self) fused.

End PGGAN_multi_z.

Inductive derivable_generator : Type :=
| Single (g : PGGAN.t)
| Multi (g : PGGAN_multi_z.t).

Definition get_derivable_generator (get_gan_model : gan_utils)
    (gan_model_name generator_type : string) (args : args_t)
    : res derivable_generator :=
  if (generator_type =? "PGGAN-z")%string
  then g ← PGGAN.__init__ get_gan_model gan_model_name; Ok (Single g)
  else if (generator_type =? "PGGAN-Multi-Z")%string
  then
    g ← PGGAN_multi_z.__init__ get_gan_model gan_model_name
          (composing_layer args) (args_z_number args) args;
    Ok (Multi g)
  else Raise (Exception "Please indicate valid `generator_type`").

End Derivable_Generator.

(** ** inversion/inversion_methods.py *)

Module inversion_methods.

(** *** Tensor objects on a heap

    Latent tensors are updated in place by the optimiser and copied by
    [copy.deepcopy]; a tensor object is a location of the heap. *)

Definition loc : Type := nat.

Record cell : Type := { data : Torch.Tensor; requires_grad : bool }.

Record state : Type := { heap : list cell; gen : Torch.rng }.

Definition M (A : Type) : Type := state -> state * res A.

#[global] Instance M_ret : MRet M := fun A a s => (s, Ok a).
#[global] Instance M_bind : MBind M := fun A B f m s =>
  match m s with
  | (s', Ok a) => f a s'
  | (s', Raise e) => (s', Raise e)
  end.

Definition lift {A : Type} (r : res A) : M A := fun s => (s, r).

(** Runs a sampling call on the generator state. *)
Definition lift_rng {A : Type} (f : Torch.rng -> res (A * Torch.rng)) : M A :=
  fun s =>
    match f (gen s) with
    | Ok (a, g') => ({| heap := heap s; gen := g' |}, Ok a)
    | Raise e => (s, Raise e)
    end.

Definition alloc (c : cell) : M loc :=
  fun s => ({| heap := heap s ++ [c]; gen := gen s |}, Ok (length (heap s))).

(** A tensor just created ([requires_grad] is off). *)
Definition new_tensor (t : Torch.Tensor) : M loc :=
  alloc {| data := t; requires_grad := false |}.

Definition empty_cell : cell := {| data := Torch.mk 0 0%R; requires_grad := false |}.

Definition lookup_cell (s : state) (l : loc) : cell := default empty_cell (heap s !! l).

(** The entries of the tensor object [l]. *)
Definition deref (s : state) (l : loc) : Torch.Tensor := data (lookup_cell s l).

Definition read (l : loc) : M Torch.Tensor := fun s => (s, Ok (deref s l)).

Definition update (l : loc) (f : cell -> cell) (s : state) : state :=
  {| heap := alter f l (heap s); gen := gen s |}.

(** In-place assignment of the entries of [l]. *)
Definition write (l : loc) (t : Torch.Tensor) : M unit :=
  fun s => (update l (fun c => {| data := t; requires_grad := requires_grad c |}) s, Ok tt).

(** [l.requires_grad = b] *)
Definition set_requires_grad (l : loc) (b : bool) : M unit :=
  fun s => (update l (fun c => {| data := data c; requires_grad := b |}) s, Ok tt).

(** A [for] loop carrying the variables [a]. *)
Fixpoint M_foldM {A B : Type} (f : A -> B -> M A) (a : A) (l : list B) : M A :=
  match l with
  | [] => mret a
  | x :: l' => a' ← f a x; M_foldM f a' l'
  end.

Fixpoint M_mapM {A B : Type} (f : A -> M B) (l : list A) : M (list B) :=
  match l with
  | [] => mret []
  | x :: l' => y ← f x; ys ← M_mapM f l'; mret (y :: ys)
  end.

(** [copy.deepcopy] of a list of tensor objects: every object is
    copied once ([memo] remembers the copies already made). *)
Fixpoint deepcopy_from (memo : list (loc * loc)) (ls : list loc) : M (list loc) :=
  match ls with
  | [] => mret []
  | l :: ls' =>
      match list_find (fun p => fst p = l) memo with
      | Some (_, (_, l')) => cs ← deepcopy_from memo ls'; mret (l' :: cs)
      | None =>
          l' ← (fun s => alloc (lookup_cell s l) s);
          cs ← deepcopy_from ((l, l') :: memo) ls';
          mret (l' :: cs)
      end
  end.

Definition deepcopy (ls : list loc) : M (list loc) := deepcopy_from [] ls.

(** *** What [invert] asks of a generator *)

Record Generator : Type :=
  { input_size : list (list Z);
    init : bool;
    init_value : Z -> Torch.rng -> res (list Torch.Tensor * Torch.rng);
    forward : list pyval -> res pyval }.

Definition of_PGGAN (g : Derivable_Generator.PGGAN.t) : Generator :=
  {| input_size := Derivable_Generator.PGGAN.input_size g;
     init := Derivable_Generator.PGGAN.init g;
     init_value := fun _ _ =>
       Raise (AttributeError "'PGGAN' object has no attribute 'init_value'");
     forward := Derivable_Generator.PGGAN.forward g |}.

Definition of_PGGAN_multi_z (g : Derivable_Generator.PGGAN_multi_z.t) : Generator :=
  {| input_size := Derivable_Generator.PGGAN_multi_z.input_size g;
     init := Derivable_Generator.PGGAN_multi_z.init g;
     init_value := Derivable_Generator.PGGAN_multi_z.init_value g;
     forward := Derivable_Generator.PGGAN_multi_z.forward g |}.

(** *** [torch.optim] and autograd *)

Inductive optimizer_class : Type := SGD | Adam.

(** Differentiation and the update rules belong to the library.
    [grad f vs] is what [loss.backward()] leaves in the [.grad] fields
    of the latents when the loss was computed as [f vs]; [opt_step] is
    the new optimiser state and the new entries of the parameters. *)
Class Autograd : Type :=
  { OptState : Type;
    grad : (list Torch.Tensor -> res pyval) -> list Torch.Tensor -> res (list Torch.Tensor);
    opt_init : optimizer_class -> list Torch.Tensor -> OptState;
    opt_step : optimizer_class -> R -> OptState ->
               list Torch.Tensor -> list Torch.Tensor -> OptState * list Torch.Tensor }.

(** The argument checks of the optimiser constructors. *)
Definition optimizer_check (cls : optimizer_class) (params : list loc) (lr : R) : res unit :=
  if Rlt_dec lr 0 then Raise (ValueError "Invalid learning rate")
  else match params with
       | [] => Raise (ValueError "optimizer got an empty parameter list")
       | _ :: _ => Ok tt
       end.

Module GradientDescent.

Record t : Type :=
  { iterations : Z;
    lr : R;
    optimizer : optimizer_class;
    init_type : string }.

Definition __init__ (iterations : Z) (lr : R) (optimizer : optimizer_class)
    (args : Derivable_Generator.args_t) : t :=
  {| iterations := iterations; lr := lr; optimizer := optimizer;
     init_type := Derivable_Generator.args_init_type args |}.

Section invert.

Context {AG : Autograd}.

Variable self : t.
Variable generator : Generator.
Variable gt_image : pyval.
Variable loss_function : pyval -> pyval -> res pyval.
Variable batch_size : Z.
Variable video : bool.
Variable init_ : list loc.

(** The body of the loop over [input_size_list] when the generator
    has no initialiser of its own ([.cuda()] leaves the entries as
    they are). *)
Definition init_one (latent_estimate : list loc) (input_size : list Z) : M (list loc) :=
  if (init_type self =? "Zero")%string
  then
    t ← lift (Torch.zeros (batch_size :: input_size));
    l ← new_tensor t;
    mret (latent_estimate ++ [l])
  else if (init_type self =? "Normal")%string
  then
    t ← lift_rng (Torch.randn (batch_size :: input_size));
    l ← new_tensor t;
    mret (latent_estimate ++ [l])
  else mret latent_estimate.

(** The statements that bind [latent_estimate]. *)
Definition initial_latents : M (list loc) :=
  let input_size_list := input_size generator in
  if (length init_ =? 0)%nat
  then
    if negb (init generator)
    then M_foldM init_one [] input_size_list
    else
      ts ← lift_rng (init_value generator batch_size);
      M_mapM new_tensor ts
  else
    if (length init_ =? length input_size_list)%nat
    then mret init_
    else lift (Raise (AssertionError "Please check the number of init value")).

(** Forward pass and loss, as a function of the latent entries. *)
Definition objective (vs : list Torch.Tensor) : res pyval :=
  y_estimate ← forward generator (map PyTensor vs);
  loss_function y_estimate gt_image.

(** One pass of forward, loss, backward and optimiser step, on the
    entries of the latents. *)
Definition descend (opt : OptState) (vs : list Torch.Tensor)
    : res (OptState * list Torch.Tensor) :=
  _ ← objective vs;
  gs ← grad objective vs;
  Ok (opt_step (optimizer self) (lr self) opt vs gs).

Definition write_all (ls : list loc) (vs : list Torch.Tensor) : M unit :=
  M_foldM (fun _ p => write (fst p) (snd p)) tt (combine ls vs).

(** The body of the optimisation loop. *)
Definition iteration (latent_estimate : list loc)
    (st : OptState * list (list loc)) (i : Z) : M (OptState * list (list loc)) :=
  let '(opt, history) := st in
  vs ← M_mapM read latent_estimate;
  '(opt', vs') ← lift (descend opt vs);
  _ ← write_all latent_estimate vs';
  if video
  then h ← deepcopy latent_estimate; mret (opt', history ++ [h])
  else mret (opt', history).

(** The statements from [requires_grad] to the end of the loop. *)
Definition optimise (latent_estimate : list loc) : M (OptState * list (list loc)) :=
  _ ← M_mapM (fun latent => set_requires_grad latent true) latent_estimate;
  _ ← lift (optimizer_check (optimizer self) latent_estimate (lr self));
  vs0 ← M_mapM read latent_estimate;
  M_foldM (iteration latent_estimate)
    (opt_init (optimizer self) vs0, []) (Py.range (iterations self)).

Definition invert : M (list loc * list (list loc)) :=
  latent_estimate ← initial_latents;
  '(_, history) ← optimise latent_estimate;
  mret (latent_estimate, history).

End invert.

End GradientDescent.

(** [None] is the value of a call that falls off the end. *)
Definition get_inversion (inversion_type : string) (args : Derivable_Generator.args_t)
    : option GradientDescent.t :=
  if (inversion_type =? "GD")%string
  then Some (GradientDescent.__init__ (Derivable_Generator.args_iterations args)
               (Derivable_Generator.args_lr args) SGD args)
  else if (inversion_type =? "Adam")%string
  then Some (GradientDescent.__init__ (Derivable_Generator.args_iterations args)
               (Derivable_Generator.args_lr args) Adam args)
  else None.

End inversion_methods.

(** ** Vocabulary of the statements *)

(** The message an exception carries. *)
Definition exn_message (e : exn) : string :=
  match e with
  | Exception m | ValueError m | AssertionError m | NotImplementedError m
  | RuntimeError m | IndexError m | TypeError m | AttributeError m => m
  | UnboundLocalError n => n
  | ZeroDivisionError => "division by zero"
  end.

(** [resolution] is one of the allowed resolutions. *)
Definition allowed (resolution : Z) : Prop :=
  In resolution pggan_generator_network._RESOLUTIONS_ALLOWED.

(** The extent that results from broadcasting two extents. *)
Definition bdim (da db : nat) : nat :=
  if (da =? db)%nat then da else if (da =? 1)%nat then db else da.

Definition bshape (sa sb : list nat) : list nat := zip_with bdim sa sb.

(** Two shapes can be broadcast together. *)
Definition compat (sa sb : list nat) : Prop :=
  Forall2 (fun da db => da = db \/ da = 1%nat \/ db = 1%nat) sa sb.

(** The index read from an operand of shape [s] for the result index
    [idx]: an extent of one is read at [0]. *)
Definition clip (s idx : list nat) : list nat :=
  zip_with (fun d i => if (d =? 1)%nat then 0%nat else i) s idx.

Definition Rsum (l : list R) : R := fold_right Rplus 0%R l.

(** The sum of [f 0], ..., [f (n - 1)]. *)
Definition sum_over (n : nat) (f : nat -> R) : R := Rsum (map f (seq 0 n)).

(** Mean over the [C] channels of the squared entries of [x] at batch
    index [b] and position [pos]. *)
Definition mean_square (k : nat) (x : Torch.tensor (S (S k))) (C b : nat) (pos : list nat) : R :=
  (sum_over C (fun c => Torch.get (S (S k)) (b :: c :: pos) x ^ 2) / INR C)%R.

(** The slice [z[:, j, :]] of a rank-3 tensor. *)
Definition slice1 (j : nat) (z : Torch.tensor 3) : Torch.tensor 2 :=
  map (fun zb : list (list R) => default [] (zb !! j)) z.

(** A matrix seen as a tensor of extents (rows, columns, 1, 1). *)
Definition as_1x1 (s : Torch.tensor 2) : Torch.tensor 4 :=
  map (map (fun v : R => [[v]])) s.

(** The input of the pre-stage for code [j]: the slice [z[:, j, :]] with
    extents (batch, z_dim, 1, 1). *)
Definition code_input (z : Torch.tensor 3) (j : nat) : Torch.tensor 4 :=
  as_1x1 (slice1 j z).

(** The heap after [l] is assigned the entries [t] in place. *)
Definition write_heap (h : list inversion_methods.cell) (l : inversion_methods.loc)
    (t : Torch.Tensor) : list inversion_methods.cell :=
  alter (fun c => {| inversion_methods.data := t;
                     inversion_methods.requires_grad := inversion_methods.requires_grad c |})
    l h.

Definition write_all_heap (ls : list inversion_methods.loc) (vs : list Torch.Tensor)
    (h : list inversion_methods.cell) : list inversion_methods.cell :=
  fold_left (fun h p => write_heap h p.1 p.2) (combine ls vs) h.

(** The heap after [requires_grad] is switched on for each of [ls]. *)
Definition require_grad_heap (ls : list inversion_methods.loc)
    (h : list inversion_methods.cell) : list inversion_methods.cell :=
  fold_left
    (fun h l => alter (fun c => {| inversion_methods.data := inversion_methods.data c;
                                   inversion_methods.requires_grad := true |}) l h)
    ls h.

Definition prepared (s : inversion_methods.state) (ls : list inversion_methods.loc)
    : inversion_methods.state :=
  {| inversion_methods.heap := require_grad_heap ls (inversion_methods.heap s);
     inversion_methods.gen := inversion_methods.gen s |}.

(** All of [ls] are objects of the heap of [s]. *)
Definition valid (s : inversion_methods.state) (ls : list inversion_methods.loc) : Prop :=
  Forall (fun l => (l < length (inversion_methods.heap s))%nat) ls.

(** The same optimiser with another iteration budget. *)
Definition with_iterations (self : inversion_methods.GradientDescent.t) (n : Z)
    : inversion_methods.GradientDescent.t :=
  {| inversion_methods.GradientDescent.iterations := n;
     inversion_methods.GradientDescent.lr := inversion_methods.GradientDescent.lr self;
     inversion_methods.GradientDescent.optimizer :=
       inversion_methods.GradientDescent.optimizer self;
     inversion_methods.GradientDescent.init_type :=
       inversion_methods.GradientDescent.init_type self |}.

(** The optimisation loop of [n] passes from the optimiser state [opt0]. *)
Definition loop {AG : inversion_methods.Autograd}
    (self : inversion_methods.GradientDescent.t) (generator : inversion_methods.Generator)
    (gt_image : pyval) (loss_function : pyval -> pyval -> res pyval)
    (video : bool) (latents : list inversion_methods.loc)
    (opt0 : inversion_methods.OptState) (n : nat)
    : inversion_methods.M (inversion_methods.OptState * list (list inversion_methods.loc)) :=
  inversion_methods.M_foldM
    (inversion_methods.GradientDescent.iteration self generator gt_image loss_function
       video latents)
    (opt0, []) (Py.range (Z.of_nat n)).

(** The call [inversion.invert(...)] made on whatever [get_inversion]
    returned. *)
Definition call_invert {AG : inversion_methods.Autograd}
    (inversion : option inversion_methods.GradientDescent.t)
    (generator : inversion_methods.Generator) (gt_image : pyval)
    (loss_function : pyval -> pyval -> res pyval) (batch_size : Z) (video : bool)
    (init_ : list inversion_methods.loc)
    : inversion_methods.M (list inversion_methods.loc * list (list inversion_methods.loc)) :=
  match inversion with
  | Some self =>
      inversion_methods.GradientDescent.invert self generator gt_image loss_function
        batch_size video init_
  | None =>
      inversion_methods.lift
        (Raise (AttributeError "'NoneType' object has no attribute 'invert'"))
  end.

(** ** Sample objects *)

Definition example_args : Derivable_Generator.args_t :=
  {| Derivable_Generator.composing_layer := 6;
     Derivable_Generator.args_z_number := 30;
     Derivable_Generator.args_iterations := 3000;
     Derivable_Generator.args_lr := 1%R;
     Derivable_Generator.args_init_type := "Zero" |}.

Definition identity_layer : Derivable_Generator.layer := fun x => Ok x.

(** A stand-in for a pretrained network: two layers that return their
    input. *)
Definition example_gan_model : Derivable_Generator.gan_model :=
  {| Derivable_Generator.call := fun x => Ok x;
     Derivable_Generator.children := [identity_layer; identity_layer] |}.

Definition example_gan_utils : Derivable_Generator.gan_utils :=
  fun _ => Ok example_gan_model.

(** The multi-code wrapper split before the first layer, with two codes. *)
Definition example_multi : Derivable_Generator.PGGAN_multi_z.t :=
  {| Derivable_Generator.PGGAN_multi_z.blending_layer := 0;
     Derivable_Generator.PGGAN_multi_z.z_number := 2;
     Derivable_Generator.PGGAN_multi_z.z_dim := 512;
     Derivable_Generator.PGGAN_multi_z.pggan := example_gan_model;
     Derivable_Generator.PGGAN_multi_z.pre_model := [];
     Derivable_Generator.PGGAN_multi_z.post_model := [identity_layer; identity_layer];
     Derivable_Generator.PGGAN_multi_z.init := true;
     Derivable_Generator.PGGAN_multi_z.mask_size := [1; 1];
     Derivable_Generator.PGGAN_multi_z.layer_c_number := 512 |}.

(** The same wrapper with three codes. *)
Definition example_multi3 : Derivable_Generator.PGGAN_multi_z.t :=
  {| Derivable_Generator.PGGAN_multi_z.blending_layer := 0;
     Derivable_Generator.PGGAN_multi_z.z_number := 3;
     Derivable_Generator.PGGAN_multi_z.z_dim := 512;
     Derivable_Generator.PGGAN_multi_z.pggan := example_gan_model;
     Derivable_Generator.PGGAN_multi_z.pre_model := [];
     Derivable_Generator.PGGAN_multi_z.post_model := [identity_layer; identity_layer];
     Derivable_Generator.PGGAN_multi_z.init := true;
     Derivable_Generator.PGGAN_multi_z.mask_size := [1; 1];
     Derivable_Generator.PGGAN_multi_z.layer_c_number := 512 |}.

(** One image, two codes: every latent entry is [1], every weight [1/2]. *)
Definition example_z : Torch.tensor 3 := Torch.full_n [1; 2; 512]%nat 1%R.
Definition example_alpha : Torch.tensor 3 := Torch.full_n [1; 2; 512]%nat (1 / 2)%R.

Definition example_pggan : Derivable_Generator.PGGAN.t :=
  {| Derivable_Generator.PGGAN.pggan := example_gan_model;
     Derivable_Generator.PGGAN.init := false |}.

(** A loss whose gradient is one at every entry, and the step
    [p - lr * 1] for either optimiser. *)
Definition example_autograd : inversion_methods.Autograd :=
  {| inversion_methods.OptState := unit;
     inversion_methods.grad := fun _ vs => Ok vs;
     inversion_methods.opt_init := fun _ _ => tt;
     inversion_methods.opt_step := fun _ lr _ vs _ =>
       (tt, map (fun v => Torch.add_scalar v (- lr)%R) vs) |}.

Definition example_loss : pyval -> pyval -> res pyval := fun _ _ => Ok (PyNum 0%R).

Definition example_state : inversion_methods.state :=
  {| inversion_methods.heap := []; inversion_methods.gen := fun _ => 0%R |}.

(** Two iterations of plain gradient descent from zero latents. *)
Definition example_gd : inversion_methods.GradientDescent.t :=
  inversion_methods.GradientDescent.__init__ 2 1%R inversion_methods.SGD example_args.

(** An optimiser whose fill strategy is neither [Zero] nor [Normal]. *)
Definition example_gd_uniform : inversion_methods.GradientDescent.t :=
  {| inversion_methods.GradientDescent.iterations := 2;
     inversion_methods.GradientDescent.lr := 1%R;
     inversion_methods.GradientDescent.optimizer := inversion_methods.SGD;
     inversion_methods.GradientDescent.init_type := "Uniform" |}.

(** A heap that holds one tensor object. *)
Definition example_state1 : inversion_methods.state :=
  {| inversion_methods.heap :=
       [{| inversion_methods.data := Torch.mk 2 [[0%R]];
           inversion_methods.requires_grad := false |}];
     inversion_methods.gen := fun _ => 0%R |}.

(** A single pixel with a single channel of value [1e-4]. *)
Definition example_pixel : Torch.tensor 4 := [[[[1e-4%R]]]].

(** ** Further vocabulary *)

(** The names under which the constructor registers the three blocks of
    stage [b]. *)
Definition block_names (b : Z) : list string :=
  [("layer" ++ Py.str (2 * b))%string; ("layer" ++ Py.str (2 * b + 1))%string;
   ("output" ++ Py.str b)%string].

(** The names of the children of a generator of a given resolution, in
    order. *)
Definition module_names (resolution : Z) : list string :=
  flat_map block_names (Py.range (Z.log2 resolution - 1)) ++ ["upsample"%string].

(** The names of an ordered dictionary after an assignment to [name]. *)
Definition add_name (names : list string) (name : string) : list string :=
  if bool_decide (name ∈ names) then names else names ++ [name].

(** The checkpoint names one pass of the constructor's loop records. *)
Definition stage_mapping (init_res init_res_log2 final_res_log2 : Z) (fused_scale : bool)
    (mapping : gmap string string) (res_log2 : Z) : gmap string string :=
  let res_ := 2 ^ res_log2 in
  let block_idx := res_log2 - init_res_log2 in
  let rr := (Py.str res_ ++ "x" ++ Py.str res_)%string in
  let layer0 := ("layer" ++ Py.str (2 * block_idx))%string in
  let layer1 := ("layer" ++ Py.str (2 * block_idx + 1))%string in
  let output := ("output" ++ Py.str block_idx)%string in
  let lod_name := ("ToRGB_lod" ++ Py.str (final_res_log2 - res_log2))%string in
  let mapping :=
    if res_ =? init_res
    then
      <[(layer0 ++ ".wscale.bias")%string := (rr ++ "/Dense/bias")%string]>
      (<[(layer0 ++ ".conv.weight")%string := (rr ++ "/Dense/weight")%string]> mapping)
    else if fused_scale
    then
      <[(layer0 ++ ".wscale.bias")%string := (rr ++ "/Conv0_up/bias")%string]>
      (<[(layer0 ++ ".weight")%string := (rr ++ "/Conv0_up/weight")%string]> mapping)
    else
      <[(layer0 ++ ".wscale.bias")%string := (rr ++ "/Conv0/bias")%string]>
      (<[(layer0 ++ ".conv.weight")%string := (rr ++ "/Conv0/weight")%string]> mapping) in
  let mapping :=
    if res_ =? init_res
    then
      <[(layer1 ++ ".wscale.bias")%string := (rr ++ "/Conv/bias")%string]>
      (<[(layer1 ++ ".conv.weight")%string := (rr ++ "/Conv/weight")%string]> mapping)
    else
      <[(layer1 ++ ".wscale.bias")%string := (rr ++ "/Conv1/bias")%string]>
      (<[(layer1 ++ ".conv.weight")%string := (rr ++ "/Conv1/weight")%string]> mapping) in
  <[(output ++ ".wscale.bias")%string := (lod_name ++ "/bias")%string]>
  (<[(output ++ ".conv.weight")%string := (lod_name ++ "/weight")%string]> mapping).

(** The dictionary of checkpoint names of a generator of a given
    resolution. *)
Definition expected_mapping (resolution : Z) (fused_scale : bool) : gmap string string :=
  fold_left
    (stage_mapping pggan_generator_network._INIT_RES 2 (Z.log2 resolution) fused_scale)
    (Py.range2 2 (Z.log2 resolution + 1)) {[ "lod"%string := "lod"%string ]}.

(** The children names after the loop of the constructor. *)
Definition stage_names (init_res_log2 : Z) (names : list string) (res_log2 : Z) : list string :=
  fold_left add_name (block_names (res_log2 - init_res_log2)) names.

(** A feature map with one channel of two rows and two columns. *)
Definition example_feature_map : Torch.tensor 4 := [[[[1%R; 2%R]; [3%R; 4%R]]]].

(** A weight-scaling layer with one channel, scale [2] and bias [1]. *)
Definition example_wscale : pggan_generator_network.WScaleLayer.t :=
  {| pggan_generator_network.WScaleLayer.scale := 2%R;
     pggan_generator_network.WScaleLayer.bias := Torch.mk 1 [1%R] |}.

(** The network after its parameter [lod] is overwritten, as loading a
    checkpoint does. *)
Definition with_lod (l : R) (self : pggan_generator_network.PGGANGeneratorNet.t)
    : pggan_generator_network.PGGANGeneratorNet.t :=
  let net := self in
  {| pggan_generator_network.PGGANGeneratorNet.init_res :=
       pggan_generator_network.PGGANGeneratorNet.init_res net;
     pggan_generator_network.PGGANGeneratorNet.init_res_log2 :=
       pggan_generator_network.PGGANGeneratorNet.init_res_log2 net;
     pggan_generator_network.PGGANGeneratorNet.resolution :=
       pggan_generator_network.PGGANGeneratorNet.resolution net;
     pggan_generator_network.PGGANGeneratorNet.final_res_log2 :=
       pggan_generator_network.PGGANGeneratorNet.final_res_log2 net;
     pggan_generator_network.PGGANGeneratorNet.z_space_dim :=
       pggan_generator_network.PGGANGeneratorNet.z_space_dim net;
     pggan_generator_network.PGGANGeneratorNet.image_channels :=
       pggan_generator_network.PGGANGeneratorNet.image_channels net;
     pggan_generator_network.PGGANGeneratorNet.fused_scale :=
       pggan_generator_network.PGGANGeneratorNet.fused_scale net;
     pggan_generator_network.PGGANGeneratorNet.fmaps_base :=
       pggan_generator_network.PGGANGeneratorNet.fmaps_base net;
     pggan_generator_network.PGGANGeneratorNet.fmaps_max :=
       pggan_generator_network.PGGANGeneratorNet.fmaps_max net;
     pggan_generator_network.PGGANGeneratorNet.num_layers :=
       pggan_generator_network.PGGANGeneratorNet.num_layers net;
     pggan_generator_network.PGGANGeneratorNet.lod := l;
     pggan_generator_network.PGGANGeneratorNet.pth_to_tf_var_mapping :=
       pggan_generator_network.PGGANGeneratorNet.pth_to_tf_var_mapping net;
     pggan_generator_network.PGGANGeneratorNet._modules :=
       pggan_generator_network.PGGANGeneratorNet._modules net |}.

(** A batch of one latent code of [512] entries, all [1]. *)
Definition example_latent : Torch.tensor 2 := Torch.full_n [1; 512]%nat 1%R.

(** A batch of one latent code of three entries. *)
Definition example_short_latent : Torch.tensor 2 := [[1%R; 2%R; 3%R]].

(** One image, one code: every latent entry and every weight is [1]. *)
Definition example_single_code : Torch.tensor 3 := Torch.full_n [1; 1; 512]%nat 1%R.

(** [h'] extends the heap [h], keeps every [requires_grad] flag of [h],
    and differs from [h] at the objects [ls] at most. *)
Definition heap_step (ls : list inversion_methods.loc)
    (h h' : list inversion_methods.cell) : Prop :=
  (length h <= length h')%nat /\
  forall l, (l < length h)%nat ->
    inversion_methods.requires_grad <$> h' !! l
    = inversion_methods.requires_grad <$> h !! l /\
    (l ∉ ls -> h' !! l = h !! l).

(** A tensor object just created with entries [t]. *)
Definition fresh_cell (t : Torch.Tensor) : inversion_methods.cell :=
  {| inversion_methods.data := t; inversion_methods.requires_grad := false |}.

(** An optimiser that performs no iteration. *)
Definition example_gd_idle : inversion_methods.GradientDescent.t :=
  inversion_methods.GradientDescent.__init__ 0 1%R inversion_methods.SGD example_args.

(** A generator with one input of one entry. *)
Definition example_generator : inversion_methods.Generator :=
  {| inversion_methods.input_size := [[1]];
     inversion_methods.init := false;
     inversion_methods.init_value := fun _ g => Ok ([], g);
     inversion_methods.forward := fun _ => Ok (PyNum 0%R) |}.

(** A heap that holds two tensor objects. *)
Definition example_state2 : inversion_methods.state :=
  {| inversion_methods.heap := [fresh_cell (Torch.mk 2 [[0%R]]); fresh_cell (Torch.mk 2 [[5%R]])];
     inversion_methods.gen := fun _ => 0%R |}.

(** * Properties *)

Import Torch Derivable_Generator inversion_methods pggan_generator_network.

(** ** Floating-point numbers *)

Lemma pow2_pos (e : Z) : (0 < Float.pow2 e)%R.
Proof.
  unfold Float.pow2. destruct (Z.leb_spec 0 e).
  - apply IZR_lt, Z.pow_pos_nonneg; lia.
  - apply Rinv_0_lt_compat, IZR_lt, Z.pow_pos_nonneg; lia.
Qed.

Lemma pow2_succ (e : Z) : Float.pow2 (e + 1) = (2 * Float.pow2 e)%R.
Proof.
  unfold Float.pow2.
  destruct (Z.leb_spec 0 e) as [He|He]; destruct (Z.leb_spec 0 (e + 1)) as [He1|He1];
    try lia.
  - rewrite Z.pow_add_r, Z.pow_1_r, mult_IZR by lia. lra.
  - assert (e = -1) as -> by lia.
    change (2 ^ (-1 + 1)) with 1. change (2 ^ (- -1)) with 2. lra.
  - replace (- e) with (- (e + 1) + 1) by lia.
    rewrite Z.pow_add_r, Z.pow_1_r, mult_IZR by lia.
    assert (0 < IZR (2 ^ (- (e + 1))))%R by (apply IZR_lt, Z.pow_pos_nonneg; lia).
    field. lra.
Qed.

Lemma pow2_add_nonneg (a b : Z) :
  0 <= b -> Float.pow2 (a + b) = (Float.pow2 a * Float.pow2 b)%R.
Proof.
  intros Hb. revert a. pattern b. apply natlike_ind; [| |exact Hb].
  - intros a. rewrite Z.add_0_r. change (Float.pow2 0) with 1%R. lra.
  - intros x Hx IH a. replace (a + Z.succ x) with ((a + x) + 1) by lia.
    replace (Z.succ x) with (x + 1) by lia. rewrite !pow2_succ, IH. lra.
Qed.

Lemma pow2_le (p q : Z) : p <= q -> (Float.pow2 p <= Float.pow2 q)%R.
Proof.
  intros Hpq. replace q with (p + (q - p)) by lia.
  rewrite pow2_add_nonneg by lia.
  pose proof (pow2_pos p).
  assert (1 <= Float.pow2 (q - p))%R.
  { unfold Float.pow2. destruct (Z.leb_spec 0 (q - p)); [|lia].
    apply IZR_le. pose proof (Z.pow_pos_nonneg 2 (q - p)). lia. }
  nra.
Qed.

Lemma find_exp_spec (fuel : nat) (e0 e : Z) (x : R) :
  e0 <= e <= e0 + Z.of_nat fuel ->
  (e0 < e -> (Float.pow2 e <= x)%R) -> (x < Float.pow2 (e + 1))%R ->
  Float.find_exp fuel e0 x = e.
Proof.
  revert e0. induction fuel as [|fuel IH]; intros e0 He Hlo Hhi.
  - cbn. lia.
  - cbn [Float.find_exp]. destruct (Rlt_dec x (Float.pow2 (e0 + 1))) as [Hlt|Hge].
    + destruct (Z.eq_dec e0 e) as [|Hne]; [assumption|].
      pose proof (Hlo ltac:(lia)). pose proof (pow2_le (e0 + 1) e ltac:(lia)). lra.
    + destruct (Z.eq_dec e0 e) as [->|Hne]; [contradiction|].
      apply IH; [lia| |assumption]. intros _. apply Hlo. lia.
Qed.

Lemma nearest_even_down (y : R) (n : Z) :
  (IZR n <= y < IZR n + 1 / 2)%R -> Float.nearest_even y = n.
Proof.
  intros Hy. unfold Float.nearest_even.
  rewrite <- (Int_part_spec y n) by lra.
  destruct (Rlt_dec (y - IZR n) (1 / 2)); [reflexivity|lra].
Qed.

Lemma nearest_even_up (y : R) (n : Z) :
  (IZR n + 1 / 2 < y < IZR n + 1)%R -> Float.nearest_even y = n + 1.
Proof.
  intros Hy. unfold Float.nearest_even.
  rewrite <- (Int_part_spec y n) by lra.
  destruct (Rlt_dec (y - IZR n) (1 / 2)); [lra|].
  destruct (Rlt_dec (1 / 2) (y - IZR n)); [reflexivity|lra].
Qed.

Lemma round_pos_at (prec emin emax e : Z) (x : R) :
  emin <= e <= emax ->
  (emin < e -> (Float.pow2 e <= x)%R) -> (x < Float.pow2 (e + 1))%R ->
  Float.round_pos prec emin emax x
  = (IZR (Float.nearest_even (x / Float.pow2 (e - prec + 1)))
     * Float.pow2 (e - prec + 1))%R.
Proof.
  intros He Hlo Hhi. unfold Float.round_pos.
  rewrite (find_exp_spec _ emin e x); [reflexivity| |assumption|assumption].
  rewrite Z2Nat.id by lia. lia.
Qed.

(** A power of two within the exponent range is a floating-point
    number. *)
Lemma round_pow2 (prec emin emax e : Z) :
  1 <= prec -> emin <= e <= emax ->
  Float.round prec emin emax (Float.pow2 e) = Float.pow2 e.
Proof.
  intros Hp He. pose proof (pow2_pos e) as Hpos. unfold Float.round.
  destruct (Rlt_dec (Float.pow2 e) 0) as [?|_]; [lra|].
  rewrite (round_pos_at prec emin emax e); [|assumption|lra|].
  - pose proof (pow2_pos (e - prec + 1)) as Hu.
    assert (Hsplit : Float.pow2 e
                     = (Float.pow2 (e - prec + 1) * IZR (2 ^ (prec - 1)))%R).
    { replace e with ((e - prec + 1) + (prec - 1)) at 1 by lia.
      rewrite pow2_add_nonneg by lia. f_equal.
      unfold Float.pow2. destruct (Z.leb_spec 0 (prec - 1)); [reflexivity|lia]. }
    replace (Float.pow2 e / Float.pow2 (e - prec + 1))%R with (IZR (2 ^ (prec - 1)))
      by (rewrite Hsplit; field; lra).
    rewrite (nearest_even_down _ (2 ^ (prec - 1))) by lra. rewrite Hsplit. lra.
  - rewrite pow2_succ. lra.
Qed.

Lemma inv_pow2 (k : Z) : 0 <= k -> (1 / IZR (2 ^ k))%R = Float.pow2 (- k).
Proof.
  intros Hk. unfold Float.pow2. destruct (Z.leb_spec 0 (- k)).
  - assert (k = 0) as -> by lia. change (2 ^ 0) with 1. change (2 ^ (- 0)) with 1. lra.
  - rewrite Z.opp_involutive. lra.
Qed.

(** The reciprocal of a power of two is stored exactly. *)
Lemma float32_inv_pow2 (k : Z) :
  0 <= k <= 126 ->
  Float.float32 (Float.float64 (1 / IZR (2 ^ k))) = (1 / IZR (2 ^ k))%R.
Proof.
  intros Hk. rewrite inv_pow2 by lia. unfold Float.float32, Float.float64.
  rewrite !round_pow2 by lia. reflexivity.
Qed.

(** Python's [1 / 3]. *)
Lemma float64_third :
  Float.float64 (1 / 3) = (6004799503160661 / 18014398509481984)%R.
Proof.
  unfold Float.float64, Float.round.
  destruct (Rlt_dec (1 / 3) 0) as [?|_]; [lra|].
  rewrite (round_pos_at 53 (-1022) 1023 (-2)); [|lia| |].
  - change (Float.pow2 (-2 - 53 + 1)) with (/ 18014398509481984)%R.
    rewrite (nearest_even_down _ 6004799503160661) by lra. lra.
  - intros _. change (Float.pow2 (-2)) with (/ 4)%R. lra.
  - change (Float.pow2 (-2 + 1)) with (/ 2)%R. lra.
Qed.

(** [1 / 3] as an entry of a [float32] tensor. *)
Lemma float32_third :
  Float.float32 (Float.float64 (1 / 3)) = (11184811 / 33554432)%R.
Proof.
  rewrite float64_third. unfold Float.float32, Float.round.
  destruct (Rlt_dec _ 0) as [?|_]; [lra|].
  rewrite (round_pos_at 24 (-126) 127 (-2)); [|lia| |].
  - change (Float.pow2 (-2 - 24 + 1)) with (/ 33554432)%R.
    rewrite (nearest_even_up _ 11184810) by lra. 
    change (11184810 + 1) with 11184811. lra.
  - intros _. change (Float.pow2 (-2)) with (/ 4)%R. lra.
  - change (Float.pow2 (-2 + 1)) with (/ 2)%R. lra.
Qed.

(** ** The constructor of the frozen generator *)

Lemma check_size_ok (shape : list Z) :
  Forall (fun d => 0 <= d) shape ->
  Torch.check_size shape = Ok (map Z.to_nat shape).
Proof.
  intros H. unfold Torch.check_size.
  replace (forallb (fun d => 0 <=? d) shape) with true; [reflexivity|].
  symmetry. apply forallb_forall. intros d Hd.
  rewrite Forall_forall in H. apply Z.leb_le, H. by apply list_elem_of_In.
Qed.

Lemma ConvBlock_init_ok (in_channels out_channels kernel_size stride padding dilation : Z)
    (add_bias upsample fused_scale : bool) (gain : R) (activation_type : string) :
  0 <= in_channels -> 0 <= out_channels -> 0 <= kernel_size ->
  activation_type = "lrelu"%string \/ activation_type = "linear"%string ->
  exists b, ConvBlock.__init__ in_channels out_channels kernel_size stride padding dilation
              add_bias upsample fused_scale gain activation_type = Ok b.
Proof.
  intros Hi Ho Hk Hact. unfold ConvBlock.__init__, Conv2d.__init__, WScaleLayer.__init__,
    Torch.zeros, Torch.full.
  rewrite Z.div_1_r.
  rewrite !check_size_ok by (repeat constructor; assumption).
  destruct (upsample && fused_scale); cbn;
    destruct Hact as [-> | ->]; cbn; eauto.
Qed.

Lemma get_nf_nonneg (fmaps_base fmaps_max res_ : Z) :
  0 <= fmaps_base -> 0 <= fmaps_max -> 0 <= res_ ->
  0 <= PGGANGeneratorNet.get_nf fmaps_base fmaps_max res_.
Proof.
  intros Hb Hm Hr. unfold PGGANGeneratorNet.get_nf.
  apply Z.min_glb; [|assumption]. by apply Z_div_nonneg_nonneg.
Qed.

Lemma build_stage_ok (init_res_log2 final_res_log2 z_space_dim image_channels : Z)
    (fused_scale : bool) (fmaps_base fmaps_max : Z) st (res_log2 : Z) :
  0 <= z_space_dim -> 0 <= image_channels -> 0 <= fmaps_base -> 0 <= fmaps_max ->
  exists st',
    PGGANGeneratorNet.build_stage _INIT_RES init_res_log2 final_res_log2 z_space_dim
      image_channels fused_scale fmaps_base fmaps_max st res_log2 = Ok st'.
Proof.
  intros Hz Hi Hb Hm. unfold PGGANGeneratorNet.build_stage.
  destruct st as [mods mapping].
  assert (Hres : 0 <= 2 ^ res_log2) by (apply Z.pow_nonneg; lia).
  assert (Hhalf : 0 <= 2 ^ res_log2 / 2) by (apply Z_div_nonneg_nonneg; lia).
  pose proof (get_nf_nonneg fmaps_base fmaps_max _ Hb Hm Hres) as Hnf.
  pose proof (get_nf_nonneg fmaps_base fmaps_max _ Hb Hm Hhalf) as Hnf2.
  destruct (ConvBlock_init_ok z_space_dim
              (PGGANGeneratorNet.get_nf fmaps_base fmaps_max (2 ^ res_log2)) _INIT_RES 1 3 1
              false false false (R_sqrt.sqrt 2) "lrelu") as [b0 Hb0]; auto; [unfold _INIT_RES; lia|].
  destruct (ConvBlock_init_ok
              (PGGANGeneratorNet.get_nf fmaps_base fmaps_max (2 ^ res_log2 / 2))
              (PGGANGeneratorNet.get_nf fmaps_base fmaps_max (2 ^ res_log2)) 3 1 1 1
              false true fused_scale (R_sqrt.sqrt 2) "lrelu") as [b0' Hb0']; auto; [lia|].
  destruct (ConvBlock_init_ok
              (PGGANGeneratorNet.get_nf fmaps_base fmaps_max (2 ^ res_log2))
              (PGGANGeneratorNet.get_nf fmaps_base fmaps_max (2 ^ res_log2)) 3 1 1 1
              false false false (R_sqrt.sqrt 2) "lrelu") as [b1 Hb1]; auto; [lia|].
  destruct (ConvBlock_init_ok
              (PGGANGeneratorNet.get_nf fmaps_base fmaps_max (2 ^ res_log2))
              image_channels 1 1 0 1
              false false false 1%R "linear") as [bo Hbo]; auto; [lia|].
  rewrite Hb0, Hb0', Hb1, Hbo.
  destruct (2 ^ res_log2 =? _INIT_RES); cbn; eauto.
Qed.

Lemma res_foldM_ok {A B : Type} (f : A -> B -> res A) (l : list B) :
  (forall a x, exists a', f a x = Ok a') ->
  forall a, exists a', res_foldM f a l = Ok a'.
Proof.
  intros Hf. induction l as [|x l IH]; intros a; cbn; [eauto|].
  destruct (Hf a x) as [a' ->]. apply IH.
Qed.

Lemma allowed_existsb (resolution : Z) :
  existsb (Z.eqb resolution) _RESOLUTIONS_ALLOWED = true <-> allowed resolution.
Proof.
  unfold allowed. rewrite existsb_exists. split.
  - intros [x [Hin Heq]]. apply Z.eqb_eq in Heq. by subst.
  - intros H. exists resolution. split; [assumption|apply Z.eqb_refl].
Qed.

(** ** Tensors, entry by entry *)

(** Puts every tensor type in the form [list (... (tensor k))], so that
    rewriting sees one spelling. *)
Ltac norm_tensor :=
  repeat match goal with
    | |- context [tensor (S ?k)] => change (tensor (S k)) with (list (tensor k))
    | H : context [tensor (S ?k)] |- _ => change (tensor (S k)) with (list (tensor k)) in H
    | |- context [tensor O] => change (tensor O) with R
    | H : context [tensor O] |- _ => change (tensor O) with R in H
    end.

Lemma res_mapM_spec {A B : Type} (f : A -> res B) (l : list A) (P : nat -> A -> B -> Prop) :
  (forall i x, l !! i = Some x -> exists y, f x = Ok y /\ P i x y) ->
  exists ys, res_mapM f l = Ok ys /\ length ys = length l /\
             forall i x, l !! i = Some x -> exists y, ys !! i = Some y /\ P i x y.
Proof.
  revert P. induction l as [|a l IH]; intros P H; cbn.
  - exists []. repeat split. intros i x Hx. by destruct i.
  - destruct (H 0%nat a eq_refl) as (y & -> & Hy).
    destruct (IH (fun i => P (S i))) as (ys & -> & Hlen & Hys).
    { intros i x Hx. apply (H (S i)). exact Hx. }
    exists (y :: ys). split; [reflexivity|]. split; [cbn; lia|].
    intros [|i] x Hx; cbn in *.
    + injection Hx as <-. eauto.
    + apply Hys, Hx.
Qed.

Lemma has_shape_cons (k : nat) (d : nat) (s : list nat) (l : list (tensor k)) :
  has_shape (S k) (d :: s) l <-> length l = d /\ Forall (has_shape k s) l.
Proof. reflexivity. Qed.

Lemma has_shape_lookup (k : nat) (d : nat) (s : list nat) (l : list (tensor k)) (i : nat) :
  has_shape (S k) (d :: s) l -> (i < d)%nat ->
  exists t, l !! i = Some t /\ has_shape k s t.
Proof.
  intros [Hlen Hall]%has_shape_cons Hi.
  destruct (lookup_lt_is_Some_2 l i) as [t Ht]; [lia|].
  exists t. split; [assumption|]. rewrite Forall_lookup in Hall. eauto.
Qed.

Lemma has_shape_intro (k : nat) (d : nat) (s : list nat) (l : list (tensor k)) :
  length l = d ->
  (forall i t, l !! i = Some t -> has_shape k s t) ->
  has_shape (S k) (d :: s) l.
Proof.
  intros Hlen H. apply has_shape_cons. split; [assumption|]. apply Forall_lookup. exact H.
Qed.

Lemma lookup_map {A B : Type} (f : A -> B) (l : list A) (i : nat) :
  map f l !! i = f <$> l !! i.
Proof. exact (list_lookup_fmap f l i). Qed.

Lemma lookup_map_Some {A B : Type} (f : A -> B) (l : list A) (i : nat) (y : B) :
  map f l !! i = Some y -> exists x, l !! i = Some x /\ y = f x.
Proof.
  intros H. apply (proj1 (list_lookup_fmap_Some f l i y)) in H as (x & -> & Hx). eauto.
Qed.

Lemma tmap_shape (g : R -> R) (n : nat) (s : list nat) (t : tensor n) :
  has_shape n s t -> has_shape n s (tmap g n t).
Proof.
  revert s t. induction n as [|k IH]; intros [|d s] t; cbn; try tauto.
  intros [Hlen Hall]. split; [by rewrite length_map|].
  apply Forall_map. eapply Forall_impl; [exact Hall|]. intros x Hx. by apply IH.
Qed.

Lemma tmap_get (g : R -> R) (n : nat) (s idx : list nat) (t : tensor n) :
  has_shape n s t -> in_range idx s ->
  get n idx (tmap g n t) = g (get n idx t).
Proof.
  revert s idx t. induction n as [|k IH]; intros s idx t Hs Hr; [reflexivity|].
  destruct Hr as [|i d idx' s' Hi Hr']; [destruct Hs|].
  destruct (has_shape_lookup k d s' t i Hs Hi) as (x & Hx & Hxs).
  cbn. rewrite lookup_map, Hx. cbn. by eapply IH.
Qed.

Lemma clip_lt (d i : nat) : (i < d)%nat -> (if (d =? 1)%nat then 0%nat else i) = i.
Proof. intros H. destruct (Nat.eqb_spec d 1); lia. Qed.

Lemma bdim_same (d : nat) : bdim d d = d.
Proof. unfold bdim. by rewrite Nat.eqb_refl. Qed.

Lemma bdim_one_r (d : nat) : bdim d 1 = d.
Proof. unfold bdim. destruct (Nat.eqb_spec d 1); [done|]. by destruct (d =? 1)%nat. Qed.

Lemma bdim_one_l (d : nat) : bdim 1 d = d.
Proof. unfold bdim. destruct (Nat.eqb_spec 1 d); [done|]. reflexivity. Qed.

Lemma bshape_cons (da db : nat) (sa sb : list nat) :
  bshape (da :: sa) (db :: sb) = bdim da db :: bshape sa sb.
Proof. reflexivity. Qed.

Lemma clip_cons (d i : nat) (s idx : list nat) :
  clip (d :: s) (i :: idx) = (if (d =? 1)%nat then 0%nat else i) :: clip s idx.
Proof. reflexivity. Qed.

Lemma get_cons (k : nat) (i : nat) (idx : list nat) (l : list (tensor k)) :
  get (S k) (i :: idx) l = match l !! i with Some t => get k idx t | None => 0%R end.
Proof. reflexivity. Qed.

Lemma in_range_cons_inv (idx : list nat) (d : nat) (s : list nat) :
  in_range idx (d :: s) ->
  exists i idx', idx = i :: idx' /\ (i < d)%nat /\ in_range idx' s.
Proof. intros H. inversion H; subst. eauto. Qed.

(** Broadcasting, entry by entry. *)
Lemma bop_spec (f : R -> R -> R) (n : nat) (sa sb : list nat) (a b : tensor n) :
  has_shape n sa a -> has_shape n sb b -> compat sa sb ->
  exists c, bop f n a b = Ok c /\ has_shape n (bshape sa sb) c /\
            forall idx, in_range idx (bshape sa sb) ->
                        get n idx c = f (get n (clip sa idx) a) (get n (clip sb idx) b).
Proof.
  revert sa sb a b. induction n as [|k IH]; intros sa sb a b Ha Hb Hc.
  - destruct sa, sb; try (by destruct Ha); try (by destruct Hb).
    exists (f a b). split; [reflexivity|]. split; [exact I|]. reflexivity.
  - destruct Hc as [|da db sa' sb' Hd Hc']; [destruct Ha|].
    revert a b Ha Hb. change (tensor (S k)) with (list (tensor k)). intros a b Ha Hb.
    pose proof (proj1 (has_shape_cons _ _ _ _) Ha) as [Hla Hfa].
    pose proof (proj1 (has_shape_cons _ _ _ _) Hb) as [Hlb Hfb].
    cbn [bop]. unfold bcast2. rewrite bshape_cons.
    destruct (Nat.eqb_spec (length a) (length b)) as [Heq|Hne].
    + (* equal extents *)
      assert (Hdd : da = db) by congruence. clear Hd. revert Hb Hlb. rewrite <- Hdd.
      clear Hdd db. intros Hb Hlb. rewrite bdim_same.
      destruct (res_mapM_spec (fun p => bop f k p.1 p.2) (combine a b)
                  (fun i p c => has_shape k (bshape sa' sb') c /\
                     forall idx, in_range idx (bshape sa' sb') ->
                       get k idx c = f (get k (clip sa' idx) p.1) (get k (clip sb' idx) p.2)))
        as (cs & Hcs & Hlen & Hget).
      { intros i [x y] Hxy. cbn [fst snd].
        change (combine a b) with (zip a b) in Hxy.
        apply lookup_zip_with_Some in Hxy as (x' & y' & [= <- <-] & Hx & Hy).
        rewrite Forall_lookup in Hfa. rewrite Forall_lookup in Hfb.
        apply (IH sa' sb'); eauto. }
      exists cs. split; [exact Hcs|].
      assert (Hlc : length cs = da).
      { rewrite Hlen, length_combine. lia. }
      split.
      * apply has_shape_intro; [exact Hlc|]. intros i c Hi.
        destruct (lookup_lt_is_Some_2 (combine a b) i) as [p Hp].
        { rewrite <- Hlen. by eapply lookup_lt_Some. }
        destruct (Hget i p Hp) as (c' & Hc1 & Hc2 & _). congruence.
      * intros idx Hr. apply in_range_cons_inv in Hr as (i & idx' & -> & Hi & Hr').
        destruct (has_shape_lookup k _ _ a i Ha Hi) as (x & Hx & _).
        destruct (has_shape_lookup k _ _ b i Hb Hi) as (y & Hy & _).
        assert (Hp : combine a b !! i = Some (x, y)).
        { change (combine a b) with (zip a b).
          apply lookup_zip_with_Some. eauto. }
        destruct (Hget i _ Hp) as (c & Hc1 & _ & Hc3).
        rewrite !clip_cons, !get_cons, Hc1, !clip_lt, Hx, Hy by assumption.
        apply Hc3, Hr'.
    + assert (Hdd : da <> db) by congruence.
      destruct Hd as [Hd|[Hd|Hd]]; [contradiction| |].
      * (* the left extent is one *)
        subst da. destruct a as [|x [|? ?]]; try discriminate Hla.
        assert (Hxs : has_shape k sa' x) by (by inversion Hfa).
        rewrite bdim_one_l.
        destruct (res_mapM_spec (bop f k x) b
                    (fun i y c => has_shape k (bshape sa' sb') c /\
                       forall idx, in_range idx (bshape sa' sb') ->
                         get k idx c = f (get k (clip sa' idx) x) (get k (clip sb' idx) y)))
          as (cs & Hcs & Hlen & Hget).
        { intros i y Hy. rewrite Forall_lookup in Hfb. apply (IH sa' sb'); eauto. }
        exists cs. split; [exact Hcs|]. split.
        -- apply has_shape_intro; [lia|]. intros i c Hi.
           destruct (lookup_lt_is_Some_2 b i) as [y Hy].
           { rewrite <- Hlen. by eapply lookup_lt_Some. }
           destruct (Hget i y Hy) as (c' & Hc1 & Hc2 & _). congruence.
        -- intros idx Hr. apply in_range_cons_inv in Hr as (i & idx' & -> & Hi & Hr').
           destruct (has_shape_lookup k _ _ b i Hb Hi) as (y & Hy & _).
           destruct (Hget i _ Hy) as (c & Hc1 & _ & Hc3).
           rewrite !clip_cons, !get_cons, Hc1. cbn [Nat.eqb lookup list_lookup].
           destruct (Nat.eqb_spec db 1) as [->|_]; [done|].
           rewrite Hy. apply Hc3, Hr'.
      * (* the right extent is one *)
        subst db. destruct b as [|y [|? ?]]; try discriminate Hlb.
        assert (Hys : has_shape k sb' y) by (by inversion Hfb).
        rewrite bdim_one_r.
        destruct (res_mapM_spec (fun x => bop f k x y) a
                    (fun i x c => has_shape k (bshape sa' sb') c /\
                       forall idx, in_range idx (bshape sa' sb') ->
                         get k idx c = f (get k (clip sa' idx) x) (get k (clip sb' idx) y)))
          as (cs & Hcs & Hlen & Hget).
        { intros i x Hx. rewrite Forall_lookup in Hfa. apply (IH sa' sb'); eauto. }
        exists cs. split.
        { destruct a as [|x1 [|x2 a]]; [exact Hcs| cbn in Hla; lia | exact Hcs]. }
        split.
        -- apply has_shape_intro; [lia|]. intros i c Hi.
           destruct (lookup_lt_is_Some_2 a i) as [x Hx].
           { rewrite <- Hlen. by eapply lookup_lt_Some. }
           destruct (Hget i x Hx) as (c' & Hc1 & Hc2 & _). congruence.
        -- intros idx Hr. apply in_range_cons_inv in Hr as (i & idx' & -> & Hi & Hr').
           destruct (has_shape_lookup k _ _ a i Ha Hi) as (x & Hx & _).
           destruct (Hget i _ Hx) as (c & Hc1 & _ & Hc3).
           rewrite !clip_cons, !get_cons, Hc1. cbn [Nat.eqb lookup list_lookup].
           destruct (Nat.eqb_spec da 1) as [->|_]; [done|].
           rewrite Hx. apply Hc3, Hr'.
Qed.

Lemma compat_refl (s : list nat) : compat s s.
Proof. induction s; constructor; auto. Qed.

Lemma bshape_same (s : list nat) : bshape s s = s.
Proof. induction s as [|d s IH]; [reflexivity|]. by rewrite bshape_cons, bdim_same, IH. Qed.

Lemma clip_in_range (s idx : list nat) : in_range idx s -> clip s idx = idx.
Proof.
  intros H. induction H as [|i d idx s Hi H IH]; [reflexivity|].
  by rewrite clip_cons, clip_lt, IH.
Qed.

(** Two tensors of one shape combine entry by entry. *)
Lemma bop_same_shape (f : R -> R -> R) (n : nat) (s : list nat) (a b : tensor n) :
  has_shape n s a -> has_shape n s b ->
  exists c, bop f n a b = Ok c /\ has_shape n s c /\
            forall idx, in_range idx s -> get n idx c = f (get n idx a) (get n idx b).
Proof.
  intros Ha Hb.
  destruct (bop_spec f n s s a b Ha Hb (compat_refl s)) as (c & Hc & Hs & Hg).
  rewrite bshape_same in Hs, Hg. exists c. split; [assumption|]. split; [assumption|].
  intros idx Hr. rewrite (Hg idx Hr), clip_in_range by assumption. reflexivity.
Qed.

Lemma foldM_add_spec (k : nat) (s : list nat) (rest : list (tensor k)) (acc : tensor k) :
  has_shape k s acc -> Forall (has_shape k s) rest ->
  exists t, res_foldM (bop Rplus k) acc rest = Ok t /\ has_shape k s t /\
            forall idx, in_range idx s ->
                        get k idx t = (get k idx acc + Rsum (map (get k idx) rest))%R.
Proof.
  revert acc. induction rest as [|x rest IH]; intros acc Hacc Hall.
  - exists acc. split; [reflexivity|]. split; [assumption|]. intros idx _. unfold Rsum. cbn [map fold_right]. lra.
  - apply Forall_cons in Hall as [Hx Hall].
    destruct (bop_same_shape Rplus k s acc x Hacc Hx) as (c & Hc & Hcs & Hcg).
    destruct (IH c Hcs Hall) as (t & Ht & Hts & Htg).
    exists t. cbn [res_foldM]. rewrite Hc. split; [assumption|]. split; [assumption|].
    intros idx Hr. rewrite (Htg idx Hr), (Hcg idx Hr). unfold Rsum. cbn [map fold_right]. lra.
Qed.

Lemma tsum_spec (k : nat) (s : list nat) (row : list (tensor k)) :
  row <> [] -> Forall (has_shape k s) row ->
  exists t, tsum k row = Ok t /\ has_shape k s t /\
            forall idx, in_range idx s -> get k idx t = Rsum (map (get k idx) row).
Proof.
  intros Hne Hall. destruct row as [|x rest]; [contradiction|].
  apply Forall_cons in Hall as [Hx Hall]. apply (foldM_add_spec k s rest x Hx Hall).
Qed.

Lemma Rsum_map_seq {A : Type} (f : A -> R) (g : nat -> R) (l : list A) :
  (forall i x, l !! i = Some x -> f x = g i) ->
  Rsum (map f l) = sum_over (length l) g.
Proof.
  intros H. unfold sum_over. f_equal. apply list_eq. intros i.
  rewrite !lookup_map. destruct (l !! i) as [x|] eqn:E; cbn.
  - rewrite lookup_seq_lt by (by eapply lookup_lt_Some). cbn. f_equal. by apply H.
  - rewrite lookup_ge_None_2; [done|]. rewrite length_seq. by apply lookup_ge_None.
Qed.

Lemma tmap_cons (g : R -> R) (k : nat) (l : list (tensor k)) :
  tmap g (S k) l = map (tmap g k) l.
Proof. reflexivity. Qed.

Lemma cast_refl (n : nat) (t : tensor n) : cast n n t = Some t.
Proof.
  unfold cast. destruct (Nat.eq_dec n n) as [e|ne]; [|contradiction].
  by rewrite (UIP_refl_nat n e).
Qed.

Lemma binop_same_rank (f : R -> R -> R) (n : nat) (x y : tensor n) :
  binop f (mk n x) (mk n y) = (c ← bop f n x y; Ok (mk n c)).
Proof.
  unfold binop, mk. rewrite Nat.max_id, Nat.sub_diag.
  cbn [unsqueeze_front Nat.add]. by rewrite !cast_refl.
Qed.

Lemma mean_dim1_spec (k : nat) (s : list nat) (x : list (list (tensor k))) (B C : nat) :
  has_shape (S (S k)) (B :: C :: s) x -> (0 < C)%nat ->
  exists m : list (list (tensor k)),
    mean_dim1_n (S (S k)) (tmap (fun v => v ^ 2)%R (S (S k)) x) = Ok (mk (S (S k)) m) /\
    has_shape (S (S k)) (B :: 1%nat :: s) m /\
    forall b pos, (b < B)%nat -> in_range pos s ->
      get (S (S k)) (b :: 0%nat :: pos) m = mean_square k x C b pos.
Proof.
  intros Hx HC.
  pose proof (proj1 (has_shape_cons (S k) B (C :: s) x) Hx) as [HB Hrows].
  rewrite Forall_lookup in Hrows.
  destruct (res_mapM_spec
              (fun row : list (tensor k) =>
                 s ← tsum k row; Ok [tmap (fun v => v / INR (length row))%R k s])
              (map (tmap (fun v => v ^ 2)%R (S k)) x)
              (fun b row m =>
                 has_shape (S k) (1%nat :: s) m /\
                 forall pos, in_range pos s ->
                   get (S k) (0%nat :: pos) m = mean_square k x C b pos))
    as (ms & Hms & Hlen & Hget).
  { intros b row Hrow. apply lookup_map_Some in Hrow as (xb & Exb & ->).
    pose proof (proj1 (has_shape_cons k C s xb) (Hrows b xb Exb)) as [HCl Hxb].
    rewrite Forall_lookup in Hxb. rewrite tmap_cons.
    destruct (tsum_spec k s (map (tmap (fun v => v ^ 2)%R k) xb)) as (t & Ht & Hts & Htg).
    { destruct xb; [cbn in HCl; lia|discriminate]. }
    { apply Forall_lookup. intros c sq Hsq.
      apply lookup_map_Some in Hsq as (xc & Exc & ->).
      apply tmap_shape. eauto. }
    rewrite Ht. eexists. split; [reflexivity|]. split.
    - apply has_shape_cons. split; [reflexivity|]. constructor; [|constructor].
      by apply tmap_shape.
    - intros pos Hpos. rewrite get_cons. cbn [lookup list_lookup].
      rewrite (tmap_get _ k s pos t Hts Hpos), (Htg pos Hpos).
      rewrite length_map, HCl. unfold mean_square. f_equal.
      rewrite <- HCl. rewrite <- (length_map (tmap (fun v => v ^ 2)%R k) xb).
      apply Rsum_map_seq. intros c sq Hsq.
      apply lookup_map_Some in Hsq as (xc & Exc & ->).
      rewrite (tmap_get _ k s pos xc (Hxb c xc Exc) Hpos).
      by rewrite (get_cons (S k)), Exb, (get_cons k), Exc. }
  exists ms. split.
  { change (mean_dim1_n (S (S k)) (tmap (fun v => v ^ 2)%R (S (S k)) x))
      with (res_mapM
              (fun row : list (tensor k) =>
                 s ← tsum k row; Ok [tmap (fun v => v / INR (length row))%R k s])
              (map (tmap (fun v => v ^ 2)%R (S k)) x)
            ≫= fun rows => Ok (mk (S (S k)) rows)).
    norm_tensor. rewrite Hms. reflexivity. }
  split.
  - apply has_shape_intro; [by rewrite Hlen, length_map|].
    intros b m Hm.
    destruct (lookup_lt_is_Some_2 (map (tmap (fun v => v ^ 2)%R (S k)) x) b) as [row Hrow].
    { norm_tensor. rewrite <- Hlen. by eapply lookup_lt_Some. }
    destruct (Hget b row Hrow) as (m' & Hm' & Hs' & _). norm_tensor. congruence.
  - intros b pos Hb Hpos.
    destruct (lookup_lt_is_Some_2 (map (tmap (fun v => v ^ 2)%R (S k)) x) b) as [row Hrow].
    { rewrite length_map. lia. }
    destruct (Hget b row Hrow) as (m' & Hm' & _ & Hg').
    rewrite (get_cons (S k)), Hm'. by apply Hg'.
Qed.

Lemma PixelNormLayer_forward_unfold (self : PixelNormLayer.t) (n : nat) (x : tensor n) :
  PixelNormLayer.forward self (mk n x)
  = (m ← mean_dim1_n n (tmap (fun v => v ^ 2)%R n x);
     Torch.div (mk n x) (Torch.sqrt (add_scalar m (PixelNormLayer.eps self)))).
Proof. reflexivity. Qed.

(** What the normalisation computes, entry by entry, at any rank. *)
Lemma PixelNormLayer_forward_spec (self : PixelNormLayer.t) (k : nat) (s : list nat)
    (x : list (list (tensor k))) (B C : nat) :
  has_shape (S (S k)) (B :: C :: s) x -> (0 < C)%nat ->
  exists y : list (list (tensor k)),
    PixelNormLayer.forward self (mk (S (S k)) x) = Ok (mk (S (S k)) y) /\
    has_shape (S (S k)) (B :: C :: s) y /\
    forall b c pos, (b < B)%nat -> (c < C)%nat -> in_range pos s ->
      get (S (S k)) (b :: c :: pos) y
      = (get (S (S k)) (b :: c :: pos) x
         / R_sqrt.sqrt (mean_square k x C b pos + PixelNormLayer.eps self))%R.
Proof.
  intros Hx HC.
  destruct (mean_dim1_spec k s x B C Hx HC) as (m & Hm & Hms & Hmg).
  rewrite PixelNormLayer_forward_unfold, Hm.
  change (Ok (mk (S (S k)) m) ≫= _)
    with (binop Rdiv (mk (S (S k)) x)
            (mk (S (S k))
               (tmap R_sqrt.sqrt (S (S k))
                  (tmap (fun v => v + PixelNormLayer.eps self)%R (S (S k)) m)))).
  rewrite binop_same_rank.
  set (nrm := tmap R_sqrt.sqrt (S (S k))
                (tmap (fun v => v + PixelNormLayer.eps self)%R (S (S k)) m)).
  assert (Hnrm : has_shape (S (S k)) (B :: 1%nat :: s) nrm) by (by do 2 apply tmap_shape).
  destruct (bop_spec Rdiv (S (S k)) (B :: C :: s) (B :: 1%nat :: s) x nrm Hx Hnrm)
    as (y & Hy & Hys & Hyg).
  { constructor; [by left|]. constructor; [by right; right|]. apply compat_refl. }
  rewrite !bshape_cons, bdim_same, bdim_one_r, bshape_same in Hys, Hyg.
  exists y. rewrite Hy. split; [reflexivity|]. split; [exact Hys|].
  intros b c pos Hb Hc Hpos.
  rewrite Hyg by (constructor; [assumption|]; constructor; assumption).
  rewrite !clip_cons, !clip_lt, (clip_in_range s pos Hpos) by assumption.
  cbn [Nat.eqb]. f_equal. unfold nrm.
  assert (Hr : in_range (b :: 0%nat :: pos) (B :: 1%nat :: s)).
  { constructor; [assumption|]. constructor; [lia|assumption]. }
  rewrite (tmap_get _ _ (B :: 1%nat :: s) _ _ (tmap_shape _ _ _ _ Hms) Hr).
  rewrite (tmap_get _ _ (B :: 1%nat :: s) _ _ Hms Hr).
  by rewrite Hmg.
Qed.

(** ** The multi-code wrapper *)

Lemma getitem_nat {A : Type} (l : list A) (j : nat) (x : A) :
  l !! j = Some x -> Py.getitem l (Z.of_nat j) = Ok x.
Proof.
  intros H. pose proof (lookup_lt_Some _ _ _ H) as Hlt.
  unfold Py.getitem.
  destruct (Z.ltb_spec (Z.of_nat j) 0) as [?|_]; [lia|].
  destruct (Z.ltb_spec (Z.of_nat j) 0) as [?|_]; [lia|].
  destruct (Z.leb_spec (Z.of_nat (length l)) (Z.of_nat j)) as [?|_]; [lia|].
  cbn [orb]. by rewrite Nat2Z.id, H.
Qed.

Lemma res_mapM_map {A B : Type} (f : A -> res B) (g : A -> B) (l : list A) :
  (forall i x, l !! i = Some x -> f x = Ok (g x)) ->
  res_mapM f l = Ok (map g l).
Proof.
  induction l as [|a l IH]; intros H; [reflexivity|].
  cbn [res_mapM map]. rewrite (H 0%nat a eq_refl), IH; [reflexivity|].
  intros i x Hx. apply (H (S i)). exact Hx.
Qed.

Lemma select1_spec (z : list (list (list R))) (B Zn D j : nat) :
  has_shape 3 [B; Zn; D] z -> (j < Zn)%nat ->
  Torch.select1 (Z.of_nat j) (mk 3 z) = Ok (mk 2 (slice1 j z)) /\
  has_shape 2 [B; D] (slice1 j z) /\
  forall b d, (b < B)%nat -> get 2 [b; d] (slice1 j z) = get 3 [b; j; d] z.
Proof.
  intros Hz Hj.
  pose proof (proj1 (has_shape_cons 2 B [Zn; D] z) Hz) as [HB Hrows].
  rewrite Forall_lookup in Hrows.
  assert (Hrow : forall b zb, z !! b = Some zb ->
            exists r, zb !! j = Some r /\ has_shape 1 [D] r).
  { intros b zb Hzb. apply (has_shape_lookup 1 Zn [D] zb j); eauto. }
  split; [|split].
  - change (Torch.select1 (Z.of_nat j) (mk 3 z))
      with (res_mapM (fun row : list (list R) => Py.getitem row (Z.of_nat j)) z
            ≫= fun rows => Ok (mk 2 rows)).
    rewrite (res_mapM_map _ (fun zb : list (list R) => default [] (zb !! j))); [reflexivity|].
    intros b zb Hzb. destruct (Hrow b zb Hzb) as (r & Hr & _). norm_tensor.
    rewrite Hr. by apply getitem_nat.
  - apply has_shape_intro; [unfold slice1; by rewrite length_map|].
    intros b r Hr. apply lookup_map_Some in Hr as (zb & Hzb & ->).
    destruct (Hrow b zb Hzb) as (r & Hr & Hrs). norm_tensor. rewrite Hr. exact Hrs.
  - intros b d Hb.
    destruct (lookup_lt_is_Some_2 z b) as [zb Hzb]; [norm_tensor; lia|].
    destruct (Hrow b zb Hzb) as (r & Hr & _).
    rewrite (get_cons 1). unfold slice1. rewrite lookup_map. norm_tensor.
    rewrite Hzb. cbn [fmap option_fmap option_map]. rewrite Hr. cbn [default].
    rewrite (get_cons 2). norm_tensor. rewrite Hzb. rewrite (get_cons 1). norm_tensor.
    by rewrite Hr.
Qed.

Lemma flatten_matrix (s : list (list R)) : flatten 2 s = concat s.
Proof.
  change (flatten 2 s) with (concat (map (fun row : list R => concat (map (fun x : R => [x]) row)) s)).
  f_equal. rewrite <- (map_id s) at 2. apply map_ext. intros row.
  induction row as [|x row IH]; [reflexivity|]. cbn. by rewrite IH.
Qed.

Lemma chunks_aux_concat (d : nat) (s : list (list R)) :
  (0 < d)%nat -> Forall (fun r => length r = d) s ->
  forall fuel, (length (concat s) <= fuel)%nat -> chunks_aux fuel d (concat s) = s.
Proof.
  intros Hd Hs. induction Hs as [|r s Hr Hs IH]; intros fuel Hfuel.
  - destruct fuel; reflexivity.
  - cbn [concat] in *. rewrite length_app in Hfuel.
    destruct fuel as [|fuel]; [lia|]. cbn [chunks_aux].
    destruct (r ++ concat s) as [|x l] eqn:E.
    { apply (f_equal length) in E. rewrite length_app in E. cbn in E. lia. }
    rewrite <- E. clear E x l.
    rewrite <- Hr at 1 3.
    rewrite firstn_app, Nat.sub_diag, firstn_all, firstn_O, app_nil_r.
    rewrite skipn_app, Nat.sub_diag, skipn_all, skipn_O. cbn [app].
    f_equal. apply IH. lia.
Qed.

Lemma length_concat_uniform (d : nat) (s : list (list R)) :
  Forall (fun r => length r = d) s -> length (concat s) = (length s * d)%nat.
Proof.
  intros Hs. induction Hs as [|r s Hr Hs IH]; [reflexivity|].
  cbn [concat length]. rewrite length_app, IH, Hr. lia.
Qed.

Lemma has_shape_matrix (s : list (list R)) (B D : nat) :
  has_shape 2 [B; D] s <-> length s = B /\ Forall (fun r => length r = D) s.
Proof.
  rewrite (has_shape_cons 1 B [D] s). apply and_iff_compat_l.
  split; intros H; eapply Forall_impl; try exact H; intros r Hr.
  - by destruct (proj1 (has_shape_cons 0 D [] r) Hr) as [? _].
  - apply (has_shape_cons 0 D [] r). split; [assumption|].
    apply Forall_forall. intros; exact I.
Qed.

Lemma view_spec (s : list (list R)) (B D : nat) :
  has_shape 2 [B; D] s -> (0 < D)%nat ->
  Torch.view_m1_d_1_1 (Z.of_nat D) (mk 2 s) = Ok (mk 4 (as_1x1 s)) /\
  has_shape 4 [B; D; 1; 1]%nat (as_1x1 s) /\
  forall b d, get 4 [b; d; 0; 0]%nat (as_1x1 s) = get 2 [b; d] s.
Proof.
  intros Hs HD. apply has_shape_matrix in Hs as [HB Hrows].
  split; [|split].
  - unfold view_m1_d_1_1, mk. rewrite flatten_matrix.
    destruct (Z.leb_spec (Z.of_nat D) 0) as [?|_]; [lia|].
    rewrite (length_concat_uniform D s Hrows), Nat2Z.inj_mul, Z_mod_mult.
    cbn [Z.eqb]. unfold chunks. rewrite Nat2Z.id.
    by rewrite (chunks_aux_concat D s HD Hrows).
  - apply has_shape_intro; [unfold as_1x1; by rewrite length_map|].
    intros b r Hr. apply lookup_map_Some in Hr as (row & Hrow & ->).
    apply has_shape_intro.
    { rewrite length_map. rewrite Forall_lookup in Hrows. eauto. }
    intros d e He. apply lookup_map_Some in He as (v & Hv & ->).
    cbn. repeat constructor.
  - intros b d. unfold as_1x1.
    rewrite (get_cons 3), (get_cons 1), !lookup_map. norm_tensor.
    destruct (s !! b) as [row|]; [|reflexivity]. cbn [fmap option_fmap option_map].
    rewrite (get_cons 2), (get_cons 0), lookup_map. norm_tensor.
    destruct (row !! d) as [v|]; reflexivity.
Qed.

Lemma in_range4 (b c h w B C H W : nat) :
  (b < B)%nat -> (c < C)%nat -> (h < H)%nat -> (w < W)%nat ->
  in_range [b; c; h; w] [B; C; H; W].
Proof. intros. repeat constructor; assumption. Qed.

Lemma weighted_feature_map_spec (self : PGGAN_multi_z.t)
    (z alpha : list (list (list R))) (Fj : tensor 4) (B Zn D C H W j : nat) :
  PGGAN_multi_z.z_dim self = Z.of_nat D -> (0 < D)%nat ->
  PGGAN_multi_z.layer_c_number self = Z.of_nat C -> (0 < C)%nat ->
  has_shape 3 [B; Zn; D] z -> has_shape 3 [B; Zn; C] alpha -> (j < Zn)%nat ->
  Sequential (PGGAN_multi_z.pre_model self) (PyTensor (mk 4 (code_input z j)))
    = Ok (PyTensor (mk 4 Fj)) ->
  has_shape 4 [B; C; H; W] Fj ->
  exists wj : tensor 4,
    PGGAN_multi_z.weighted_feature_map self (PyTensor (mk 3 z)) (PyTensor (mk 3 alpha))
      (Z.of_nat j) = Ok (PyTensor (mk 4 wj)) /\
    has_shape 4 [B; C; H; W] wj /\
    forall b c h w, (b < B)%nat -> (c < C)%nat -> (h < H)%nat -> (w < W)%nat ->
      get 4 [b; c; h; w] wj = (get 4 [b; c; h; w] Fj * get 3 [b; j; c] alpha)%R.
Proof.
  intros HD HDpos HC HCpos Hz Ha Hj Hpre HF.
  destruct (select1_spec z B Zn D j Hz Hj) as (Hsz & Hszs & _).
  destruct (view_spec (slice1 j z) B D Hszs HDpos) as (Hvz & _ & _).
  destruct (select1_spec alpha B Zn C j Ha Hj) as (Hsa & Hsas & Hsag).
  destruct (view_spec (slice1 j alpha) B C Hsas HCpos) as (Hva & Hvas & Hvag).
  destruct (bop_spec Rmult 4 [B; C; H; W] [B; C; 1; 1]%nat Fj (as_1x1 (slice1 j alpha)) HF Hvas)
    as (wj & Hw & Hws & Hwg).
  { constructor; [by left|]. constructor; [by left|]. constructor; [by right; right|].
    constructor; [by right; right|]. constructor. }
  rewrite !bshape_cons, !bdim_same, !bdim_one_r in Hws, Hwg.
  change (bshape [] []) with (@nil nat) in Hws, Hwg.
  exists wj. split; [|split; [exact Hws|]].
  - unfold PGGAN_multi_z.weighted_feature_map, PyOps.select1, PyOps.view_m1_d_1_1.
    rewrite Hsz. cbn [mbind res_bind]. rewrite HD, Hvz. cbn [mbind res_bind].
    fold (code_input z j). rewrite Hpre. cbn [mbind res_bind].
    rewrite Hsa. cbn [mbind res_bind]. rewrite HC, Hva. cbn [mbind res_bind].
    unfold PyOps.mul, PyOps.arith. rewrite binop_same_rank, Hw. reflexivity.
  - intros b c h w Hb Hc Hh Hw'.
    rewrite (Hwg _ (in_range4 b c h w B C H W Hb Hc Hh Hw')).
    rewrite (clip_in_range _ _ (in_range4 b c h w B C H W Hb Hc Hh Hw')).
    rewrite !clip_cons, !clip_lt by assumption. cbn [Nat.eqb clip zip_with].
    by rewrite Hvag, Hsag.
Qed.

Lemma sum_over_S (n : nat) (f : nat -> R) :
  sum_over (S n) f = (f 0%nat + sum_over n (fun i => f (S i)))%R.
Proof.
  unfold sum_over, Rsum. cbn [seq map fold_right]. f_equal.
  rewrite <- seq_shift, map_map. reflexivity.
Qed.

Lemma sum_over_ext (n : nat) (f g : nat -> R) :
  (forall i, (i < n)%nat -> f i = g i) -> sum_over n f = sum_over n g.
Proof.
  intros H. unfold sum_over. f_equal. apply map_ext_in. intros i Hi.
  apply in_seq in Hi. apply H. lia.
Qed.

(** Python's [+] folded over tensors of one shape. *)
Lemma foldM_add_tensors (n : nat) (s : list nat) (ys : list pyval)
    (g : nat -> list nat -> R) (acc : tensor n) :
  has_shape n s acc ->
  (forall i y, ys !! i = Some y ->
     exists w : tensor n, y = PyTensor (mk n w) /\ has_shape n s w /\
       forall idx, in_range idx s -> get n idx w = g i idx) ->
  exists t : tensor n,
    res_foldM PyOps.add (PyTensor (mk n acc)) ys = Ok (PyTensor (mk n t)) /\
    has_shape n s t /\
    forall idx, in_range idx s ->
      get n idx t = (get n idx acc + sum_over (length ys) (fun i => g i idx))%R.
Proof.
  revert g acc. induction ys as [|y ys IH]; intros g acc Hacc Hys.
  - exists acc. split; [reflexivity|]. split; [assumption|].
    intros idx _. unfold sum_over, Rsum. cbn [length seq map fold_right]. lra.
  - destruct (Hys 0%nat y eq_refl) as (w & -> & Hws & Hwg).
    destruct (bop_same_shape Rplus n s acc w Hacc Hws) as (c & Hc & Hcs & Hcg).
    destruct (IH (fun i => g (S i)) c Hcs) as (t & Ht & Hts & Htg).
    { intros i y' Hy'. apply (Hys (S i)). exact Hy'. }
    exists t. split; [|split; [exact Hts|]].
    + cbn [res_foldM]. unfold PyOps.add at 1, PyOps.arith.
      change (PyTensor (mk n acc)) with (PyTensor (existT n acc)).
      change (PyTensor (mk n w)) with (PyTensor (existT n w)). cbv iota beta.
      change (existT n acc) with (mk n acc). change (existT n w) with (mk n w).
      rewrite binop_same_rank, Hc. exact Ht.
    + intros idx Hr. cbn [length]. rewrite sum_over_S, (Htg idx Hr), (Hcg idx Hr), (Hwg idx Hr).
      lra.
Qed.

(** [sum] of at least one tensor, all of one shape. *)
Lemma sum_tensors (n : nat) (s : list nat) (ys : list pyval) (g : nat -> list nat -> R) :
  ys <> [] ->
  (forall i y, ys !! i = Some y ->
     exists w : tensor n, y = PyTensor (mk n w) /\ has_shape n s w /\
       forall idx, in_range idx s -> get n idx w = g i idx) ->
  exists t : tensor n,
    PyOps.sum ys = Ok (PyTensor (mk n t)) /\ has_shape n s t /\
    forall idx, in_range idx s -> get n idx t = sum_over (length ys) (fun i => g i idx).
Proof.
  intros Hne Hys. destruct ys as [|y ys]; [contradiction|].
  destruct (Hys 0%nat y eq_refl) as (w & -> & Hws & Hwg).
  destruct (foldM_add_tensors n s ys (fun i => g (S i)) (tmap (Rplus 0) n w))
    as (t & Ht & Hts & Htg).
  { by apply tmap_shape. }
  { intros i y' Hy'. apply (Hys (S i)). exact Hy'. }
  exists t. split; [exact Ht|]. split; [exact Hts|].
  intros idx Hr. cbn [length].
  rewrite sum_over_S, (Htg idx Hr), (tmap_get _ n s idx w Hws Hr), (Hwg idx Hr). lra.
Qed.

Lemma getitem_In {A : Type} (l : list A) (i : Z) (x : A) :
  Py.getitem l i = Ok x -> In x l.
Proof.
  unfold Py.getitem. destruct (_ || _); [discriminate|].
  destruct (l !! _) as [y|] eqn:E; [|discriminate].
  intros [= <-]. apply list_elem_of_In. by eapply list_elem_of_lookup_2.
Qed.

Lemma PGGAN_multi_z_init_inv (get_gan_model : gan_utils) (gan_model_name : string)
    (blending_layer z_number : Z) (args : args_t) (self : PGGAN_multi_z.t) :
  PGGAN_multi_z.__init__ get_gan_model gan_model_name blending_layer z_number args = Ok self ->
  PGGAN_multi_z.z_number self = z_number /\
  PGGAN_multi_z.z_dim self = 512 /\
  PGGAN_multi_z.init self = true /\
  0 < PGGAN_multi_z.layer_c_number self.
Proof.
  unfold PGGAN_multi_z.__init__. destruct (get_gan_model gan_model_name) as [g|]; [|discriminate].
  cbn [mbind res_bind].
  destruct (Py.getitem _ blending_layer) as [[[c h] w]|] eqn:E; [|discriminate].
  cbn [mbind res_bind]. intros [= <-]. cbn. repeat split; try reflexivity.
  apply getitem_In in E.
  destruct (gan_model_name =? "PGGAN-CelebA")%string;
    cbn in E; repeat (destruct E as [E|E]; [injection E as <- _ _; lia|]); destruct E.
Qed.

Lemma tmap_all (g : R -> R) (n : nat) (t : tensor n) (P : R -> Prop) :
  (forall v, P (g v)) -> Forall P (flatten n (tmap g n t)).
Proof.
  intros Hg. induction n as [|k IH]; [by repeat constructor|].
  revert t. change (tensor (S k)) with (list (tensor k)). intros t.
  change (Forall P (concat (map (flatten k) (map (tmap g k) t)))).
  apply Forall_concat, Forall_map, Forall_map, Forall_forall. intros x _. apply IH.
Qed.

(** The fused feature map of the multi-code wrapper is the mean of the
    weighted feature maps. *)
Lemma fused_feature_map_spec (self : PGGAN_multi_z.t)
    (z alpha : list (list (list R))) (F : nat -> tensor 4) (B D C H W : nat) :
  1 <= PGGAN_multi_z.z_number self ->
  PGGAN_multi_z.z_dim self = Z.of_nat D -> (0 < D)%nat ->
  PGGAN_multi_z.layer_c_number self = Z.of_nat C -> (0 < C)%nat ->
  has_shape 3 [B; Z.to_nat (PGGAN_multi_z.z_number self); D] z ->
  has_shape 3 [B; Z.to_nat (PGGAN_multi_z.z_number self); C] alpha ->
  (forall j, (j < Z.to_nat (PGGAN_multi_z.z_number self))%nat ->
     Sequential (PGGAN_multi_z.pre_model self) (PyTensor (mk 4 (code_input z j)))
       = Ok (PyTensor (mk 4 (F j))) /\
     has_shape 4 [B; C; H; W] (F j)) ->
  exists fused : tensor 4,
    PGGAN_multi_z.fused_feature_map self [PyTensor (mk 3 z); PyTensor (mk 3 alpha)]
      = Ok (PyTensor (mk 4 fused)) /\
    has_shape 4 [B; C; H; W] fused /\
    forall b c h w, (b < B)%nat -> (c < C)%nat -> (h < H)%nat -> (w < W)%nat ->
      get 4 [b; c; h; w] fused
      = (sum_over (Z.to_nat (PGGAN_multi_z.z_number self))
           (fun j => get 4 [b; c; h; w] (F j) * get 3 [b; j; c] alpha)
         / IZR (PGGAN_multi_z.z_number self))%R.
Proof.
  intros Hzn HD HDpos HC HCpos Hz Ha Hpre.
  set (Zn := Z.to_nat (PGGAN_multi_z.z_number self)) in *.
  destruct (res_mapM_spec
              (PGGAN_multi_z.weighted_feature_map self (PyTensor (mk 3 z)) (PyTensor (mk 3 alpha)))
              (Py.range (PGGAN_multi_z.z_number self))
              (fun j _ y =>
                 exists wj : tensor 4, y = PyTensor (mk 4 wj) /\
                   has_shape 4 [B; C; H; W] wj /\
                   forall idx, in_range idx [B; C; H; W] ->
                     get 4 idx wj
                     = (get 4 idx (F j) * get 3 [idx !!! 0%nat; j; idx !!! 1%nat] alpha)%R))
    as (ws & Hws & Hlen & Hwg).
  { intros j x Hx. unfold Py.range in Hx. fold Zn in Hx.
    apply lookup_map_Some in Hx as (j' & Hj' & ->).
    apply lookup_seq in Hj' as [-> Hj]. cbn [Nat.add].
    destruct (Hpre j Hj) as [HFj HFs].
    destruct (weighted_feature_map_spec self z alpha (F j) B Zn D C H W j
                HD HDpos HC HCpos Hz Ha Hj HFj HFs) as (wj & Hwj & Hwjs & Hwjg).
    exists (PyTensor (mk 4 wj)). split; [exact Hwj|]. exists wj.
    split; [reflexivity|]. split; [exact Hwjs|].
    intros idx Hr.
    apply in_range_cons_inv in Hr as (b & idx1 & -> & Hb & Hr).
    apply in_range_cons_inv in Hr as (c & idx2 & -> & Hc & Hr).
    apply in_range_cons_inv in Hr as (h & idx3 & -> & Hh & Hr).
    apply in_range_cons_inv in Hr as (w & idx4 & -> & Hw & Hr).
    inversion Hr; subst. by apply Hwjg. }
  assert (HlenZ : length ws = Zn).
  { rewrite Hlen. unfold Py.range. by rewrite length_map, length_seq. }
  destruct (sum_tensors 4 [B; C; H; W] ws
              (fun j idx => (get 4 idx (F j)
                             * get 3 [idx !!! 0%nat; j; idx !!! 1%nat] alpha)%R))
    as (t & Ht & Hts & Htg).
  { intros ->. cbn in HlenZ. lia. }
  { intros j y Hy.
    destruct (lookup_lt_is_Some_2 (Py.range (PGGAN_multi_z.z_number self)) j) as [x Hx].
    { rewrite <- Hlen. by eapply lookup_lt_Some. }
    destruct (Hwg j x Hx) as (y' & Hy' & wj & -> & Hwjs & Hwjg).
    exists wj. split; [congruence|]. split; assumption. }
  exists (tmap (fun v => v / IZR (PGGAN_multi_z.z_number self))%R 4 t).
  split; [|split].
  - unfold PGGAN_multi_z.fused_feature_map. cbn [unpack2 mbind res_bind].
    rewrite Hws. cbn [mbind res_bind]. rewrite Ht. reflexivity.
  - by apply tmap_shape.
  - intros b c h w Hb Hc Hh Hw.
    pose proof (in_range4 b c h w B C H W Hb Hc Hh Hw) as Hr.
    rewrite (tmap_get _ 4 _ _ t Hts Hr), (Htg _ Hr), HlenZ. reflexivity.
Qed.

Lemma full_n_shape (s : list nat) (v : R) : has_shape (length s) s (full_n s v).
Proof.
  induction s as [|d s IH]; [exact I|].
  apply (has_shape_cons (length s) d s). split; [apply repeat_length|].
  apply Forall_forall. intros x Hx. apply list_elem_of_In, repeat_spec in Hx. by subst.
Qed.

Lemma full_n_all (s : list nat) (v : R) : Forall (fun x => x = v) (flatten (length s) (full_n s v)).
Proof.
  induction s as [|d s IH]; [by repeat constructor|].
  change (Forall (fun x => x = v) (concat (map (flatten (length s)) (repeat (full_n s v) d)))).
  apply Forall_concat, Forall_map, Forall_forall. intros x Hx.
  apply list_elem_of_In, repeat_spec in Hx. by subst.
Qed.

Lemma draw_list_spec {A : Type} (one : rng -> A * rng) (P : A -> Prop) (d : nat) (g : rng) :
  (forall g', P (one g').1) ->
  length (draw_list one d g).1 = d /\ Forall P (draw_list one d g).1.
Proof.
  intros Hone. revert g. induction d as [|d IH]; intros g; [by split; [|constructor]|].
  cbn [draw_list]. pose proof (Hone g) as H1. destruct (one g) as [x g1].
  destruct (IH g1) as [Hl Hf]. destruct (draw_list one d g1) as [xs g2].
  cbn in *. split; [by f_equal|]. by constructor.
Qed.

Lemma randn_n_shape (s : list nat) (g : rng) : has_shape (length s) s (randn_n s g).1.
Proof.
  revert g. induction s as [|d s IH]; intros g; [exact I|].
  apply (has_shape_cons (length s) d s).
  apply (draw_list_spec (randn_n s) (has_shape (length s) s) d g IH).
Qed.

(** The initial latents of the multi-code wrapper. *)
Lemma init_value_spec (self : PGGAN_multi_z.t) (batch_size : Z) (g : rng) :
  0 <= batch_size -> 1 <= PGGAN_multi_z.z_number self ->
  0 <= PGGAN_multi_z.z_dim self -> 0 <= PGGAN_multi_z.layer_c_number self ->
  exists (z_estimate alpha_estimate : tensor 3) (g' : rng),
    PGGAN_multi_z.init_value self batch_size g
      = Ok ([mk 3 z_estimate; mk 3 alpha_estimate], g') /\
    has_shape 3 [Z.to_nat batch_size; Z.to_nat (PGGAN_multi_z.z_number self);
                 Z.to_nat (PGGAN_multi_z.z_dim self)] z_estimate /\
    has_shape 3 [Z.to_nat batch_size; Z.to_nat (PGGAN_multi_z.z_number self);
                 Z.to_nat (PGGAN_multi_z.layer_c_number self)] alpha_estimate /\
    Forall (fun v => v = Float.float32 (Float.float64 (1 / IZR (PGGAN_multi_z.z_number self))))
      (flatten 3 alpha_estimate).
Proof.
  intros Hb Hz Hd Hc. unfold PGGAN_multi_z.init_value, randn, full.
  rewrite !check_size_ok by (repeat constructor; lia).
  cbn [mbind res_bind map].
  set (sz := [Z.to_nat batch_size; Z.to_nat (PGGAN_multi_z.z_number self);
              Z.to_nat (PGGAN_multi_z.z_dim self)]).
  set (sa := [Z.to_nat batch_size; Z.to_nat (PGGAN_multi_z.z_number self);
              Z.to_nat (PGGAN_multi_z.layer_c_number self)]).
  pose proof (randn_n_shape sz g) as Hzs.
  destruct (randn_n sz g) as [z g'].
  unfold PGGAN_multi_z.one_over.
  destruct (Z.eqb_spec (PGGAN_multi_z.z_number self) 0) as [?|_]; [lia|].
  cbn [mbind res_bind].
  exists z, (full_n sa (Float.float32 (Float.float64 (1 / IZR (PGGAN_multi_z.z_number self))))),
    g'.
  split; [reflexivity|]. split; [exact Hzs|]. split; [apply (full_n_shape sa)|].
  apply (full_n_all sa).
Qed.

(** What holds of every entry holds of the entry at an index. *)
Lemma get_of_flatten (P : R -> Prop) (n : nat) (s idx : list nat) (t : tensor n) :
  Forall P (flatten n t) -> has_shape n s t -> in_range idx s -> P (get n idx t).
Proof.
  revert s idx t. induction n as [|k IH]; intros s idx t Hall Hs Hr.
  - cbn in Hall. by apply Forall_cons in Hall as [? _].
  - revert t Hall Hs. norm_tensor. intros t Hall Hs.
    destruct s as [|d s]; [by destruct Hs|].
    apply in_range_cons_inv in Hr as (i & idx' & -> & Hi & Hr).
    destruct (has_shape_lookup k d s t i Hs Hi) as (u & Hu & Hus).
    rewrite get_cons, Hu.
    change (Forall P (concat (map (flatten k) t))) in Hall.
    rewrite Forall_concat, Forall_map, Forall_lookup in Hall.
    eapply IH; [exact (Hall _ _ Hu)|exact Hus|exact Hr].
Qed.

(** ** The heap of tensor objects and the optimisation loop *)

Lemma M_bind_run {A B : Type} (m : M A) (f : A -> M B) (s : state) :
  (m ≫= f) s = match m s with
               | (s', Ok a) => f a s'
               | (s', Raise e) => (s', Raise e)
               end.
Proof. reflexivity. Qed.

Lemma M_ret_run {A : Type} (a : A) (s : state) : (mret a : M A) s = (s, Ok a).
Proof. reflexivity. Qed.

Lemma M_foldM_app {A B : Type} (f : A -> B -> M A) (a : A) (l1 l2 : list B) (s : state) :
  M_foldM f a (l1 ++ l2) s
  = match M_foldM f a l1 s with
    | (s', Ok a') => M_foldM f a' l2 s'
    | (s', Raise e) => (s', Raise e)
    end.
Proof.
  revert a s. induction l1 as [|x l1 IH]; intros a s; [reflexivity|].
  cbn [app M_foldM]. rewrite !M_bind_run. destruct (f a x s) as [s1 [a1|e]]; [apply IH|reflexivity].
Qed.

Lemma range_S (k : nat) : Py.range (Z.of_nat (S k)) = Py.range (Z.of_nat k) ++ [Z.of_nat k].
Proof.
  unfold Py.range. rewrite !Nat2Z.id, seq_S, map_app. reflexivity.
Qed.

Lemma M_mapM_read (ls : list loc) (s : state) :
  M_mapM read ls s = (s, Ok (map (deref s) ls)).
Proof.
  induction ls as [|l ls IH]; [reflexivity|].
  cbn [M_mapM map]. rewrite M_bind_run. unfold read at 1. rewrite M_bind_run, IH. reflexivity.
Qed.

Lemma write_all_run (ls : list loc) (vs : list Tensor) (s : state) :
  GradientDescent.write_all ls vs s
  = ({| heap := write_all_heap ls vs (heap s); gen := gen s |}, Ok tt).
Proof.
  unfold GradientDescent.write_all, write_all_heap. destruct s as [h g]. cbn [heap gen].
  generalize (combine ls vs). intros ps. revert h.
  induction ps as [|p ps IH]; intros h; [reflexivity|].
  cbn [M_foldM fold_left]. rewrite M_bind_run. unfold write at 1, update. cbn [heap gen].
  apply IH.
Qed.

Lemma length_write_heap (h : list cell) (l : loc) (t : Tensor) :
  length (write_heap h l t) = length h.
Proof. apply length_alter. Qed.

Lemma length_write_all_heap (ls : list loc) (vs : list Tensor) (h : list cell) :
  length (write_all_heap ls vs h) = length h.
Proof.
  unfold write_all_heap. generalize (combine ls vs). intros ps. revert h.
  induction ps as [|p ps IH]; intros h; [reflexivity|].
  cbn [fold_left]. by rewrite IH, length_write_heap.
Qed.

(** Writes to objects of a heap do not see what is allocated after it. *)
Lemma write_all_heap_app (ls : list loc) (vs : list Tensor) (h extra : list cell) :
  Forall (fun l => (l < length h)%nat) ls ->
  write_all_heap ls vs (h ++ extra) = write_all_heap ls vs h ++ extra.
Proof.
  unfold write_all_heap. revert vs h. induction ls as [|l ls IH]; intros vs h Hls; [reflexivity|].
  destruct vs as [|v vs]; [reflexivity|]. cbn [combine fold_left fst snd].
  apply Forall_cons in Hls as [Hl Hls].
  unfold write_heap at 2. rewrite alter_app_l by assumption.
  apply IH. eapply Forall_impl; [exact Hls|]. intros l' Hl'. cbn beta.
  by rewrite (length_write_heap h l v).
Qed.

Lemma write_all_heap_other (ls : list loc) (vs : list Tensor) (h : list cell) (l : loc) :
  l ∉ ls -> write_all_heap ls vs h !! l = h !! l.
Proof.
  unfold write_all_heap. revert vs h. induction ls as [|l0 ls IH]; intros vs h Hl; [reflexivity|].
  destruct vs as [|v vs]; [reflexivity|]. cbn [combine fold_left fst snd].
  apply not_elem_of_cons in Hl as [Hne Hl]. rewrite IH by assumption.
  unfold write_heap. by rewrite list_lookup_alter_ne.
Qed.

Lemma deref_app (h extra : list cell) (g1 g2 : rng) (l : loc) :
  (l < length h)%nat ->
  deref {| heap := h ++ extra; gen := g1 |} l = deref {| heap := h; gen := g2 |} l.
Proof. intros Hl. unfold deref, lookup_cell. cbn [heap]. by rewrite lookup_app_l. Qed.

Lemma lookup_cell_app (h extra : list cell) (g1 g2 : rng) (l : loc) :
  (l < length h)%nat ->
  lookup_cell {| heap := h ++ extra; gen := g1 |} l = lookup_cell {| heap := h; gen := g2 |} l.
Proof. intros Hl. unfold lookup_cell. cbn [heap]. by rewrite lookup_app_l. Qed.

Lemma deepcopy_from_cons (memo : list (loc * loc)) (l : loc) (ls : list loc) (s : state) :
  deepcopy_from memo (l :: ls) s
  = match list_find (fun p => p.1 = l) memo with
    | Some (_, (_, l')) =>
        match deepcopy_from memo ls s with
        | (s', Ok cs) => (s', Ok (l' :: cs))
        | (s', Raise e) => (s', Raise e)
        end
    | None =>
        match deepcopy_from ((l, length (heap s)) :: memo) ls
                {| heap := heap s ++ [lookup_cell s l]; gen := gen s |} with
        | (s', Ok cs) => (s', Ok (length (heap s) :: cs))
        | (s', Raise e) => (s', Raise e)
        end
    end.
Proof.
  cbn [deepcopy_from]. by destruct (list_find _ memo) as [[j [l0 l']]|].
Qed.

(** [copy.deepcopy] allocates its copies past the end of the heap, gives
    each the contents of its original, and changes nothing else. *)
Lemma deepcopy_from_spec (n0 : nat) (ls : list loc) :
  Forall (fun l => (l < n0)%nat) ls ->
  forall (memo : list (loc * loc)) (s : state),
    (n0 <= length (heap s))%nat ->
    (forall p, p ∈ memo ->
       (p.1 < n0)%nat /\ (n0 <= p.2 < length (heap s))%nat /\
       lookup_cell s p.2 = lookup_cell s p.1) ->
    exists (s' : state) (h : list loc) (cells : list cell),
      deepcopy_from memo ls s = (s', Ok h) /\
      gen s' = gen s /\ heap s' = heap s ++ cells /\
      length h = length ls /\
      forall i l', h !! i = Some l' ->
        (n0 <= l' < length (heap s'))%nat /\
        exists l, ls !! i = Some l /\ lookup_cell s' l' = lookup_cell s l.
Proof.
  intros Hls. induction Hls as [|l ls Hl Hls IH]; intros memo s Hn0 Hmemo.
  - exists s, [], []. cbn [deepcopy_from]. rewrite app_nil_r.
    split; [reflexivity|]. split; [reflexivity|]. split; [reflexivity|]. split; [reflexivity|].
    intros i l' Hi. by destruct i.
  - rewrite deepcopy_from_cons.
    destruct (list_find _ memo) as [[j [l0 l']]|] eqn:Efind.
    + apply list_find_Some in Efind as (Hj & Hp & _). cbn in Hp. subst l0.
      destruct (Hmemo (l, l')) as (_ & Hl' & Hcell); [by eapply list_elem_of_lookup_2|].
      cbn [fst snd] in *.
      destruct (IH memo s Hn0 Hmemo) as (s' & h & cells & Hrun & Hgen & Hheap & Hlen & Hh).
      exists s', (l' :: h), cells. rewrite Hrun.
      split; [reflexivity|]. split; [exact Hgen|]. split; [exact Hheap|].
      split; [cbn; lia|].
      intros i l'' Hi. destruct i as [|i]; cbn in Hi; [injection Hi as <-|apply (Hh i l'' Hi)].
      split; [rewrite Hheap, length_app; lia|].
      exists l. split; [reflexivity|]. rewrite <- Hcell.
      destruct s as [hp g], s' as [hp' g']. cbn [heap] in *. subst hp'.
      apply lookup_cell_app. lia.
    + set (s1 := {| heap := heap s ++ [lookup_cell s l]; gen := gen s |}).
      assert (Hpre : forall l1, (l1 < length (heap s))%nat -> lookup_cell s1 l1 = lookup_cell s l1).
      { intros l1 Hl1. destruct s as [hp g]. apply lookup_cell_app. exact Hl1. }
      assert (Hnew : lookup_cell s1 (length (heap s)) = lookup_cell s l).
      { unfold lookup_cell, s1. cbn [heap].
        rewrite lookup_app_r, Nat.sub_diag by lia. reflexivity. }
      destruct (IH ((l, length (heap s)) :: memo) s1)
        as (s' & h & cells & Hrun & Hgen & Hheap & Hlen & Hh).
      { unfold s1. cbn [heap]. rewrite length_app. lia. }
      { intros p Hp. apply elem_of_cons in Hp as [->|Hp]; cbn [fst snd].
        - split; [assumption|]. split.
          + unfold s1. cbn [heap]. rewrite length_app. cbn. lia.
          + rewrite Hnew. symmetry. apply Hpre. lia.
        - destruct (Hmemo p Hp) as (H1 & H2 & H3). split; [assumption|]. split.
          + unfold s1. cbn [heap]. rewrite length_app. cbn. lia.
          + rewrite !Hpre by lia. exact H3. }
      exists s', (length (heap s) :: h), (lookup_cell s l :: cells).
      match goal with
      | |- context [deepcopy_from ?m ls s1] =>
          replace (deepcopy_from m ls s1) with (s', Ok h) by (symmetry; exact Hrun)
      end.
      split; [reflexivity|]. split; [exact Hgen|]. split.
      { rewrite Hheap. unfold s1. cbn [heap]. by rewrite <- app_assoc. }
      split; [cbn; lia|].
      intros i l' Hi. destruct i as [|i]; cbn in Hi.
      * injection Hi as <-. split.
        { rewrite Hheap. unfold s1. cbn [heap]. rewrite !length_app. cbn. lia. }
        exists l. split; [reflexivity|]. rewrite <- Hnew.
        destruct s1 as [hp g] eqn:Es1, s' as [hp' g']. cbn [heap] in *. subst hp'.
        apply lookup_cell_app. injection Es1 as <- _. rewrite length_app. cbn. lia.
      * destruct (Hh i l' Hi) as (Hb & l1 & Hl1 & Hc). split; [exact Hb|].
        exists l1. split; [exact Hl1|]. rewrite Hc. apply Hpre.
        rewrite Forall_lookup in Hls. specialize (Hls i l1 Hl1). cbn in Hls. lia.
Qed.

Lemma deepcopy_spec (ls : list loc) (s : state) :
  valid s ls ->
  exists (s' : state) (h : list loc) (cells : list cell),
    deepcopy ls s = (s', Ok h) /\
    gen s' = gen s /\ heap s' = heap s ++ cells /\
    length h = length ls /\
    Forall (fun l' => (length (heap s) <= l' < length (heap s'))%nat) h /\
    map (deref s') h = map (deref s) ls.
Proof.
  intros Hv.
  destruct (deepcopy_from_spec (length (heap s)) ls Hv [] s)
    as (s' & h & cells & Hrun & Hgen & Hheap & Hlen & Hh); [lia| |].
  { intros p Hp. by apply elem_of_nil in Hp. }
  exists s', h, cells. split; [exact Hrun|]. split; [exact Hgen|]. split; [exact Hheap|].
  split; [exact Hlen|]. split.
  - apply Forall_lookup. intros i l' Hi. apply (Hh i l' Hi).
  - apply list_eq. intros i. rewrite !lookup_map.
    destruct (h !! i) as [l'|] eqn:Ei.
    + destruct (Hh i l' Ei) as (_ & l & -> & Hc). cbn. unfold deref. by rewrite Hc.
    + apply lookup_ge_None in Ei. rewrite Hlen in Ei. apply lookup_ge_None in Ei.
      by rewrite Ei.
Qed.

Lemma M_foldM_single {A B : Type} (f : A -> B -> M A) (a : A) (x : B) (s : state) :
  M_foldM f a [x] s = f a x s.
Proof.
  cbn [M_foldM]. rewrite M_bind_run. by destruct (f a x s) as [s' [a'|e]].
Qed.

Section loop.

Context {AG : Autograd}.

Variable self : GradientDescent.t.
Variable generator : Generator.
Variable gt_image : pyval.
Variable loss_function : pyval -> pyval -> res pyval.

Abbreviation descend := (GradientDescent.descend self generator gt_image loss_function).
Abbreviation iteration := (GradientDescent.iteration self generator gt_image loss_function).
Abbreviation loop := (loop self generator gt_image loss_function).

(** One pass of the loop, in terms of the heap. *)
Lemma iteration_run (video : bool) (latents : list loc) (opt : OptState)
    (hist : list (list loc)) (i : Z) (s : state) :
  iteration video latents (opt, hist) i s
  = match descend opt (map (deref s) latents) with
    | Ok (opt', vs') =>
        let s1 := {| heap := write_all_heap latents vs' (heap s); gen := gen s |} in
        if video
        then match deepcopy latents s1 with
             | (s2, Ok h) => (s2, Ok (opt', hist ++ [h]))
             | (s2, Raise e) => (s2, Raise e)
             end
        else (s1, Ok (opt', hist))
    | Raise e => (s, Raise e)
    end.
Proof.
  unfold GradientDescent.iteration. rewrite M_bind_run, M_mapM_read, M_bind_run.
  unfold lift at 1. destruct (descend opt (map (deref s) latents)) as [[opt' vs']|e];
    [|reflexivity].
  rewrite M_bind_run, write_all_run. destruct video; [|reflexivity].
  rewrite M_bind_run. by destruct (deepcopy latents _) as [s2 [h|e]].
Qed.

Lemma loop_S (video : bool) (latents : list loc) (opt0 : OptState) (n : nat) (s : state) :
  loop video latents opt0 (S n) s
  = match loop video latents opt0 n s with
    | (s', Ok st) => iteration video latents st (Z.of_nat n) s'
    | (s', Raise e) => (s', Raise e)
    end.
Proof.
  unfold loop. rewrite range_S, M_foldM_app.
  destruct (M_foldM _ _ _ s) as [s' [st|e]]; [apply M_foldM_single|reflexivity].
Qed.

(** The run that records history and the run that does not move the
    latents alike; every recorded entry lies past the initial heap and
    holds the entries the latents had after the step that recorded it. *)
Lemma loop_sim (latents : list loc) (opt0 : OptState) (s : state) :
  valid s latents ->
  (forall opt vs, length vs = length latents -> exists r, descend opt vs = Ok r) ->
  forall k : nat,
  exists (sV sN : state) (opt : OptState) (hist : list (list loc)) (extra : list cell),
    loop true latents opt0 k s = (sV, Ok (opt, hist)) /\
    loop false latents opt0 k s = (sN, Ok (opt, [])) /\
    gen sV = gen sN /\
    length (heap sN) = length (heap s) /\
    heap sV = heap sN ++ extra /\
    length hist = k /\
    forall i h, hist !! i = Some h ->
      Forall (fun l => (length (heap s) <= l < length (heap sV))%nat) h /\
      exists (sNi : state) (opti : OptState),
        loop false latents opt0 (S i) s = (sNi, Ok (opti, [])) /\
        map (deref sV) h = map (deref sNi) latents.
Proof.
  intros Hv Hok. induction k as [|k IH].
  - exists s, s, opt0, [], []. unfold loop. cbn [Z.of_nat Py.range Z.to_nat seq map M_foldM].
    rewrite app_nil_r. repeat (split; [reflexivity|]). intros i h Hi. by destruct i.
  - destruct IH as (sV & sN & opt & hist & extra & HrV & HrN & Hgen & HlenN & Hheap & Hlh & Hhist).
    assert (HvN : Forall (fun l => (l < length (heap sN))%nat) latents).
    { unfold valid in Hv. by rewrite HlenN. }
    assert (Hvals : map (deref sV) latents = map (deref sN) latents).
    { apply map_ext_Forall. eapply Forall_impl; [exact HvN|]. intros l Hl. cbn beta.
      destruct sV as [hV gV], sN as [hN gN]. cbn [heap] in *. subst hV.
      by apply deref_app. }
    rewrite !loop_S, HrV, HrN, !iteration_run, Hvals.
    destruct (Hok opt (map (deref sN) latents)) as [[opt' vs'] Hd];
      [by rewrite length_map|]. rewrite Hd.
    cbn zeta.
    set (sN1 := {| heap := write_all_heap latents vs' (heap sN); gen := gen sN |}).
    set (sV1 := {| heap := write_all_heap latents vs' (heap sV); gen := gen sV |}).
    assert (HheapV1 : heap sV1 = heap sN1 ++ extra).
    { unfold sV1, sN1. cbn [heap]. rewrite Hheap. by apply write_all_heap_app. }
    assert (HlenN1 : length (heap sN1) = length (heap s)).
    { unfold sN1. cbn [heap]. by rewrite length_write_all_heap. }
    assert (HvV1 : valid sV1 latents).
    { unfold valid. rewrite HheapV1, length_app, HlenN1.
      eapply Forall_impl; [exact Hv|]. intros l Hl. cbn beta in *. lia. }
    destruct (deepcopy_spec latents sV1 HvV1)
      as (sV2 & h & cells & Hdc & Hgen2 & Hheap2 & Hlenh & Hhb & Hhv).
    rewrite Hdc.
    exists sV2, sN1, opt', (hist ++ [h]), (extra ++ cells).
    split; [reflexivity|]. split; [reflexivity|].
    split; [by rewrite Hgen2|]. split; [exact HlenN1|].
    split; [by rewrite Hheap2, HheapV1, app_assoc|].
    split; [rewrite length_app; cbn; lia|].
    intros i hi Hi.
    destruct (decide (i < length hist)%nat) as [Hlt|Hge].
    + (* an entry recorded earlier: nothing wrote to it since *)
      rewrite lookup_app_l in Hi by assumption.
      destruct (Hhist i hi Hi) as (Hb & sNi & opti & Hri & Hvi).
      split.
      * eapply Forall_impl; [exact Hb|]. intros l Hl. cbn beta in *.
        rewrite Hheap2, HheapV1, !length_app, HlenN1.
        rewrite Hheap, length_app, HlenN in Hl. lia.
      * exists sNi, opti. split; [exact Hri|]. rewrite <- Hvi.
        apply map_ext_Forall. eapply Forall_impl; [exact Hb|]. intros l Hl. cbn beta in *.
        unfold deref, lookup_cell. do 2 f_equal.
        rewrite Hheap2, HheapV1, Hheap. rewrite Hheap, length_app in Hl.
        rewrite <- app_assoc.
        rewrite (lookup_app_r (heap sN1)) by lia.
        rewrite (lookup_app_r (heap sN)) by lia.
        rewrite HlenN1, HlenN. apply lookup_app_l. lia.
    + (* the entry just recorded *)
      assert (i = length hist) as ->.
      { apply lookup_lt_Some in Hi. rewrite length_app in Hi. cbn in Hi. lia. }
      rewrite lookup_app_r in Hi by reflexivity. rewrite Nat.sub_diag in Hi. injection Hi as <-.
      split.
      * eapply Forall_impl; [exact Hhb|]. intros l Hl. cbn beta in *.
        rewrite HheapV1, length_app, HlenN1 in Hl. lia.
      * exists sN1, opt'. split.
        { rewrite Hlh, loop_S, HrN, iteration_run, Hd. reflexivity. }
        rewrite Hhv. apply map_ext_Forall.
        eapply Forall_impl; [exact Hv|]. intros l Hl. cbn beta in *.
        destruct sV1 as [hV1 gV1], sN1 as [hN1 gN1]. cbn [heap] in *. subst hV1.
        apply deref_app. lia.
Qed.

(** The same without any assumption on the forward pass and the loss:
    the two runs stop alike, with the same exception or with the same
    optimiser state, and leave the same heap up to the copies that
    history holds; every recorded entry lies past the initial heap and
    holds the entries the latents had after the step that recorded
    it. *)
Lemma loop_sim_any (latents : list loc) (opt0 : OptState) (s : state) :
  valid s latents ->
  forall k : nat,
  exists (sV sN : state) (extra : list cell),
    heap sV = heap sN ++ extra /\
    gen sV = gen sN /\
    length (heap sN) = length (heap s) /\
    ((exists opt hist,
         loop true latents opt0 k s = (sV, Ok (opt, hist)) /\
         loop false latents opt0 k s = (sN, Ok (opt, [])) /\
         length hist = k /\
         forall i h, hist !! i = Some h ->
           Forall (fun l => (length (heap s) <= l < length (heap sV))%nat) h /\
           exists (sNi : state) (opti : OptState),
             loop false latents opt0 (S i) s = (sNi, Ok (opti, [])) /\
             map (deref sV) h = map (deref sNi) latents) \/
     (exists e,
         loop true latents opt0 k s = (sV, Raise e) /\
         loop false latents opt0 k s = (sN, Raise e))).
Proof.
  intros Hv. induction k as [|k IH].
  - exists s, s, []. rewrite app_nil_r. repeat (split; [reflexivity|]).
    left. exists opt0, []. repeat (split; [reflexivity|]).
    intros i h Hi. by destruct i.
  - destruct IH as (sV & sN & extra & Hheap & Hgen & HlenN &
                    [(opt & hist & HrV & HrN & Hlh & Hhist)|(e & HrV & HrN)]).
    + assert (HvN : Forall (fun l => (l < length (heap sN))%nat) latents).
      { unfold valid in Hv. by rewrite HlenN. }
      assert (Hvals : map (deref sV) latents = map (deref sN) latents).
      { apply map_ext_Forall. eapply Forall_impl; [exact HvN|]. intros l Hl. cbn beta.
        destruct sV as [hV gV], sN as [hN gN]. cbn [heap] in *. subst hV.
        by apply deref_app. }
      rewrite !loop_S, HrV, HrN, !iteration_run, Hvals.
      destruct (descend opt (map (deref sN) latents)) as [[opt' vs']|e] eqn:Hd.
      * cbn zeta.
        set (sN1 := {| heap := write_all_heap latents vs' (heap sN); gen := gen sN |}).
        set (sV1 := {| heap := write_all_heap latents vs' (heap sV); gen := gen sV |}).
        assert (HheapV1 : heap sV1 = heap sN1 ++ extra).
        { unfold sV1, sN1. cbn [heap]. rewrite Hheap. by apply write_all_heap_app. }
        assert (HlenN1 : length (heap sN1) = length (heap s)).
        { unfold sN1. cbn [heap]. by rewrite length_write_all_heap. }
        assert (HvV1 : valid sV1 latents).
        { unfold valid. rewrite HheapV1, length_app, HlenN1.
          eapply Forall_impl; [exact Hv|]. intros l Hl. cbn beta in *. lia. }
        destruct (deepcopy_spec latents sV1 HvV1)
          as (sV2 & h & cells & Hdc & Hgen2 & Hheap2 & Hlenh & Hhb & Hhv).
        rewrite Hdc. exists sV2, sN1, (extra ++ cells).
        split; [by rewrite Hheap2, HheapV1, app_assoc|].
        split; [by rewrite Hgen2|]. split; [exact HlenN1|].
        left. exists opt', (hist ++ [h]). split; [reflexivity|]. split; [reflexivity|].
        split; [rewrite length_app; cbn; lia|].
        intros i hi Hi.
        destruct (decide (i < length hist)%nat) as [Hlt|Hge].
        -- rewrite lookup_app_l in Hi by assumption.
           destruct (Hhist i hi Hi) as (Hb & sNi & opti & Hri & Hvi).
           split.
           ++ eapply Forall_impl; [exact Hb|]. intros l Hl. cbn beta in *.
              rewrite Hheap2, HheapV1, !length_app, HlenN1.
              rewrite Hheap, length_app, HlenN in Hl. lia.
           ++ exists sNi, opti. split; [exact Hri|]. rewrite <- Hvi.
              apply map_ext_Forall. eapply Forall_impl; [exact Hb|].
              intros l Hl. cbn beta in *.
              unfold deref, lookup_cell. do 2 f_equal.
              rewrite Hheap2, HheapV1, Hheap. rewrite Hheap, length_app in Hl.
              rewrite <- app_assoc.
              rewrite (lookup_app_r (heap sN1)) by lia.
              rewrite (lookup_app_r (heap sN)) by lia.
              rewrite HlenN1, HlenN. apply lookup_app_l. lia.
        -- assert (i = length hist) as ->.
           { apply lookup_lt_Some in Hi. rewrite length_app in Hi. cbn in Hi. lia. }
           rewrite lookup_app_r in Hi by reflexivity. rewrite Nat.sub_diag in Hi.
           injection Hi as <-. split.
           ++ eapply Forall_impl; [exact Hhb|]. intros l Hl. cbn beta in *.
              rewrite HheapV1, length_app, HlenN1 in Hl. lia.
           ++ exists sN1, opt'. split.
              { rewrite Hlh, loop_S, HrN, iteration_run, Hd. reflexivity. }
              rewrite Hhv. apply map_ext_Forall.
              eapply Forall_impl; [exact Hv|]. intros l Hl. cbn beta in *.
              destruct sV1 as [hV1 gV1], sN1 as [hN1 gN1]. cbn [heap] in *. subst hV1.
              apply deref_app. lia.
      * exists sV, sN, extra. repeat (split; [assumption|]). right. exists e. by split.
    + rewrite !loop_S, HrV, HrN. exists sV, sN, extra.
      repeat (split; [assumption|]). right. exists e. by split.
Qed.

End loop.

Lemma length_require_grad_heap (ls : list loc) (h : list cell) :
  length (require_grad_heap ls h) = length h.
Proof.
  unfold require_grad_heap. revert h. induction ls as [|l ls IH]; intros h; [reflexivity|].
  cbn [fold_left]. by rewrite IH, length_alter.
Qed.

Lemma set_requires_grad_run (ls : list loc) (s : state) :
  exists us, M_mapM (fun latent => set_requires_grad latent true) ls s = (prepared s ls, Ok us).
Proof.
  unfold prepared, require_grad_heap. destruct s as [h g]. cbn [heap gen]. revert h.
  induction ls as [|l ls IH]; intros h; [by exists []|].
  cbn [M_mapM fold_left]. rewrite M_bind_run. unfold set_requires_grad at 1, update.
  cbn [heap gen]. rewrite M_bind_run.
  destruct (IH (alter (fun c => {| data := data c; requires_grad := true |}) l h)) as [us ->].
  by exists (tt :: us).
Qed.

Lemma optimizer_check_ok (cls : optimizer_class) (params : list loc) (lr : R) :
  (0 <= lr)%R -> params <> [] -> optimizer_check cls params lr = Ok tt.
Proof.
  intros Hlr Hne. unfold optimizer_check. destruct (Rlt_dec lr 0) as [?|_]; [lra|].
  by destruct params.
Qed.

Lemma range_to_nat (n : Z) : Py.range n = Py.range (Z.of_nat (Z.to_nat n)).
Proof. unfold Py.range. by rewrite Nat2Z.id. Qed.

Section invert.

Context {AG : Autograd}.

Variable self : GradientDescent.t.
Variable generator : Generator.
Variable gt_image : pyval.
Variable loss_function : pyval -> pyval -> res pyval.
Variable batch_size : Z.
Variable init_ : list loc.

Abbreviation initial_latents :=
  (GradientDescent.initial_latents self generator batch_size init_).

Lemma invert_run (self' : GradientDescent.t) (video : bool) (s : state) :
  GradientDescent.invert self' generator gt_image loss_function batch_size video init_ s
  = match GradientDescent.initial_latents self' generator batch_size init_ s with
    | (s0, Ok latents) =>
        match GradientDescent.optimise self' generator gt_image loss_function video
                latents s0 with
        | (s', Ok (_, history)) => (s', Ok (latents, history))
        | (s', Raise e) => (s', Raise e)
        end
    | (s0, Raise e) => (s0, Raise e)
    end.
Proof.
  unfold GradientDescent.invert. rewrite M_bind_run.
  destruct (GradientDescent.initial_latents _ _ _ _ s) as [s0 [latents|e]]; [|reflexivity].
  rewrite M_bind_run.
  by destruct (GradientDescent.optimise _ _ _ _ _ _ s0) as [s' [[opt history]|e]].
Qed.

Lemma optimise_run (self' : GradientDescent.t) (video : bool) (latents : list loc) (s : state) :
  GradientDescent.optimise self' generator gt_image loss_function video latents s
  = match optimizer_check (GradientDescent.optimizer self') latents
            (GradientDescent.lr self') with
    | Ok _ =>
        loop self' generator gt_image loss_function video latents
          (opt_init (GradientDescent.optimizer self')
             (map (deref (prepared s latents)) latents))
          (Z.to_nat (GradientDescent.iterations self')) (prepared s latents)
    | Raise e => (prepared s latents, Raise e)
    end.
Proof.
  unfold GradientDescent.optimise. rewrite M_bind_run.
  destruct (set_requires_grad_run latents s) as [us ->].
  rewrite M_bind_run. unfold lift at 1.
  destruct (optimizer_check _ _ _) as [[]|e]; [|reflexivity].
  rewrite M_bind_run, M_mapM_read. unfold loop. by rewrite <- range_to_nat.
Qed.

End invert.

Lemma prepared_nil (s : state) : prepared s [] = s.
Proof. by destruct s. Qed.

Lemma valid_prepared (s : state) (ls1 ls2 : list loc) :
  valid s ls2 -> valid (prepared s ls1) ls2.
Proof. unfold valid, prepared. cbn [heap]. by rewrite length_require_grad_heap. Qed.

Lemma new_tensor_run (t : Tensor) (s : state) :
  new_tensor t s
  = ({| heap := heap s ++ [{| data := t; requires_grad := false |}]; gen := gen s |},
     Ok (length (heap s))).
Proof. reflexivity. Qed.

Lemma valid_grow (s s' : state) (ls : list loc) :
  (length (heap s) <= length (heap s'))%nat -> valid s ls -> valid s' ls.
Proof.
  intros Hle Hv. eapply Forall_impl; [exact Hv|]. intros l Hl. cbn beta in *. lia.
Qed.

Lemma M_mapM_new_tensor_valid (ts : list Tensor) (s : state) :
  exists s' ls, M_mapM new_tensor ts s = (s', Ok ls) /\
                (length (heap s) <= length (heap s'))%nat /\ valid s' ls.
Proof.
  revert s. induction ts as [|t ts IH]; intros s.
  - exists s, []. split; [reflexivity|]. split; [lia|constructor].
  - cbn [M_mapM]. rewrite M_bind_run, new_tensor_run.
    destruct (IH {| heap := heap s ++ [{| data := t; requires_grad := false |}];
                    gen := gen s |}) as (s' & ls & Hrun & Hle & Hv).
    cbn [heap] in Hle. rewrite length_app in Hle. cbn in Hle.
    rewrite M_bind_run, Hrun. exists s', (length (heap s) :: ls).
    split; [reflexivity|]. split; [lia|]. constructor; [lia|exact Hv].
Qed.

Lemma valid_alloc (s : state) (acc : list loc) (c : cell) (g : rng) :
  valid s acc ->
  valid {| heap := heap s ++ [c]; gen := g |} (acc ++ [length (heap s)]).
Proof.
  intros Hv. unfold valid. cbn [heap]. rewrite length_app. cbn [length].
  apply Forall_app. split.
  - eapply Forall_impl; [exact Hv|]. intros l Hl. cbn beta in *. lia.
  - constructor; [lia|constructor].
Qed.

Section initial.

Context {AG : Autograd}.

Variable self : GradientDescent.t.
Variable generator : Generator.
Variable gt_image : pyval.
Variable loss_function : pyval -> pyval -> res pyval.
Variable batch_size : Z.

Lemma initial_latents_given (init_ : list loc) (s : state) :
  init_ <> [] ->
  GradientDescent.initial_latents self generator batch_size init_ s
  = if (length init_ =? length (input_size generator))%nat
    then (s, Ok init_)
    else (s, Raise (AssertionError "Please check the number of init value")).
Proof.
  intros Hne. unfold GradientDescent.initial_latents.
  destruct init_ as [|l ls]; [contradiction|].
  change (length (l :: ls) =? 0)%nat with false. cbv iota.
  by destruct (length (l :: ls) =? length (input_size generator))%nat.
Qed.

Lemma init_one_valid (acc : list loc) (input_size : list Z) (s s' : state) (r : list loc) :
  valid s acc ->
  GradientDescent.init_one self batch_size acc input_size s = (s', Ok r) ->
  (length (heap s) <= length (heap s'))%nat /\ valid s' r.
Proof.
  intros Hv. unfold GradientDescent.init_one.
  destruct (GradientDescent.init_type self =? "Zero")%string.
  - rewrite M_bind_run. unfold lift at 1.
    destruct (zeros (batch_size :: input_size)) as [t|e]; [|discriminate].
    rewrite M_bind_run, new_tensor_run, M_ret_run. intros [= <- <-].
    split; [cbn [heap]; rewrite length_app; lia|]. by apply valid_alloc.
  - destruct (GradientDescent.init_type self =? "Normal")%string.
    + rewrite M_bind_run. unfold lift_rng at 1.
      destruct (randn (batch_size :: input_size) (gen s)) as [[t g']|e]; [|discriminate].
      rewrite M_bind_run, new_tensor_run, M_ret_run. intros [= <- <-].
      split; [cbn [heap]; rewrite length_app; lia|].
      by apply (valid_alloc {| heap := heap s; gen := g' |}).
    + rewrite M_ret_run. intros [= <- <-]. split; [lia|exact Hv].
Qed.

Lemma init_loop_valid (sizes : list (list Z)) (acc : list loc) (s s' : state) (r : list loc) :
  valid s acc ->
  M_foldM (GradientDescent.init_one self batch_size) acc sizes s = (s', Ok r) ->
  valid s' r.
Proof.
  revert acc s. induction sizes as [|sz sizes IH]; intros acc s Hv.
  - cbn [M_foldM]. rewrite M_ret_run. by intros [= <- <-].
  - cbn [M_foldM]. rewrite M_bind_run.
    destruct (GradientDescent.init_one self batch_size acc sz s) as [s1 [acc1|e]] eqn:E;
      [|discriminate].
    apply (init_one_valid acc sz s s1 acc1 Hv) in E as [_ Hv1]. by apply IH.
Qed.

(** The latents bound at the start of [invert] are objects of the heap. *)
Lemma initial_latents_valid (init_ : list loc) (s s0 : state) (latents : list loc) :
  valid s init_ ->
  GradientDescent.initial_latents self generator batch_size init_ s = (s0, Ok latents) ->
  valid s0 latents.
Proof.
  intros Hv. destruct init_ as [|l ls].
  - unfold GradientDescent.initial_latents. cbn [length Nat.eqb].
    destruct (negb (init generator)).
    + apply init_loop_valid. constructor.
    + rewrite M_bind_run. unfold lift_rng at 1.
      destruct (init_value generator batch_size (gen s)) as [[ts g']|e]; [|discriminate].
      destruct (M_mapM_new_tensor_valid ts {| heap := heap s; gen := g' |})
        as (s' & r & Hrun & _ & Hvr).
      rewrite Hrun. by intros [= <- <-].
  - rewrite initial_latents_given by discriminate.
    destruct (_ =? _)%nat; [|discriminate]. by intros [= <- <-].
Qed.

(** No initial latents, no initialiser, and a fill strategy that is
    neither of the two known ones: the list of latents stays empty and
    the optimiser constructor rejects it. *)
Lemma invert_unknown_init_type (video : bool) (s : state) :
  init generator = false ->
  GradientDescent.init_type self <> "Zero"%string ->
  GradientDescent.init_type self <> "Normal"%string ->
  GradientDescent.initial_latents self generator batch_size [] s = (s, Ok []) /\
  exists msg,
    GradientDescent.invert self generator gt_image loss_function batch_size video [] s
    = (s, Raise (ValueError msg)).
Proof.
  intros Hinit HZ HN.
  assert (Hfold : forall sizes,
            M_foldM (GradientDescent.init_one self batch_size) [] sizes s = (s, Ok [])).
  { induction sizes as [|sz sizes IH]; [reflexivity|].
    cbn [M_foldM]. rewrite M_bind_run. unfold GradientDescent.init_one at 1.
    destruct (String.eqb_spec (GradientDescent.init_type self) "Zero"); [contradiction|].
    destruct (String.eqb_spec (GradientDescent.init_type self) "Normal"); [contradiction|].
    rewrite M_ret_run. exact IH. }
  assert (Hini : GradientDescent.initial_latents self generator batch_size [] s = (s, Ok [])).
  { unfold GradientDescent.initial_latents. cbn [length Nat.eqb]. rewrite Hinit.
    cbn [negb]. apply Hfold. }
  split; [exact Hini|].
  rewrite invert_run, Hini, optimise_run, prepared_nil. unfold optimizer_check.
  destruct (Rlt_dec _ 0); eauto.
Qed.

End initial.

(** ** The statements of the specification *)

(** C1.  In the forward pass of the multi-code wrapper, for every pair
    [z_estimate] of shape (batch, z_number, z_dim) and [alpha_estimate] of
    shape (batch, z_number, layer_channels) and every [z_number >= 1], the
    fused feature map handed to the post-stage is, entry by entry, the sum
    over the codes [j] of the pre-stage output for [z_estimate[:, j, :]]
    (reshaped to (batch, z_dim, 1, 1)) times [alpha_estimate[:, j, :]]
    (one weight per channel, repeated over the spatial positions), divided
    by [z_number]: the arithmetic mean of the weighted feature maps.  [F j]
    names the pre-stage output for code [j]. *)
Theorem PGGAN_multi_z_forward_fuses_by_mean
    (get_gan_model : gan_utils) (gan_model_name : string) (blending_layer z_number : Z)
    (args : args_t) (self : PGGAN_multi_z.t)
    (z alpha : list (list (list R))) (F : nat -> tensor 4) (B H W : nat) :
  PGGAN_multi_z.__init__ get_gan_model gan_model_name blending_layer z_number args = Ok self ->
  1 <= z_number ->
  has_shape 3 [B; Z.to_nat z_number; 512%nat] z ->
  has_shape 3 [B; Z.to_nat z_number; Z.to_nat (PGGAN_multi_z.layer_c_number self)] alpha ->
  (forall j, (j < Z.to_nat z_number)%nat ->
     Sequential (PGGAN_multi_z.pre_model self) (PyTensor (mk 4 (code_input z j)))
       = Ok (PyTensor (mk 4 (F j))) /\
     has_shape 4 [B; Z.to_nat (PGGAN_multi_z.layer_c_number self); H; W] (F j)) ->
  exists fused : tensor 4,
    PGGAN_multi_z.fused_feature_map self [PyTensor (mk 3 z); PyTensor (mk 3 alpha)]
      = Ok (PyTensor (mk 4 fused)) /\
    PGGAN_multi_z.forward self [PyTensor (mk 3 z); PyTensor (mk 3 alpha)]
      = Sequential (PGGAN_multi_z.post_model self) (PyTensor (mk 4 fused)) /\
    has_shape 4 [B; Z.to_nat (PGGAN_multi_z.layer_c_number self); H; W] fused /\
    forall b c h w,
      (b < B)%nat -> (c < Z.to_nat (PGGAN_multi_z.layer_c_number self))%nat ->
      (h < H)%nat -> (w < W)%nat ->
      get 4 [b; c; h; w] fused
      = (sum_over (Z.to_nat z_number)
           (fun j => get 4 [b; c; h; w] (F j) * get 3 [b; j; c] alpha)
         / IZR z_number)%R.
Proof.
  intros Hinit Hzn Hz Ha Hpre.
  destruct (PGGAN_multi_z_init_inv _ _ _ _ _ _ Hinit) as (Hn & Hd & _ & Hc).
  subst z_number.
  destruct (fused_feature_map_spec self z alpha F B 512
              (Z.to_nat (PGGAN_multi_z.layer_c_number self)) H W)
    as (fused & Hf & Hfs & Hfg); try assumption; try lia.
  exists fused. split; [exact Hf|]. split; [|split; assumption].
  unfold PGGAN_multi_z.forward. by rewrite Hf.
Qed.

Lemma PGGAN_multi_z_forward_fuses_by_mean_witness :
  exists fused : tensor 4,
    PGGAN_multi_z.fused_feature_map example_multi
      [PyTensor (mk 3 example_z); PyTensor (mk 3 example_alpha)]
      = Ok (PyTensor (mk 4 fused)) /\
    get 4 [0; 0; 0; 0]%nat fused
    = (sum_over 2 (fun j => get 4 [0; 0; 0; 0]%nat (code_input example_z j)
                            * get 3 [0; j; 0]%nat example_alpha) / 2)%R.
Proof.
  destruct (PGGAN_multi_z_forward_fuses_by_mean example_gan_utils "PGGAN-CelebA" 0 2
              example_args example_multi example_z example_alpha (code_input example_z)
              1 1 1) as (fused & Hf & _ & _ & Hg).
  - reflexivity.
  - lia.
  - exact (full_n_shape [1; 2; 512]%nat 1%R).
  - exact (full_n_shape [1; 2; 512]%nat (1 / 2)%R).
  - intros j Hj. split; [reflexivity|].
    destruct (select1_spec example_z 1 2 512 j (full_n_shape [1; 2; 512]%nat 1%R) Hj)
      as (_ & Hs & _).
    apply (view_spec (slice1 j example_z) 1 512 Hs). lia.
  - exists fused. split; [exact Hf|].
    apply (Hg 0 0 0 0)%nat; [lia | vm_compute; lia | lia | lia].
Defined.

(** C2 (amended).  For every [batch_size >= 1] and every wrapper
    constructed with [z_number >= 1], [init_value(batch_size)] returns a
    [z_estimate] of shape (batch_size, z_number, z_dim) and an
    [alpha_estimate] of shape (batch_size, z_number, layer_channels) all of
    whose entries are one and the same number: the [float32] nearest to
    the Python [float] [1 / z_number].  That number is [1 / z_number]
    itself when [z_number] is a power of two (up to [2 ** 126]). *)
Theorem PGGAN_multi_z_init_value_uniform_alpha
    (get_gan_model : gan_utils) (gan_model_name : string) (blending_layer z_number : Z)
    (args : args_t) (self : PGGAN_multi_z.t) (batch_size : Z) (g : rng) :
  PGGAN_multi_z.__init__ get_gan_model gan_model_name blending_layer z_number args = Ok self ->
  1 <= batch_size -> 1 <= z_number ->
  exists (z_estimate alpha_estimate : tensor 3) (g' : rng),
    PGGAN_multi_z.init_value self batch_size g
      = Ok ([mk 3 z_estimate; mk 3 alpha_estimate], g') /\
    has_shape 3 [Z.to_nat batch_size; Z.to_nat z_number;
                 Z.to_nat (PGGAN_multi_z.z_dim self)] z_estimate /\
    has_shape 3 [Z.to_nat batch_size; Z.to_nat z_number;
                 Z.to_nat (PGGAN_multi_z.layer_c_number self)] alpha_estimate /\
    Forall (fun v => v = Float.float32 (Float.float64 (1 / IZR z_number)))
      (flatten 3 alpha_estimate) /\
    forall k, 0 <= k <= 126 -> z_number = 2 ^ k ->
      Forall (fun v => v = (1 / IZR z_number)%R) (flatten 3 alpha_estimate).
Proof.
  intros Hinit Hb Hzn.
  destruct (PGGAN_multi_z_init_inv _ _ _ _ _ _ Hinit) as (Hn & Hd & _ & Hc).
  subst z_number.
  destruct (init_value_spec self batch_size g) as (z & alpha & g' & Hrun & Hzs & Has & Hall);
    try lia.
  exists z, alpha, g'. split; [exact Hrun|]. split; [exact Hzs|]. split; [exact Has|].
  split; [exact Hall|]. intros k Hk Hpow.
  eapply Forall_impl; [exact Hall|]. intros v ->.
  rewrite Hpow. by apply float32_inv_pow2.
Qed.

Lemma PGGAN_multi_z_init_value_uniform_alpha_witness :
  exists (z_estimate alpha_estimate : tensor 3) (g' : rng),
    PGGAN_multi_z.init_value example_multi 1 (fun _ => 0%R)
      = Ok ([mk 3 z_estimate; mk 3 alpha_estimate], g') /\
    has_shape 3 [1; 2; 512]%nat alpha_estimate /\
    Forall (fun v => v = (1 / 2)%R) (flatten 3 alpha_estimate).
Proof.
  destruct (PGGAN_multi_z_init_value_uniform_alpha example_gan_utils "PGGAN-CelebA" 0 2
              example_args example_multi 1 (fun _ => 0%R))
    as (z & alpha & g' & Hrun & _ & Hs & _ & Hall).
  - reflexivity.
  - lia.
  - lia.
  - exists z, alpha, g'. split; [exact Hrun|]. split; [exact Hs|].
    exact (Hall 1 ltac:(lia) eq_refl).
Defined.

(** C2 as stated fails: for a wrapper with three codes, the weights that
    [init_value] returns are not [1 / 3]; they are the [float32] nearest
    to it, [11184811 / 33554432]. *)
Lemma PGGAN_multi_z_init_value_exact_counterexample :
  exists (z_estimate alpha_estimate : tensor 3) (g' : rng),
    PGGAN_multi_z.__init__ example_gan_utils "PGGAN-CelebA" 0 3 example_args
      = Ok example_multi3 /\
    PGGAN_multi_z.init_value example_multi3 1 (fun _ => 0%R)
      = Ok ([mk 3 z_estimate; mk 3 alpha_estimate], g') /\
    has_shape 3 [1; 3; 512]%nat alpha_estimate /\
    Forall (fun v => v = (11184811 / 33554432)%R) (flatten 3 alpha_estimate) /\
    ~ Forall (fun v => v = (1 / IZR 3)%R) (flatten 3 alpha_estimate).
Proof.
  destruct (init_value_spec example_multi3 1 (fun _ => 0%R))
    as (z & alpha & g' & Hrun & _ & Has & Hall);
    [lia | cbn; lia | cbn; lia | cbn; lia |].
  exists z, alpha, g'. split; [reflexivity|]. split; [exact Hrun|].
  split; [exact Has|].
  assert (Hval : Forall (fun v => v = (11184811 / 33554432)%R) (flatten 3 alpha)).
  { eapply Forall_impl; [exact Hall|]. intros v ->. exact float32_third. }
  split; [exact Hval|]. intros Hthird.
  assert (Hr : in_range [0; 0; 0]%nat [1; 3; 512]%nat) by (repeat constructor; lia).
  pose proof (get_of_flatten _ 3 _ _ alpha Hval Has Hr) as H1.
  pose proof (get_of_flatten _ 3 _ _ alpha Hthird Has Hr) as H2.
  cbn beta in H1, H2. rewrite H1 in H2. lra.
Qed.

(** C3.  Take a call of [invert] with an iteration count [N > 0] and
    [video=True] that returns (the forward pass, the loss and the
    optimiser raise nothing in the run).  The returned history has exactly
    [N] entries.  Entry [i] consists of tensor objects that are none of
    the live latents, it holds the entries the latents have when a run of
    [i + 1] iterations returns (the state right after optimiser step
    [i + 1]), and no assignment to the live latents after the run changes
    what it holds.  The same call with [video=False] returns the same
    latents and an empty history; and whenever a call with [video=False]
    returns, its history is empty. *)
Theorem invert_history_snapshots {AG : Autograd} (self : GradientDescent.t)
    (generator : Generator) (gt_image : pyval) (loss_function : pyval -> pyval -> res pyval)
    (batch_size : Z) (init_ : list loc) (st : state) :
  0 < GradientDescent.iterations self ->
  valid st init_ ->
  (forall (st' : state) (latents : list loc) (history : list (list loc)),
     GradientDescent.invert self generator gt_image loss_function batch_size true init_ st
       = (st', Ok (latents, history)) ->
     Z.of_nat (length history) = GradientDescent.iterations self /\
     (forall i h, history !! i = Some h ->
        Forall (fun l => l ∉ latents) h /\
        (exists st_i,
           GradientDescent.invert (with_iterations self (Z.of_nat (S i))) generator gt_image
             loss_function batch_size false init_ st = (st_i, Ok (latents, [])) /\
           map (deref st') h = map (deref st_i) latents) /\
        (forall st'', (forall l, l ∉ latents -> heap st'' !! l = heap st' !! l) ->
                      map (deref st'') h = map (deref st') h)) /\
     exists stN,
       GradientDescent.invert self generator gt_image loss_function batch_size false init_ st
         = (stN, Ok (latents, []))) /\
  (forall (stN : state) (latents : list loc) (history : list (list loc)),
     GradientDescent.invert self generator gt_image loss_function batch_size false init_ st
       = (stN, Ok (latents, history)) ->
     history = []).
Proof.
  intros HN Hvi.
  assert (Hsim : forall st0 lat0,
            GradientDescent.initial_latents self generator batch_size init_ st
            = (st0, Ok lat0) ->
            valid (prepared st0 lat0) lat0).
  { intros st0 lat0 Hini. apply valid_prepared.
    exact (initial_latents_valid self generator batch_size init_ st st0 lat0 Hvi Hini). }
  split.
  - intros st' latents history Hrun.
    rewrite invert_run in Hrun.
    destruct (GradientDescent.initial_latents self generator batch_size init_ st)
      as [st0 [lat0|e]] eqn:Hini; [|discriminate].
    pose proof (Hsim st0 lat0 eq_refl) as Hv1.
    rewrite optimise_run in Hrun.
    destruct (optimizer_check (GradientDescent.optimizer self) lat0
                (GradientDescent.lr self)) as [[]|e] eqn:Hchk; [|discriminate].
    set (s1 := prepared st0 lat0) in *.
    set (opt0 := opt_init (GradientDescent.optimizer self) (map (deref s1) lat0)) in *.
    destruct (loop_sim_any self generator gt_image loss_function lat0 opt0 s1 Hv1
                (Z.to_nat (GradientDescent.iterations self)))
      as (sV & sN & extra & Hheap & _ & HlenN &
          [(opt & hist & HrV & HrN & Hlh & Hhist)|(e & HrV & _)]);
      rewrite HrV in Hrun; [|discriminate].
    injection Hrun as <- <- <-.
    assert (Hfresh : forall l, (length (heap s1) <= l)%nat -> l ∉ lat0).
    { intros l Hl Hin. unfold valid in Hv1. rewrite Forall_forall in Hv1.
      specialize (Hv1 l Hin). cbn beta in Hv1. lia. }
    split; [rewrite Hlh; lia|]. split.
    + intros i h Hi. destruct (Hhist i h Hi) as (Hb & sNi & opti & Hri & Hvals).
      assert (Hout : Forall (fun l => l ∉ lat0) h).
      { eapply Forall_impl; [exact Hb|]. intros l Hl. cbn beta in *. apply Hfresh. lia. }
      split; [exact Hout|]. split.
      * exists sNi. split; [|exact Hvals].
        rewrite invert_run.
        change (GradientDescent.initial_latents (with_iterations self (Z.of_nat (S i)))
                  generator batch_size init_ st)
          with (GradientDescent.initial_latents self generator batch_size init_ st).
        rewrite Hini, optimise_run.
        change (GradientDescent.optimizer (with_iterations self (Z.of_nat (S i))))
          with (GradientDescent.optimizer self).
        change (GradientDescent.lr (with_iterations self (Z.of_nat (S i))))
          with (GradientDescent.lr self).
        change (GradientDescent.iterations (with_iterations self (Z.of_nat (S i))))
          with (Z.of_nat (S i)).
        rewrite Hchk, Nat2Z.id. fold s1 opt0.
        change (loop (with_iterations self (Z.of_nat (S i))) generator gt_image loss_function
                  false lat0 opt0 (S i) s1)
          with (loop self generator gt_image loss_function false lat0 opt0 (S i) s1).
        by rewrite Hri.
      * intros st'' Hsame. apply map_ext_Forall.
        eapply Forall_impl; [exact Hout|]. intros l Hl. cbn beta in *.
        unfold deref, lookup_cell. by rewrite (Hsame l Hl).
    + exists sN. rewrite invert_run, Hini, optimise_run, Hchk. fold s1 opt0.
      by rewrite HrN.
  - intros stN latents history Hrun.
    rewrite invert_run in Hrun.
    destruct (GradientDescent.initial_latents self generator batch_size init_ st)
      as [st0 [lat0|e]] eqn:Hini; [|discriminate].
    pose proof (Hsim st0 lat0 eq_refl) as Hv1.
    rewrite optimise_run in Hrun.
    destruct (optimizer_check (GradientDescent.optimizer self) lat0
                (GradientDescent.lr self)) as [[]|e]; [|discriminate].
    destruct (loop_sim_any self generator gt_image loss_function lat0
                (opt_init (GradientDescent.optimizer self)
                   (map (deref (prepared st0 lat0)) lat0))
                (prepared st0 lat0) Hv1
                (Z.to_nat (GradientDescent.iterations self)))
      as (sV & sN & extra & _ & _ & _ &
          [(opt & hist & _ & HrN & _)|(e & _ & HrN)]);
      rewrite HrN in Hrun; [|discriminate].
    by injection Hrun as _ _ <-.
Qed.

(** A run with the sample objects: two iterations from one zero latent. *)
Lemma example_invert_run :
  exists (st' : state) (history : list (list loc)),
    GradientDescent.invert (AG := example_autograd) example_gd (of_PGGAN example_pggan)
      (PyNum 0%R) example_loss 1 true [] example_state
    = (st', Ok ([0%nat], history)).
Proof.
  set (st0 := {| heap := [{| data := mk 2 (full_n [1; 512]%nat 0%R);
                             requires_grad := false |}];
                 gen := fun _ : nat => 0%R |}).
  assert (Hini : GradientDescent.initial_latents example_gd (of_PGGAN example_pggan) 1 []
                   example_state = (st0, Ok [0%nat])) by reflexivity.
  assert (Hv1 : valid (prepared st0 [0%nat]) [0%nat]).
  { apply valid_prepared. repeat constructor. }
  destruct (loop_sim (AG := example_autograd) example_gd (of_PGGAN example_pggan)
              (PyNum 0%R) example_loss [0%nat]
              (opt_init (GradientDescent.optimizer example_gd)
                 (map (deref (prepared st0 [0%nat])) [0%nat]))
              (prepared st0 [0%nat]) Hv1)
    with (k := 2%nat)
    as (sV & sN & opt & hist & extra & HrV & _).
  { intros opt vs Hvs. destruct vs as [|v [|? ?]]; try discriminate Hvs.
    eexists. reflexivity. }
  exists sV, hist.
  rewrite invert_run, Hini, optimise_run, optimizer_check_ok;
    [|cbn; lra|discriminate].
  change (Z.to_nat (GradientDescent.iterations example_gd)) with 2%nat.
  by rewrite HrV.
Qed.

Lemma invert_history_snapshots_witness :
  exists (st' : state) (history : list (list loc)),
    GradientDescent.invert (AG := example_autograd) example_gd (of_PGGAN example_pggan)
      (PyNum 0%R) example_loss 1 true [] example_state
      = (st', Ok ([0%nat], history)) /\
    Z.of_nat (length history) = 2.
Proof.
  destruct example_invert_run as (st' & history & Hrun).
  exists st', history. split; [exact Hrun|].
  destruct (invert_history_snapshots (AG := example_autograd) example_gd
              (of_PGGAN example_pggan) (PyNum 0%R) example_loss 1 [] example_state)
    as [Hvideo _].
  - reflexivity.
  - constructor.
  - exact (proj1 (Hvideo st' [0%nat] history Hrun)).
Defined.

(** C4 (amended).  Calling the generator factory with a [generator_type]
    that is neither ['PGGAN-z'] nor ['PGGAN-Multi-Z'] raises a plain
    [Exception] whose message is the fixed text "Please indicate valid
    `generator_type`", whatever value was passed. *)
Theorem get_derivable_generator_unknown (get_gan_model : gan_utils)
    (gan_model_name generator_type : string) (args : args_t) :
  generator_type <> "PGGAN-z"%string -> generator_type <> "PGGAN-Multi-Z"%string ->
  get_derivable_generator get_gan_model gan_model_name generator_type args
  = Raise (Exception "Please indicate valid `generator_type`").
Proof.
  intros H1 H2. unfold get_derivable_generator.
  destruct (String.eqb_spec generator_type "PGGAN-z"); [contradiction|].
  destruct (String.eqb_spec generator_type "PGGAN-Multi-Z"); [contradiction|].
  reflexivity.
Qed.

Lemma get_derivable_generator_unknown_witness :
  get_derivable_generator example_gan_utils "PGGAN-CelebA" "StyleGAN" example_args
  = Raise (Exception "Please indicate valid `generator_type`").
Proof. apply get_derivable_generator_unknown; discriminate. Defined.

(** C4 as stated fails: for the unknown type "StyleGAN" the factory raises
    no error whose message contains "StyleGAN". *)
Lemma get_derivable_generator_message_counterexample :
  ~ (exists e,
       get_derivable_generator example_gan_utils "PGGAN-CelebA" "StyleGAN" example_args
       = Raise e /\
       Py.contains (exn_message e) "StyleGAN" = true).
Proof.
  intros [e [He Hc]]. vm_compute in He. injection He as <-. vm_compute in Hc. discriminate.
Qed.

(** C5.  Constructing the frozen generator with a resolution outside
    {8, 16, 32, 64, 128, 256, 512, 1024} raises a [ValueError] from the
    constructor itself, whatever the other arguments; with a resolution of
    that set, and positive channel counts at every stage, the constructor
    returns a network of that resolution. *)
Theorem PGGANGeneratorNet_resolution_check
    (resolution z_space_dim image_channels : Z) (fused_scale : bool)
    (fmaps_base fmaps_max : Z) :
  (~ allowed resolution ->
   PGGANGeneratorNet.__init__ resolution z_space_dim image_channels fused_scale
     fmaps_base fmaps_max
   = Raise (ValueError
              ("Invalid resolution: " ++ Py.str resolution ++ "!" ++ newline ++
               "Resolutions allowed: [8, 16, 32, 64, 128, 256, 512, 1024].")%string)) /\
  (allowed resolution ->
   0 < z_space_dim -> 0 < image_channels -> 1024 <= fmaps_base -> 0 < fmaps_max ->
   exists net, PGGANGeneratorNet.__init__ resolution z_space_dim image_channels fused_scale
                 fmaps_base fmaps_max = Ok net /\
               PGGANGeneratorNet.resolution net = resolution).
Proof.
  split.
  - intros Hno. unfold PGGANGeneratorNet.__init__.
    destruct (existsb (Z.eqb resolution) _RESOLUTIONS_ALLOWED) eqn:E.
    + exfalso. by apply Hno, allowed_existsb.
    + reflexivity.
  - intros Hyes Hz Hi Hb Hm. unfold PGGANGeneratorNet.__init__.
    apply allowed_existsb in Hyes. rewrite Hyes. cbn [negb].
    destruct (res_foldM_ok
                (PGGANGeneratorNet.build_stage _INIT_RES (int_log2 _INIT_RES)
                   (int_log2 resolution) z_space_dim image_channels fused_scale
                   fmaps_base fmaps_max)
                (Py.range2 (int_log2 _INIT_RES) (int_log2 resolution + 1)))
      with (a := (@nil (string * module),
                  ({[ "lod"%string := "lod"%string ]} : gmap string string)))
      as [[mods mapping] Hfold].
    { intros a x. apply build_stage_ok; lia. }
    rewrite Hfold. cbn. eauto.
Qed.

Lemma PGGANGeneratorNet_resolution_check_witness :
  (exists msg, PGGANGeneratorNet.__init__ 100 512 3 false 16384 512 = Raise (ValueError msg)) /\
  (exists net, PGGANGeneratorNet.__init__ 1024 512 3 false 16384 512 = Ok net /\
               PGGANGeneratorNet.resolution net = 1024).
Proof.
  split.
  - eexists. apply (PGGANGeneratorNet_resolution_check 100 512 3 false 16384 512).
    unfold allowed. cbn. lia.
  - apply (PGGANGeneratorNet_resolution_check 1024 512 3 false 16384 512);
      [unfold allowed; cbn; tauto | lia | lia | lia | lia].
Defined.

(** C6.  When explicit initial latents are supplied to [invert], the
    latents are bound to them, and the run goes on to the optimisation,
    exactly when their count is the length of the generator's declared
    input-size list; with any other count [invert] fails on the assertion
    among its first statements, with the heap and the random generator
    untouched, so before any iteration. *)
Theorem invert_checks_init_count {AG : Autograd} (self : GradientDescent.t)
    (generator : Generator) (gt_image : pyval) (loss_function : pyval -> pyval -> res pyval)
    (batch_size : Z) (video : bool) (init_ : list loc) (st : state) :
  init_ <> [] ->
  (GradientDescent.initial_latents self generator batch_size init_ st = (st, Ok init_)
   <-> length init_ = length (input_size generator)) /\
  (length init_ = length (input_size generator) ->
   GradientDescent.invert self generator gt_image loss_function batch_size video init_ st
   = match GradientDescent.optimise self generator gt_image loss_function video init_ st with
     | (st', Ok (_, history)) => (st', Ok (init_, history))
     | (st', Raise e) => (st', Raise e)
     end) /\
  (length init_ <> length (input_size generator) ->
   GradientDescent.initial_latents self generator batch_size init_ st
   = (st, Raise (AssertionError "Please check the number of init value")) /\
   GradientDescent.invert self generator gt_image loss_function batch_size video init_ st
   = (st, Raise (AssertionError "Please check the number of init value"))).
Proof.
  intros Hne. rewrite invert_run, (initial_latents_given self generator batch_size init_ st Hne).
  destruct (Nat.eqb_spec (length init_) (length (input_size generator))) as [Heq|Hneq].
  - split; [tauto|]. split; [reflexivity|contradiction].
  - split; [|split; [contradiction|by split]].
    split; [discriminate|contradiction].
Qed.

Lemma invert_checks_init_count_witness :
  GradientDescent.invert (AG := example_autograd) example_gd (of_PGGAN example_pggan)
    (PyNum 0%R) example_loss 1 false [0%nat; 0%nat] example_state1
  = (example_state1, Raise (AssertionError "Please check the number of init value")).
Proof.
  apply (invert_checks_init_count (AG := example_autograd) example_gd (of_PGGAN example_pggan)
           (PyNum 0%R) example_loss 1 false [0%nat; 0%nat] example_state1).
  - discriminate.
  - cbn. lia.
Defined.

(** C7.  For every latent [z], the forward pass of the single-code wrapper
    on the one-element list [[z]] is the call of the frozen generator on
    [z] itself, and [input_size()] is the one shape [(512,)]. *)
Theorem PGGAN_forward_passthrough (self : PGGAN.t) (z : pyval) :
  PGGAN.forward self [z] = call (PGGAN.pggan self) z /\
  PGGAN.input_size self = [[512]].
Proof. split; reflexivity. Qed.

(** C8 (amended).  The pixel-wise normalisation maps an input of shape
    (B, C, H, W) to a tensor of that shape in which every entry is the
    input entry divided by the square root of (the mean over the channels
    of the squared entries at that position, plus epsilon): the constant
    is added under the root. *)
Theorem PixelNormLayer_forward_divides_by_root_of_mean_plus_eps
    (self : PixelNormLayer.t) (x : tensor 4) (B C H W : nat) :
  has_shape 4 [B; C; H; W] x -> (0 < C)%nat ->
  exists y : tensor 4,
    PixelNormLayer.forward self (mk 4 x) = Ok (mk 4 y) /\
    has_shape 4 [B; C; H; W] y /\
    forall b c h w, (b < B)%nat -> (c < C)%nat -> (h < H)%nat -> (w < W)%nat ->
      get 4 [b; c; h; w] y
      = (get 4 [b; c; h; w] x
         / R_sqrt.sqrt (mean_square 2 x C b [h; w] + PixelNormLayer.eps self))%R.
Proof.
  intros Hx HC.
  destruct (PixelNormLayer_forward_spec self 2 [H; W] x B C Hx HC) as (y & Hy & Hys & Hyg).
  exists y. split; [exact Hy|]. split; [exact Hys|].
  intros b c h w Hb Hc Hh Hw. apply Hyg; try assumption. repeat constructor; assumption.
Qed.

Lemma PixelNormLayer_forward_divides_by_root_of_mean_plus_eps_witness :
  exists y : tensor 4,
    PixelNormLayer.forward (PixelNormLayer.__init__ PixelNormLayer.default_epsilon)
      (mk 4 example_pixel) = Ok (mk 4 y) /\
    get 4 [0; 0; 0; 0]%nat y
    = (1e-4 / R_sqrt.sqrt (mean_square 2 example_pixel 1 0 [0; 0]%nat + 1e-8))%R.
Proof.
  destruct (PixelNormLayer_forward_divides_by_root_of_mean_plus_eps
              (PixelNormLayer.__init__ PixelNormLayer.default_epsilon) example_pixel 1 1 1 1)
    as (y & Hy & _ & Hg).
  - repeat constructor.
  - lia.
  - exists y. split; [exact Hy|]. apply (Hg 0 0 0 0)%nat; lia.
Defined.

(** C8 as stated fails: on a single pixel with one channel of value 1e-4
    and epsilon 1e-8, the output is not the input divided by (the
    root-mean-square plus epsilon). *)
Lemma PixelNormLayer_rms_plus_eps_counterexample :
  exists y : tensor 4,
    PixelNormLayer.forward (PixelNormLayer.__init__ PixelNormLayer.default_epsilon)
      (mk 4 example_pixel) = Ok (mk 4 y) /\
    get 4 [0; 0; 0; 0]%nat y
    <> (get 4 [0; 0; 0; 0]%nat example_pixel
        / (R_sqrt.sqrt (mean_square 2 example_pixel 1 0 [0; 0]%nat) + 1e-8))%R.
Proof.
  destruct (PixelNormLayer_forward_spec
              (PixelNormLayer.__init__ PixelNormLayer.default_epsilon) 2 [1; 1]%nat
              example_pixel 1 1)
    as (y & Hy & _ & Hg); [repeat constructor | lia |].
  exists y. split; [exact Hy|].
  rewrite (Hg 0 0 [0; 0])%nat by (repeat constructor; lia).
  assert (Hms : mean_square 2 example_pixel 1 0 [0; 0]%nat = (1e-4 * 1e-4)%R).
  { unfold mean_square, sum_over, Rsum, example_pixel. cbn. lra. }
  rewrite Hms.
  change (get 4 [0; 0; 0; 0]%nat example_pixel) with 1e-4%R.
  change (PixelNormLayer.eps (PixelNormLayer.__init__ PixelNormLayer.default_epsilon))
    with 1e-8%R.
  rewrite (sqrt_square 1e-4) by lra.
  intros Heq.
  assert (Hpos : (0 < 1e-4 * 1e-4 + 1e-8)%R) by lra.
  pose proof (sqrt_lt_R0 _ Hpos) as Hs.
  pose proof (sqrt_sqrt (1e-4 * 1e-4 + 1e-8)%R (Rlt_le _ _ Hpos)) as Hss.
  assert (Hroot : R_sqrt.sqrt (1e-4 * 1e-4 + 1e-8) = (1e-4 + 1e-8)%R).
  { set (s := R_sqrt.sqrt (1e-4 * 1e-4 + 1e-8)) in *.
    assert (H1 : (1e-4 / s * s = 1e-4)%R) by (field; lra).
    assert (H2 : (1e-4 / (1e-4 + 1e-8) * (1e-4 + 1e-8) = 1e-4)%R) by (field; lra).
    rewrite Heq in H1.
    apply (Rmult_eq_reg_l (1e-4 / (1e-4 + 1e-8))%R); [lra|].
    apply Rgt_not_eq. apply Rdiv_lt_0_compat; lra. }
  rewrite Hroot in Hss. lra.
Qed.

(** C9 (amended).  If [invert] is called with no explicit initial latents
    on a generator whose [init] is [False], and the configured [init_type]
    is neither ['Zero'] nor ['Normal'], then [latent_estimate] is bound to
    the empty list, no tensor is allocated, and [invert] fails with the
    [ValueError] of the optimiser constructor, with the heap untouched and
    before any iteration. *)
Theorem invert_unknown_init_type_fails_in_optimizer {AG : Autograd}
    (self : GradientDescent.t) (generator : Generator) (gt_image : pyval)
    (loss_function : pyval -> pyval -> res pyval) (batch_size : Z) (video : bool)
    (st : state) :
  init generator = false ->
  GradientDescent.init_type self <> "Zero"%string ->
  GradientDescent.init_type self <> "Normal"%string ->
  GradientDescent.initial_latents self generator batch_size [] st = (st, Ok []) /\
  exists msg,
    GradientDescent.invert self generator gt_image loss_function batch_size video [] st
    = (st, Raise (ValueError msg)).
Proof. apply invert_unknown_init_type. Qed.

Lemma invert_unknown_init_type_fails_in_optimizer_witness :
  exists msg,
    GradientDescent.invert (AG := example_autograd) example_gd_uniform
      (of_PGGAN example_pggan) (PyNum 0%R) example_loss 1 false [] example_state
    = (example_state, Raise (ValueError msg)).
Proof.
  apply (invert_unknown_init_type_fails_in_optimizer (AG := example_autograd)
           example_gd_uniform (of_PGGAN example_pggan) (PyNum 0%R) example_loss 1 false
           example_state); [reflexivity | discriminate | discriminate].
Defined.

(** C9 as stated fails: with the fill strategy "Uniform" on the
    single-code wrapper, [invert] does not end in an unbound-variable
    error. *)
Lemma invert_unbound_variable_counterexample :
  ~ (exists st' name,
       GradientDescent.invert (AG := example_autograd) example_gd_uniform
         (of_PGGAN example_pggan) (PyNum 0%R) example_loss 1 false [] example_state
       = (st', Raise (UnboundLocalError name))).
Proof.
  intros (st' & name & Hrun).
  destruct (invert_unknown_init_type (AG := example_autograd) example_gd_uniform
              (of_PGGAN example_pggan) (PyNum 0%R) example_loss 1 false example_state)
    as [_ [msg Hmsg]]; [reflexivity | discriminate | discriminate |].
  rewrite Hmsg in Hrun. discriminate Hrun.
Qed.

(** C10.  For an [inversion_type] other than ['GD'] and ['Adam'],
    [get_inversion] raises nothing and returns [None]; the error appears
    when the caller calls [invert] on that value. *)
Theorem get_inversion_unknown_returns_None (inversion_type : string) (args : args_t) :
  inversion_type <> "GD"%string -> inversion_type <> "Adam"%string ->
  get_inversion inversion_type args = None /\
  forall (AG : Autograd) generator gt_image loss_function batch_size video init_ st,
    call_invert (get_inversion inversion_type args) generator gt_image loss_function
      batch_size video init_ st
    = (st, Raise (AttributeError "'NoneType' object has no attribute 'invert'")).
Proof.
  intros HGD HAdam.
  assert (Hnone : get_inversion inversion_type args = None).
  { unfold get_inversion.
    destruct (String.eqb_spec inversion_type "GD"); [contradiction|].
    destruct (String.eqb_spec inversion_type "Adam"); [contradiction|].
    reflexivity. }
  split; [exact Hnone|]. intros. by rewrite Hnone.
Qed.

Lemma get_inversion_unknown_returns_None_witness :
  get_inversion "LBFGS" example_args = None.
Proof. apply (get_inversion_unknown_returns_None "LBFGS" example_args); discriminate. Defined.

(** * Further properties of the three sources *)

(** X1.  The number of feature maps never grows with the resolution and
    never exceeds [fmaps_max]: for [0 <= fmaps_base] and resolutions
    [0 < res1 <= res2], [get_nf res2 <= get_nf res1 <= fmaps_max]. *)
Theorem get_nf_narrows (fmaps_base fmaps_max res1 res2 : Z) :
  0 <= fmaps_base -> 0 < res1 -> res1 <= res2 ->
  PGGANGeneratorNet.get_nf fmaps_base fmaps_max res2
  <= PGGANGeneratorNet.get_nf fmaps_base fmaps_max res1 /\
  PGGANGeneratorNet.get_nf fmaps_base fmaps_max res1 <= fmaps_max.
Proof.
  intros Hb H1 H12. unfold PGGANGeneratorNet.get_nf. split; [|apply Z.le_min_r].
  apply Z.min_le_compat_r. apply Z.div_le_compat_l; lia.
Qed.

Lemma get_nf_narrows_witness :
  PGGANGeneratorNet.get_nf 16384 512 1024 <= PGGANGeneratorNet.get_nf 16384 512 64 /\
  PGGANGeneratorNet.get_nf 16384 512 64 <= 512.
Proof. apply get_nf_narrows; lia. Defined.

Lemma ConvBlock_init_run (in_channels out_channels kernel_size stride padding dilation : Z)
    (add_bias upsample fused_scale : bool) (gain : R) (activation_type : string) :
  0 <= in_channels -> 0 <= out_channels -> 0 <= kernel_size ->
  ConvBlock.__init__ in_channels out_channels kernel_size stride padding dilation
    add_bias upsample fused_scale gain activation_type
  = (act ← ConvBlock.select_activation activation_type;
     Ok {| ConvBlock.pixel_norm := PixelNormLayer.__init__ PixelNormLayer.default_epsilon;
           ConvBlock.upsample :=
             if upsample && negb fused_scale
             then Upsample (ResolutionScalingLayer.__init__ 2) else UpIdentity;
           ConvBlock.use_conv2d_transpose := upsample && fused_scale;
           ConvBlock.weight :=
             if upsample && fused_scale
             then Some (map Z.to_nat [kernel_size; kernel_size; in_channels; out_channels])
             else None;
           ConvBlock.scale :=
             if upsample && fused_scale
             then Some (gain / R_sqrt.sqrt (IZR (in_channels * kernel_size * kernel_size)))%R
             else None;
           ConvBlock.conv :=
             if upsample && fused_scale then None
             else Some {| Conv2d.in_channels := in_channels;
                          Conv2d.out_channels := out_channels;
                          Conv2d.kernel_size := kernel_size; Conv2d.stride := stride;
                          Conv2d.padding := padding; Conv2d.dilation := dilation;
                          Conv2d.groups := 1; Conv2d.bias := add_bias |};
           ConvBlock.wscale :=
             {| WScaleLayer.scale :=
                  (gain / R_sqrt.sqrt (IZR (in_channels * kernel_size * kernel_size)))%R;
                WScaleLayer.bias := mk 1 (repeat 0%R (Z.to_nat out_channels)) |};
           ConvBlock.activate := act |}).
Proof.
  intros Hi Ho Hk. unfold ConvBlock.__init__, Conv2d.__init__, WScaleLayer.__init__,
    Torch.zeros, Torch.full.
  rewrite Z.div_1_r.
  rewrite !check_size_ok by (repeat constructor; assumption).
  destruct (upsample && fused_scale); cbn [mbind res_bind];
    destruct (ConvBlock.select_activation activation_type); reflexivity.
Qed.

(** X2.  For positive channel numbers and kernel size, the constructor of a
    convolutional block raises [NotImplementedError] with the message
    "Not implemented activation function: <activation_type>!" for every
    activation type other than ['linear'], ['lrelu'] and ['tanh']; when it
    returns, the activation layer is the identity for ['linear'], a leaky
    ReLU of slope 0.2 applied in place for ['lrelu'], and a hard tanh for
    ['tanh']. *)
Theorem ConvBlock_init_activation
    (in_channels out_channels kernel_size stride padding dilation : Z)
    (add_bias upsample fused_scale : bool) (gain : R) (activation_type : string) :
  0 < in_channels -> 0 < out_channels -> 0 < kernel_size ->
  (activation_type <> "linear"%string -> activation_type <> "lrelu"%string ->
   activation_type <> "tanh"%string ->
   ConvBlock.__init__ in_channels out_channels kernel_size stride padding dilation
     add_bias upsample fused_scale gain activation_type
   = Raise (NotImplementedError
              ("Not implemented activation function: " ++ activation_type ++ "!")%string)) /\
  (forall b,
     ConvBlock.__init__ in_channels out_channels kernel_size stride padding dilation
       add_bias upsample fused_scale gain activation_type = Ok b ->
     (activation_type = "linear"%string /\ ConvBlock.activate b = Identity) \/
     (activation_type = "lrelu"%string /\ ConvBlock.activate b = LeakyReLU 0.2%R true) \/
     (activation_type = "tanh"%string /\ ConvBlock.activate b = Hardtanh)).
Proof.
  intros Hi Ho Hk. rewrite ConvBlock_init_run by lia.
  unfold ConvBlock.select_activation.
  destruct (String.eqb_spec activation_type "linear") as [->|H1].
  { split; [intros; contradiction|]. intros b [= <-]. left. by split. }
  destruct (String.eqb_spec activation_type "lrelu") as [->|H2].
  { split; [intros; contradiction|]. intros b [= <-]. right. left. by split. }
  destruct (String.eqb_spec activation_type "tanh") as [->|H3].
  { split; [intros; contradiction|]. intros b [= <-]. right. right. by split. }
  split; [reflexivity|discriminate].
Qed.

Lemma ConvBlock_init_activation_witness :
  ConvBlock.__init__ 512 512 3 1 1 1 false false false 1%R "relu"
  = Raise (NotImplementedError "Not implemented activation function: relu!").
Proof.
  apply (ConvBlock_init_activation 512 512 3 1 1 1 false false false 1%R "relu");
    try lia; discriminate.
Defined.

Lemma ConvBlock_init_inv
    (in_channels out_channels kernel_size stride padding dilation : Z)
    (add_bias upsample fused_scale : bool) (gain : R) (activation_type : string)
    (b : ConvBlock.t) :
  ConvBlock.__init__ in_channels out_channels kernel_size stride padding dilation
    add_bias upsample fused_scale gain activation_type = Ok b ->
  exists ws act,
    b = {| ConvBlock.pixel_norm := PixelNormLayer.__init__ PixelNormLayer.default_epsilon;
           ConvBlock.upsample :=
             if upsample && negb fused_scale
             then Upsample (ResolutionScalingLayer.__init__ 2) else UpIdentity;
           ConvBlock.use_conv2d_transpose := upsample && fused_scale;
           ConvBlock.weight :=
             if upsample && fused_scale
             then Some (map Z.to_nat [kernel_size; kernel_size; in_channels; out_channels])
             else None;
           ConvBlock.scale :=
             if upsample && fused_scale
             then Some (gain / R_sqrt.sqrt (IZR (in_channels * kernel_size * kernel_size)))%R
             else None;
           ConvBlock.conv :=
             if upsample && fused_scale then None
             else Some {| Conv2d.in_channels := in_channels;
                          Conv2d.out_channels := out_channels;
                          Conv2d.kernel_size := kernel_size; Conv2d.stride := stride;
                          Conv2d.padding := padding; Conv2d.dilation := dilation;
                          Conv2d.groups := 1; Conv2d.bias := add_bias |};
           ConvBlock.wscale := ws;
           ConvBlock.activate := act |}.
Proof.
  unfold ConvBlock.__init__, Conv2d.__init__.
  destruct (upsample && fused_scale).
  - destruct (Torch.check_size _) as [shape|] eqn:E; [|discriminate]. cbn [mbind res_bind].
    destruct (WScaleLayer.__init__ _ _ _ _) as [ws|]; [|discriminate]. cbn [mbind res_bind].
    destruct (ConvBlock.select_activation _) as [act|]; [|discriminate]. cbn [mbind res_bind].
    intros [= <-]. exists ws, act. f_equal.
    unfold Torch.check_size in E. destruct (forallb _ _); [|discriminate]. by injection E as <-.
  - destruct (Torch.check_size _) as [shape|]; [|discriminate]. cbn [mbind res_bind].
    destruct (WScaleLayer.__init__ _ _ _ _) as [ws|]; [|discriminate]. cbn [mbind res_bind].
    destruct (ConvBlock.select_activation _) as [act|]; [|discriminate]. cbn [mbind res_bind].
    intros [= <-]. by exists ws, act.
Qed.

(** X3.  A constructed convolutional block uses the transposed convolution
    exactly when both [upsample] and [fused_scale] are set.  It then has
    no [conv] child and no separate upsampling layer, and owns a kernel of
    extents (kernel_size, kernel_size, in_channels, out_channels);
    otherwise it has no kernel or scale of its own and its [conv] child
    carries the channel numbers, kernel size and bias flag it was given.
    The upsampling layer is a nearest-neighbour layer of factor 2 exactly
    when [upsample] is set and [fused_scale] is not. *)
Theorem ConvBlock_init_layout
    (in_channels out_channels kernel_size stride padding dilation : Z)
    (add_bias upsample fused_scale : bool) (gain : R) (activation_type : string)
    (b : ConvBlock.t) :
  ConvBlock.__init__ in_channels out_channels kernel_size stride padding dilation
    add_bias upsample fused_scale gain activation_type = Ok b ->
  ConvBlock.use_conv2d_transpose b = upsample && fused_scale /\
  (ConvBlock.use_conv2d_transpose b = true ->
   ConvBlock.conv b = None /\ ConvBlock.upsample b = UpIdentity /\
   ConvBlock.weight b
   = Some (map Z.to_nat [kernel_size; kernel_size; in_channels; out_channels])) /\
  (ConvBlock.use_conv2d_transpose b = false ->
   ConvBlock.weight b = None /\ ConvBlock.scale b = None /\
   exists c, ConvBlock.conv b = Some c /\
             Conv2d.in_channels c = in_channels /\ Conv2d.out_channels c = out_channels /\
             Conv2d.kernel_size c = kernel_size /\ Conv2d.bias c = add_bias) /\
  (ConvBlock.upsample b = Upsample (ResolutionScalingLayer.__init__ 2)
   <-> upsample = true /\ fused_scale = false).
Proof.
  intros Hb. apply ConvBlock_init_inv in Hb as (ws & act & ->). cbn.
  destruct upsample, fused_scale; cbn; (split; [reflexivity|]);
    (split; [intros; first [discriminate | by repeat split]|]);
    (split; [intros; first [discriminate | (split; [reflexivity|]; split; [reflexivity|];
                                            eexists; by repeat split)]|]);
    split; first [by intros [? ?] | discriminate | by intros _; split | idtac].
Qed.

Lemma ConvBlock_init_layout_witness :
  exists b, ConvBlock.__init__ 512 256 3 1 1 1 false true true 1%R "lrelu" = Ok b /\
            ConvBlock.use_conv2d_transpose b = true /\ ConvBlock.conv b = None.
Proof.
  pose proof (ConvBlock_init_run 512 256 3 1 1 1 false true true 1%R "lrelu"
                ltac:(lia) ltac:(lia) ltac:(lia)) as Hrun.
  cbn [ConvBlock.select_activation String.eqb Ascii.eqb Bool.eqb mbind res_bind] in Hrun.
  eexists. split; [exact Hrun|].
  destruct (ConvBlock_init_layout 512 256 3 1 1 1 false true true 1%R "lrelu" _ Hrun)
    as (H1 & H2 & _).
  split; [exact H1|]. by destruct (H2 H1).
Defined.

Lemma add_module_names (ms : list (string * module)) (name : string) (m : module) :
  map fst (add_module ms name m) = add_name (map fst ms) name.
Proof.
  unfold add_name. induction ms as [|[k v] ms IH]; [reflexivity|].
  cbn [add_module map fst]. destruct (String.eqb_spec k name) as [->|Hne].
  - rewrite bool_decide_eq_true_2 by (apply elem_of_cons; by left). reflexivity.
  - cbn [map fst]. rewrite IH. destruct (bool_decide (name ∈ map fst ms)) eqn:E.
    + apply bool_decide_eq_true_1 in E.
      rewrite bool_decide_eq_true_2 by (apply elem_of_cons; by right). reflexivity.
    + apply bool_decide_eq_false_1 in E.
      rewrite bool_decide_eq_false_2; [reflexivity|].
      intros [?|?]%elem_of_cons; [congruence|contradiction].
Qed.

Lemma build_stage_inv (init_res init_res_log2 final_res_log2 z_space_dim image_channels : Z)
    (fused_scale : bool) (fmaps_base fmaps_max : Z)
    (mods mods' : list (string * module)) (mapping mapping' : gmap string string)
    (res_log2 : Z) :
  PGGANGeneratorNet.build_stage init_res init_res_log2 final_res_log2 z_space_dim
    image_channels fused_scale fmaps_base fmaps_max (mods, mapping) res_log2
  = Ok (mods', mapping') ->
  map fst mods' = stage_names init_res_log2 (map fst mods) res_log2 /\
  mapping' = stage_mapping init_res init_res_log2 final_res_log2 fused_scale mapping res_log2.
Proof.
  unfold PGGANGeneratorNet.build_stage, stage_names, stage_mapping, block_names.
  cbn [fold_left].
  destruct (2 ^ res_log2 =? init_res).
  - repeat match goal with
           | |- context [ConvBlock.__init__ ?a ?b ?c ?d ?e ?f ?g ?h ?i ?j ?k] =>
               destruct (ConvBlock.__init__ a b c d e f g h i j k)
           end; cbn [mbind res_bind]; try discriminate.
    intros [= <- <-]. rewrite !add_module_names. by split.
  - repeat match goal with
           | |- context [ConvBlock.__init__ ?a ?b ?c ?d ?e ?f ?g ?h ?i ?j ?k] =>
               destruct (ConvBlock.__init__ a b c d e f g h i j k)
           end; cbn [mbind res_bind]; try discriminate.
    intros [= <- <-]. rewrite !add_module_names. by split.
Qed.

Lemma build_loop_inv (init_res init_res_log2 final_res_log2 z_space_dim image_channels : Z)
    (fused_scale : bool) (fmaps_base fmaps_max : Z) (rs : list Z) :
  forall (mods mods' : list (string * module)) (mapping mapping' : gmap string string),
    res_foldM
      (PGGANGeneratorNet.build_stage init_res init_res_log2 final_res_log2 z_space_dim
         image_channels fused_scale fmaps_base fmaps_max) (mods, mapping) rs
    = Ok (mods', mapping') ->
    map fst mods' = fold_left (stage_names init_res_log2) rs (map fst mods) /\
    mapping'
    = fold_left (stage_mapping init_res init_res_log2 final_res_log2 fused_scale) rs mapping.
Proof.
  induction rs as [|r rs IH]; intros mods mods' mapping mapping'.
  - cbn. intros [= <- <-]. by split.
  - cbn [res_foldM fold_left].
    destruct (PGGANGeneratorNet.build_stage _ _ _ _ _ _ _ _ _ r) as [[mods1 mapping1]|] eqn:E;
      [|discriminate].
    apply build_stage_inv in E as [Hn Hm]. intros H. apply IH in H as [-> ->].
    by rewrite Hn, Hm.
Qed.

(** What a successful construction fixes. *)
Lemma PGGANGeneratorNet_init_inv (resolution z_space_dim image_channels : Z)
    (fused_scale : bool) (fmaps_base fmaps_max : Z) (net : PGGANGeneratorNet.t) :
  PGGANGeneratorNet.__init__ resolution z_space_dim image_channels fused_scale
    fmaps_base fmaps_max = Ok net ->
  allowed resolution /\
  map fst (PGGANGeneratorNet._modules net)
  = add_name (fold_left (stage_names 2) (Py.range2 2 (Z.log2 resolution + 1)) []) "upsample" /\
  PGGANGeneratorNet.pth_to_tf_var_mapping net = expected_mapping resolution fused_scale /\
  PGGANGeneratorNet.init_res_log2 net = 2 /\
  PGGANGeneratorNet.final_res_log2 net = Z.log2 resolution /\
  PGGANGeneratorNet.lod net = 0%R /\
  PGGANGeneratorNet.z_space_dim net = z_space_dim /\
  PGGANGeneratorNet.resolution net = resolution.
Proof.
  unfold PGGANGeneratorNet.__init__.
  destruct (existsb (Z.eqb resolution) _RESOLUTIONS_ALLOWED) eqn:E; [|discriminate].
  cbn [negb]. apply allowed_existsb in E.
  destruct (res_foldM _ _ _) as [[mods mapping]|] eqn:F; [|discriminate].
  cbn [mbind res_bind]. intros [= <-]. cbn.
  apply build_loop_inv in F as [Hn ->].
  split; [exact E|]. rewrite add_module_names, Hn. repeat split.
Qed.

Lemma allowed_cases (resolution : Z) :
  allowed resolution ->
  resolution = 8 \/ resolution = 16 \/ resolution = 32 \/ resolution = 64 \/
  resolution = 128 \/ resolution = 256 \/ resolution = 512 \/ resolution = 1024.
Proof. unfold allowed. cbn. intuition. Qed.

Lemma PGGANGeneratorNet_init_names (resolution z_space_dim image_channels : Z)
    (fused_scale : bool) (fmaps_base fmaps_max : Z) (net : PGGANGeneratorNet.t) :
  PGGANGeneratorNet.__init__ resolution z_space_dim image_channels fused_scale
    fmaps_base fmaps_max = Ok net ->
  map fst (PGGANGeneratorNet._modules net) = module_names resolution.
Proof.
  intros Hnet. apply PGGANGeneratorNet_init_inv in Hnet as (Hall & Hn & _).
  rewrite Hn. apply allowed_cases in Hall.
  repeat (destruct Hall as [->|Hall]; [by vm_compute|]). subst. by vm_compute.
Qed.

(** X4.  The children of a constructed generator are, in order,
    [layer0, layer1, output0, layer2, layer3, output1, ...] for every stage,
    followed by [upsample]: three per stage and one more, with
    [log2 resolution - 1] stages; [num_layers] is twice the number of
    stages. *)
Theorem PGGANGeneratorNet_children_order (resolution z_space_dim image_channels : Z)
    (fused_scale : bool) (fmaps_base fmaps_max : Z) (net : PGGANGeneratorNet.t) :
  PGGANGeneratorNet.__init__ resolution z_space_dim image_channels fused_scale
    fmaps_base fmaps_max = Ok net ->
  map fst (PGGANGeneratorNet._modules net) = module_names resolution /\
  Z.of_nat (length (PGGANGeneratorNet._modules net)) = 3 * (Z.log2 resolution - 1) + 1 /\
  PGGANGeneratorNet.num_layers net = 2 * (Z.log2 resolution - 1).
Proof.
  intros Hnet.
  assert (Hnl : PGGANGeneratorNet.num_layers net = 2 * (Z.log2 resolution - 1)).
  { revert Hnet. unfold PGGANGeneratorNet.__init__.
    destruct (negb _); [discriminate|]. destruct (res_foldM _ _ _) as [[mods mapping]|];
      [|discriminate]. cbn [mbind res_bind]. intros [= <-].
    cbn [PGGANGeneratorNet.num_layers]. unfold int_log2, _INIT_RES.
    change (Z.log2 4) with 2. lia. }
  pose proof (PGGANGeneratorNet_init_names _ _ _ _ _ _ _ Hnet) as Hnames.
  apply PGGANGeneratorNet_init_inv in Hnet as (Hall & Hn & _).
  split; [exact Hnames|]. split; [|exact Hnl].
  rewrite <- (length_map fst), Hnames. clear Hnames Hn.
  apply allowed_cases in Hall.
  repeat (destruct Hall as [->|Hall]; [by vm_compute|]). subst. by vm_compute.
Qed.

Lemma PGGANGeneratorNet_init_ok (resolution z_space_dim image_channels : Z)
    (fused_scale : bool) (fmaps_base fmaps_max : Z) :
  allowed resolution ->
  0 <= z_space_dim -> 0 <= image_channels -> 0 <= fmaps_base -> 0 <= fmaps_max ->
  exists net, PGGANGeneratorNet.__init__ resolution z_space_dim image_channels fused_scale
                fmaps_base fmaps_max = Ok net.
Proof.
  intros Hyes Hz Hi Hb Hm. unfold PGGANGeneratorNet.__init__.
  apply allowed_existsb in Hyes. rewrite Hyes. cbn [negb].
  destruct (res_foldM_ok
              (PGGANGeneratorNet.build_stage _INIT_RES (int_log2 _INIT_RES)
                 (int_log2 resolution) z_space_dim image_channels fused_scale
                 fmaps_base fmaps_max)
              (Py.range2 (int_log2 _INIT_RES) (int_log2 resolution + 1)))
    with (a := (@nil (string * module),
                ({[ "lod"%string := "lod"%string ]} : gmap string string)))
    as [[mods mapping] Hfold].
  { intros a x. by apply build_stage_ok. }
  rewrite Hfold. cbn. eauto.
Qed.

Lemma PGGANGeneratorNet_children_order_witness :
  exists net,
    PGGANGeneratorNet.__init__ 8 512 3 false 16384 512 = Ok net /\
    map fst (PGGANGeneratorNet._modules net)
    = ["layer0"; "layer1"; "output0"; "layer2"; "layer3"; "output1"; "upsample"]%string.
Proof.
  destruct (PGGANGeneratorNet_init_ok 8 512 3 false 16384 512) as [net Hnet];
    [unfold allowed; cbn; tauto | lia | lia | lia | lia |].
  exists net. split; [exact Hnet|].
  apply (PGGANGeneratorNet_children_order 8 512 3 false 16384 512 net Hnet).
Defined.

Lemma NoDup_snd_inj {K V : Type} (l : list (K * V)) (k1 k2 : K) (v : V) :
  NoDup (map snd l) -> (k1, v) ∈ l -> (k2, v) ∈ l -> k1 = k2.
Proof.
  induction l as [|[k w] l IH]; intros Hnd H1 H2; [by apply elem_of_nil in H1|].
  cbn [map snd] in Hnd. apply NoDup_cons in Hnd as [Hw Hnd].
  apply elem_of_cons in H1 as [E1|H1]; apply elem_of_cons in H2 as [E2|H2].
  - congruence.
  - exfalso. apply Hw. injection E1 as _ <-. change v with (snd (k2, v)).
    apply list_elem_of_In, in_map, list_elem_of_In. exact H2.
  - exfalso. apply Hw. injection E2 as _ <-. change v with (snd (k1, v)).
    apply list_elem_of_In, in_map, list_elem_of_In. exact H1.
  - by apply IH.
Qed.

Lemma expected_mapping_NoDup (resolution : Z) (fused_scale : bool) :
  allowed resolution ->
  NoDup (map snd (map_to_list (expected_mapping resolution fused_scale))).
Proof.
  intros Hall. apply allowed_cases in Hall.
  destruct fused_scale;
    repeat (destruct Hall as [->|Hall];
            [apply (bool_decide_unpack _); by vm_compute|]);
    subst; apply (bool_decide_unpack _); by vm_compute.
Qed.

(** X5.  The table [pth_to_tf_var_mapping] of a constructed generator is
    injective: no two parameter names are mapped to the same checkpoint
    name. *)
Theorem pth_to_tf_var_mapping_injective (resolution z_space_dim image_channels : Z)
    (fused_scale : bool) (fmaps_base fmaps_max : Z) (net : PGGANGeneratorNet.t)
    (k1 k2 v : string) :
  PGGANGeneratorNet.__init__ resolution z_space_dim image_channels fused_scale
    fmaps_base fmaps_max = Ok net ->
  PGGANGeneratorNet.pth_to_tf_var_mapping net !! k1 = Some v ->
  PGGANGeneratorNet.pth_to_tf_var_mapping net !! k2 = Some v ->
  k1 = k2.
Proof.
  intros Hnet H1 H2.
  apply PGGANGeneratorNet_init_inv in Hnet as (Hall & _ & Hm & _).
  rewrite Hm in H1, H2.
  apply (NoDup_snd_inj (map_to_list (expected_mapping resolution fused_scale)) k1 k2 v).
  - by apply expected_mapping_NoDup.
  - by apply elem_of_map_to_list.
  - by apply elem_of_map_to_list.
Qed.

Lemma expected_mapping_covers (resolution : Z) (fused_scale : bool) :
  allowed resolution ->
  Forall (fun name =>
            name = "upsample"%string \/
            (is_Some (expected_mapping resolution fused_scale
                        !! (name ++ ".wscale.bias")%string) /\
             (is_Some (expected_mapping resolution fused_scale
                         !! (name ++ ".conv.weight")%string) \/
              is_Some (expected_mapping resolution fused_scale
                         !! (name ++ ".weight")%string))))
    (module_names resolution).
Proof.
  intros Hall. apply allowed_cases in Hall.
  destruct fused_scale;
    repeat (destruct Hall as [->|Hall];
            [apply (bool_decide_unpack _); by vm_compute|]);
    subst; apply (bool_decide_unpack _); by vm_compute.
Qed.

(** X6.  Every child of a constructed generator other than [upsample] has
    its bias recorded in [pth_to_tf_var_mapping] under
    [<name>.wscale.bias], and its kernel under [<name>.conv.weight] or
    [<name>.weight]. *)
Theorem pth_to_tf_var_mapping_covers (resolution z_space_dim image_channels : Z)
    (fused_scale : bool) (fmaps_base fmaps_max : Z) (net : PGGANGeneratorNet.t)
    (name : string) :
  PGGANGeneratorNet.__init__ resolution z_space_dim image_channels fused_scale
    fmaps_base fmaps_max = Ok net ->
  name ∈ map fst (PGGANGeneratorNet._modules net) -> name <> "upsample"%string ->
  is_Some (PGGANGeneratorNet.pth_to_tf_var_mapping net !! (name ++ ".wscale.bias")%string) /\
  (is_Some (PGGANGeneratorNet.pth_to_tf_var_mapping net !! (name ++ ".conv.weight")%string) \/
   is_Some (PGGANGeneratorNet.pth_to_tf_var_mapping net !! (name ++ ".weight")%string)).
Proof.
  intros Hnet Hin Hne.
  pose proof (PGGANGeneratorNet_init_names _ _ _ _ _ _ _ Hnet) as Hnames.
  apply PGGANGeneratorNet_init_inv in Hnet as (Hall & _ & Hm & _).
  rewrite Hm. rewrite Hnames in Hin.
  pose proof (expected_mapping_covers resolution fused_scale Hall) as Hcov.
  rewrite Forall_forall in Hcov. destruct (Hcov name Hin) as [?|?]; [contradiction|assumption].
Qed.

Lemma pth_to_tf_var_mapping_injective_witness :
  exists net,
    PGGANGeneratorNet.__init__ 8 512 3 false 16384 512 = Ok net /\
    PGGANGeneratorNet.pth_to_tf_var_mapping net !! "layer2.conv.weight"%string
    = Some "8x8/Conv0/weight"%string /\
    "layer2.conv.weight"%string = "layer2.conv.weight"%string.
Proof.
  destruct (PGGANGeneratorNet_init_ok 8 512 3 false 16384 512) as [net Hnet];
    [unfold allowed; cbn; tauto | lia | lia | lia | lia |].
  exists net. split; [exact Hnet|].
  assert (Hk : PGGANGeneratorNet.pth_to_tf_var_mapping net !! "layer2.conv.weight"%string
               = Some "8x8/Conv0/weight"%string).
  { destruct (PGGANGeneratorNet_init_inv _ _ _ _ _ _ _ Hnet) as (_ & _ & -> & _).
    by vm_compute. }
  split; [exact Hk|].
  exact (pth_to_tf_var_mapping_injective 8 512 3 false 16384 512 net
           "layer2.conv.weight" "layer2.conv.weight" "8x8/Conv0/weight" Hnet Hk Hk).
Defined.

Lemma pth_to_tf_var_mapping_covers_witness :
  exists net,
    PGGANGeneratorNet.__init__ 8 512 3 false 16384 512 = Ok net /\
    is_Some (PGGANGeneratorNet.pth_to_tf_var_mapping net !! "output1.wscale.bias"%string).
Proof.
  destruct (PGGANGeneratorNet_init_ok 8 512 3 false 16384 512) as [net Hnet];
    [unfold allowed; cbn; tauto | lia | lia | lia | lia |].
  exists net. split; [exact Hnet|].
  refine (proj1 (pth_to_tf_var_mapping_covers 8 512 3 false 16384 512 net "output1"
                   Hnet _ _)).
  - rewrite (PGGANGeneratorNet_init_names _ _ _ _ _ _ _ Hnet).
    apply (bool_decide_unpack _). by vm_compute.
  - discriminate.
Defined.

Lemma sum_over_scal (n : nat) (f : nat -> R) (c : R) :
  sum_over n (fun i => f i * c)%R = (sum_over n f * c)%R.
Proof.
  revert f. induction n as [|n IH]; intros f.
  - unfold sum_over, Rsum. cbn. lra.
  - rewrite !sum_over_S, IH. lra.
Qed.

Lemma lookup_repeat {A : Type} (x : A) (n i : nat) :
  (i < n)%nat -> repeat x n !! i = Some x.
Proof.
  revert i. induction n as [|n IH]; intros i Hi; [lia|].
  destruct i as [|i]; [reflexivity|]. cbn. apply IH. lia.
Qed.

Lemma length_flat_map_repeat {A B : Type} (f : A -> B) (s : nat) (l : list A) :
  length (flat_map (fun t => repeat (f t) s) l) = (length l * s)%nat.
Proof.
  induction l as [|a l IH]; [reflexivity|].
  cbn [flat_map]. rewrite length_app, repeat_length, IH. cbn [length]. lia.
Qed.

Lemma lookup_flat_map_repeat {A B : Type} (f : A -> B) (s : nat) (l : list A) (i : nat) :
  (0 < s)%nat ->
  flat_map (fun t => repeat (f t) s) l !! i = f <$> l !! (i / s)%nat.
Proof.
  intros Hs. revert i. induction l as [|a l IH]; intros i; [reflexivity|].
  cbn [flat_map]. destruct (Nat.lt_ge_cases i s) as [Hlt|Hge].
  - rewrite lookup_app_l by (by rewrite repeat_length).
    rewrite lookup_repeat by assumption. by rewrite Nat.div_small.
  - rewrite lookup_app_r by (by rewrite repeat_length).
    rewrite repeat_length, IH.
    replace (i / s)%nat with (S ((i - s) / s)); [reflexivity|].
    replace i with ((i - s) + 1 * s)%nat at 2 by lia.
    rewrite Nat.div_add by lia. lia.
Qed.

Lemma upsample_n_cons (s k : nat) (l : list (tensor k)) :
  upsample_n s (S k) l = flat_map (fun t => repeat (upsample_n s k t) s) l.
Proof. reflexivity. Qed.

(** Nearest-neighbour upsampling, entry by entry. *)
Lemma upsample_n_spec (s k : nat) (sh : list nat) (t : tensor k) :
  (0 < s)%nat -> has_shape k sh t ->
  has_shape k (map (fun d => d * s)%nat sh) (upsample_n s k t) /\
  forall idx, in_range idx (map (fun d => d * s)%nat sh) ->
              get k idx (upsample_n s k t) = get k (map (fun i => i / s)%nat idx) t.
Proof.
  intros Hs. revert sh t. induction k as [|k IH]; intros sh t Ht.
  - destruct sh; [|by destruct Ht]. split; [exact I|]. reflexivity.
  - revert t Ht. norm_tensor. intros t Ht.
    destruct sh as [|d sh]; [by destruct Ht|].
    apply has_shape_cons in Ht as [Hlen Hall].
    rewrite upsample_n_cons. cbn [map]. split.
    + apply has_shape_intro.
      * by rewrite length_flat_map_repeat, Hlen.
      * intros i u Hu. rewrite lookup_flat_map_repeat in Hu by assumption.
        destruct (t !! (i / s)%nat) as [v|] eqn:E; [|discriminate].
        cbn in Hu. injection Hu as <-.
        rewrite Forall_lookup in Hall. apply IH. eauto.
    + intros idx Hr. apply in_range_cons_inv in Hr as (i & idx' & -> & Hi & Hr).
      cbn [map]. rewrite !get_cons, lookup_flat_map_repeat by assumption.
      assert (Hq : (i / s < d)%nat) by (apply Nat.Div0.div_lt_upper_bound; lia).
      destruct (lookup_lt_is_Some_2 t (i / s)%nat) as [v Hv]; [lia|].
      rewrite Hv. cbn. rewrite Forall_lookup in Hall.
      apply (proj2 (IH sh v (Hall _ _ Hv))). exact Hr.
Qed.

(** X8.  The resolution-scaling layer with a factor [f] that is a power of
    two maps a non-empty input of rank 3 to 5 and shape (B, C, d1, ...) to
    a tensor of shape (B, C, f*d1, ...) whose entry at (b, c, i1, ...) is
    the input entry at (b, c, i1 // f, ...). *)
Theorem ResolutionScalingLayer_forward_nearest (self : ResolutionScalingLayer.t)
    (e : Z) (k : nat) (B C : nat) (s : list nat) (x : tensor (S (S (S k)))) :
  (k < 3)%nat -> 0 <= e -> ResolutionScalingLayer.scale_factor self = 2 ^ e ->
  has_shape (S (S (S k))) (B :: C :: s) x ->
  Forall (fun d => (0 < d)%nat) (B :: C :: s) ->
  let f := Z.to_nat (ResolutionScalingLayer.scale_factor self) in
  exists y : tensor (S (S (S k))),
    ResolutionScalingLayer.forward self (mk (S (S (S k))) x) = Ok (mk (S (S (S k))) y) /\
    has_shape (S (S (S k))) (B :: C :: map (fun d => d * f)%nat s) y /\
    forall b c pos, (b < B)%nat -> (c < C)%nat ->
      in_range pos (map (fun d => d * f)%nat s) ->
      get (S (S (S k))) (b :: c :: pos) y
      = get (S (S (S k))) (b :: c :: map (fun i => i / f)%nat pos) x.
Proof.
  intros Hk He Hsf Hx _ f.
  assert (Hf : 0 < ResolutionScalingLayer.scale_factor self)
    by (rewrite Hsf; by apply Z.pow_pos_nonneg).
  assert (Hfp : (0 < f)%nat) by (unfold f; lia).
  revert x Hx. norm_tensor. intros x Hx.
  exists (map (map (upsample_n f (S k))) x). split.
  - unfold ResolutionScalingLayer.forward, interpolate_nearest, mk, interpolate_n.
    destruct (Nat.ltb_spec k 3) as [_|?]; [|lia].
    destruct (Z.ltb_spec 0 (ResolutionScalingLayer.scale_factor self)) as [_|?]; [|lia].
    reflexivity.
  - apply (has_shape_cons (S (S k)) B (C :: s) x) in Hx as [HB Hrows]. split.
    + apply (has_shape_intro (S (S k))); [by rewrite length_map|].
      intros i row Hrow. apply lookup_map_Some in Hrow as (row0 & Hrow0 & ->).
      rewrite Forall_lookup in Hrows. pose proof (Hrows _ _ Hrow0) as Hr0.
      apply (has_shape_cons (S k) C s row0) in Hr0 as [HC Hcs].
      apply (has_shape_intro (S k)); [by rewrite length_map|].
      intros j u Hu. apply lookup_map_Some in Hu as (u0 & Hu0 & ->).
      rewrite Forall_lookup in Hcs. apply upsample_n_spec; eauto.
    + intros b c pos Hb Hc Hpos.
      rewrite (get_cons (S (S k)) b), (get_cons (S (S k)) b), lookup_map.
      destruct (lookup_lt_is_Some_2 x b) as [row Hrow]; [exact (eq_ind_r (fun n => (b < n)%nat) Hb HB)|]. norm_tensor. rewrite Hrow. cbn [fmap option_fmap option_map].
      rewrite Forall_lookup in Hrows. pose proof (Hrows _ _ Hrow) as Hr0.
      apply (has_shape_cons (S k) C s row) in Hr0 as [HC Hcs].
      rewrite (get_cons (S k) c), (get_cons (S k) c), lookup_map.
      destruct (lookup_lt_is_Some_2 row c) as [u Hu]; [exact (eq_ind_r (fun n => (c < n)%nat) Hc HC)|]. norm_tensor. rewrite Hu. cbn [fmap option_fmap option_map].
      rewrite Forall_lookup in Hcs.
      apply (proj2 (upsample_n_spec f (S k) s u Hfp (Hcs _ _ Hu))). exact Hpos.
Qed.

Lemma ResolutionScalingLayer_forward_nearest_witness :
  exists y : tensor 4,
    ResolutionScalingLayer.forward (ResolutionScalingLayer.__init__ 2)
      (mk 4 example_feature_map) = Ok (mk 4 y) /\
    has_shape 4 [1; 1; 4; 4]%nat y /\
    get 4 [0; 0; 3; 1]%nat y = 3%R.
Proof.
  destruct (ResolutionScalingLayer_forward_nearest (ResolutionScalingLayer.__init__ 2)
              1 1 1 1 [2; 2]%nat example_feature_map)
    as (y & Hy & Hs & Hg).
  - lia.
  - lia.
  - reflexivity.
  - repeat constructor.
  - repeat constructor.
  - exists y. split; [exact Hy|]. split; [exact Hs|].
    rewrite (Hg 0 0 [3; 1])%nat; [reflexivity|lia|lia|].
    repeat constructor; cbn; lia.
Defined.

Lemma flatten_vector (l : list R) : flatten 1 l = l.
Proof.
  change (flatten 1 l) with (concat (map (fun x : R => [x]) l)).
  induction l as [|x l IH]; [reflexivity|]. cbn. by rewrite IH.
Qed.

(** Scaling and bias, entry by entry. *)
Lemma WScaleLayer_forward_spec (self : WScaleLayer.t) (bl : list R)
    (B C H W : nat) (x : tensor 4) :
  WScaleLayer.bias self = mk 1 bl -> length bl = C ->
  has_shape 4 [B; C; H; W] x ->
  exists y : tensor 4,
    WScaleLayer.forward self (mk 4 x) = Ok (mk 4 y) /\
    has_shape 4 [B; C; H; W] y /\
    forall b c h w, (b < B)%nat -> (c < C)%nat -> (h < H)%nat -> (w < W)%nat ->
      get 4 [b; c; h; w] y
      = (get 4 [b; c; h; w] x * WScaleLayer.scale self + nth c bl 0)%R.
Proof.
  intros Hbias Hlen Hx.
  unfold WScaleLayer.forward. rewrite Hbias.
  unfold Torch.add, mul_scalar, view_1_m1_1_1, mk.
  change (existT 4 ?a) with (mk 4 a).
  rewrite binop_same_rank, flatten_vector.
  set (xs := tmap (fun v => v * WScaleLayer.scale self)%R 4 x).
  set (bv := ([map (fun v : R => [[v]]) bl] : tensor 4)).
  assert (Hxs : has_shape 4 [B; C; H; W] xs) by (by apply tmap_shape).
  assert (Hbv : has_shape 4 [1; C; 1; 1]%nat bv).
  { unfold bv. apply (has_shape_intro 3); [reflexivity|].
    intros i t Ht. destruct i; [|by destruct i]. injection Ht as <-.
    apply (has_shape_intro 2); [by rewrite length_map|].
    intros j u Hu. apply lookup_map_Some in Hu as (v & _ & ->).
    repeat constructor. }
  destruct (bop_spec Rplus 4 [B; C; H; W] [1; C; 1; 1]%nat xs bv Hxs Hbv)
    as (y & Hy & Hys & Hg).
  { constructor; [by right; right|]. constructor; [by left|].
    constructor; [by right; right|]. constructor; [by right; right|]. constructor. }
  assert (Hsh : bshape [B; C; H; W] [1; C; 1; 1]%nat = [B; C; H; W]).
  { rewrite !bshape_cons, !bdim_one_r, bdim_same. reflexivity. }
  rewrite Hsh in Hys, Hg.
  exists y. rewrite Hy. split; [reflexivity|]. split; [exact Hys|].
  intros b c h w Hb Hc Hh Hw.
  rewrite (Hg [b; c; h; w]) by (by apply in_range4).
  rewrite (clip_in_range [B; C; H; W]) by (by apply in_range4).
  unfold xs. rewrite (tmap_get _ 4 [B; C; H; W]) by (try assumption; by apply in_range4).
  f_equal.
  rewrite !clip_cons, (clip_lt C c) by assumption.
  change ((1 =? 1)%nat) with true. cbv iota.
  unfold bv. rewrite (get_cons 3 0). cbn [lookup list_lookup].
  rewrite (get_cons 2 c), lookup_map.
  destruct (lookup_lt_is_Some_2 bl c) as [v Hv]; [lia|].
  rewrite Hv. cbn [fmap option_fmap option_map].
  rewrite (nth_lookup_Some _ _ _ _ Hv). reflexivity.
Qed.

(** X9.  The weight-scaling layer maps an input of shape (B, C, H, W), for
    a bias of [C] entries, to a tensor of that shape whose entry at
    (b, c, h, w) is the input entry times [scale] plus the bias of channel
    [c]. *)
Theorem WScaleLayer_forward_entries (self : WScaleLayer.t) (bl : list R)
    (B C H W : nat) (x : tensor 4) :
  WScaleLayer.bias self = mk 1 bl -> length bl = C ->
  has_shape 4 [B; C; H; W] x ->
  exists y : tensor 4,
    WScaleLayer.forward self (mk 4 x) = Ok (mk 4 y) /\
    has_shape 4 [B; C; H; W] y /\
    forall b c h w, (b < B)%nat -> (c < C)%nat -> (h < H)%nat -> (w < W)%nat ->
      get 4 [b; c; h; w] y
      = (get 4 [b; c; h; w] x * WScaleLayer.scale self + nth c bl 0)%R.
Proof. exact (WScaleLayer_forward_spec self bl B C H W x). Qed.

Lemma WScaleLayer_forward_entries_witness :
  exists y : tensor 4,
    WScaleLayer.forward example_wscale (mk 4 example_feature_map) = Ok (mk 4 y) /\
    get 4 [0; 0; 1; 0]%nat y = 7%R.
Proof.
  destruct (WScaleLayer_forward_entries example_wscale [1%R] 1 1 2 2 example_feature_map)
    as (y & Hy & _ & Hg).
  - reflexivity.
  - reflexivity.
  - repeat constructor.
  - exists y. split; [exact Hy|].
    rewrite (Hg 0 0 1 0)%nat by lia. cbn. lra.
Defined.

Lemma hardtanh_bounds (v : R) : (-1 <= hardtanh v <= 1)%R.
Proof.
  unfold hardtanh. split.
  - apply Rmax_l.
  - apply Rmax_lub; [lra|]. apply Rmin_l.
Qed.

(** X10.  Every entry of the output of a convolutional block constructed
    with activation ['tanh'] lies between [-1] and [1], whatever the
    convolution computes. *)
Theorem ConvBlock_forward_tanh_bounded
    (in_channels out_channels kernel_size stride padding dilation : Z)
    (add_bias upsample fused_scale : bool) (wscale_gain : R)
    (conv_of : ConvBlock.t -> Tensor -> res Tensor) (b : ConvBlock.t) (x y : Tensor) :
  ConvBlock.__init__ in_channels out_channels kernel_size stride padding dilation
    add_bias upsample fused_scale wscale_gain "tanh" = Ok b ->
  ConvBlock.forward conv_of b x = Ok y ->
  Forall (fun v => -1 <= v <= 1)%R (flatten (projT1 y) (projT2 y)).
Proof.
  intros Hb Hy.
  assert (Hact : ConvBlock.activate b = Hardtanh).
  { unfold ConvBlock.__init__ in Hb.
    destruct (if upsample && fused_scale then _ else _) as [[[[? ?] ?] ?]|]; [|discriminate].
    cbn [mbind res_bind] in Hb.
    destruct (WScaleLayer.__init__ _ _ _ _); [|discriminate].
    cbn in Hb. by injection Hb as <-. }
  unfold ConvBlock.forward in Hy. rewrite Hact in Hy.
  destruct (PixelNormLayer.forward _ x) as [x1|]; [|discriminate].
  cbn [mbind res_bind] in Hy.
  destruct (match ConvBlock.upsample b with Upsample l => _ | UpIdentity => _ end)
    as [x2|]; [|discriminate].
  cbn [mbind res_bind] in Hy.
  destruct (conv_of b x2) as [x3|]; [|discriminate].
  cbn [mbind res_bind] in Hy.
  destruct (WScaleLayer.forward _ x3) as [[n x4]|]; [|discriminate].
  cbn [mbind res_bind activation_forward] in Hy. injection Hy as <-.
  cbn [projT1 projT2 mk]. apply tmap_all. apply hardtanh_bounds.
Qed.

Lemma ConvBlock_forward_tanh_bounded_witness :
  exists b y,
    ConvBlock.__init__ 1 1 1 1 0 1 false false false 1%R "tanh" = Ok b /\
    ConvBlock.forward (fun _ x => Ok x) b (mk 4 example_feature_map) = Ok y /\
    Forall (fun v => -1 <= v <= 1)%R (flatten (projT1 y) (projT2 y)).
Proof.
  pose proof (ConvBlock_init_run 1 1 1 1 0 1 false false false 1%R "tanh"
                ltac:(lia) ltac:(lia) ltac:(lia)) as Hrun.
  cbn [ConvBlock.select_activation String.eqb Ascii.eqb Bool.eqb mbind res_bind
       andb negb] in Hrun.
  eexists. 
  assert (Hfw : exists y, ConvBlock.forward (fun _ x => Ok x)
                  ltac:(match type of Hrun with _ = Ok ?b => exact b end)
                  (mk 4 example_feature_map) = Ok y).
  { unfold ConvBlock.forward. cbn [ConvBlock.pixel_norm ConvBlock.upsample
      ConvBlock.wscale ConvBlock.activate].
    destruct (PixelNormLayer_forward_spec
                (PixelNormLayer.__init__ PixelNormLayer.default_epsilon) 2 [2; 2]%nat
                example_feature_map 1 1) as (y1 & Hy1 & Hs1 & _);
      [repeat constructor | lia |].
    rewrite Hy1. cbn [mbind res_bind].
    match goal with
    | |- context [WScaleLayer.forward ?w _] =>
        destruct (WScaleLayer_forward_spec w [0%R] 1 1 2 2 y1 eq_refl eq_refl Hs1)
          as (y2 & Hy2 & _)
    end.
    rewrite Hy2. cbn [mbind res_bind]. eauto. }
  destruct Hfw as [y Hy]. exists y. split; [exact Hrun|]. split; [exact Hy|].
  exact (ConvBlock_forward_tanh_bounded 1 1 1 1 0 1 false false false 1%R
           (fun _ x => Ok x) _ (mk 4 example_feature_map) y Hrun Hy).
Defined.

Lemma add_module_Forall (P : string * module -> Prop) (ms : list (string * module))
    (name : string) (m : module) :
  Forall P ms -> P (name, m) -> Forall P (add_module ms name m).
Proof.
  intros Hms Hm. induction Hms as [|[k v] ms Hkv Hms IH]; cbn [add_module].
  - by constructor.
  - destruct (String.eqb_spec k name) as [->|Hne]; constructor; assumption.
Qed.

Lemma build_stage_blocks (init_res init_res_log2 final_res_log2 z_space_dim image_channels : Z)
    (fused_scale : bool) (fmaps_base fmaps_max : Z)
    (mods mods' : list (string * module)) (mapping mapping' : gmap string string)
    (res_log2 : Z) :
  PGGANGeneratorNet.build_stage init_res init_res_log2 final_res_log2 z_space_dim
    image_channels fused_scale fmaps_base fmaps_max (mods, mapping) res_log2
  = Ok (mods', mapping') ->
  Forall (fun p => exists b, snd p = MConvBlock b) mods ->
  Forall (fun p => exists b, snd p = MConvBlock b) mods'.
Proof.
  unfold PGGANGeneratorNet.build_stage.
  destruct (2 ^ res_log2 =? init_res);
    repeat match goal with
           | |- context [ConvBlock.__init__ ?a ?b ?c ?d ?e ?f ?g ?h ?i ?j ?k] =>
               destruct (ConvBlock.__init__ a b c d e f g h i j k)
           end; cbn [mbind res_bind]; try discriminate;
    intros [= <- <-] Hm; repeat apply add_module_Forall; cbn [snd]; eauto.
Qed.

Lemma build_loop_blocks (init_res init_res_log2 final_res_log2 z_space_dim image_channels : Z)
    (fused_scale : bool) (fmaps_base fmaps_max : Z) (rs : list Z) :
  forall (mods mods' : list (string * module)) (mapping mapping' : gmap string string),
    res_foldM
      (PGGANGeneratorNet.build_stage init_res init_res_log2 final_res_log2 z_space_dim
         image_channels fused_scale fmaps_base fmaps_max) (mods, mapping) rs
    = Ok (mods', mapping') ->
    Forall (fun p => exists b, snd p = MConvBlock b) mods ->
    Forall (fun p => exists b, snd p = MConvBlock b) mods'.
Proof.
  induction rs as [|r rs IH]; intros mods mods' mapping mapping'.
  - cbn. by intros [= <- <-].
  - cbn [res_foldM].
    destruct (PGGANGeneratorNet.build_stage _ _ _ _ _ _ _ _ _ r) as [[mods1 mapping1]|] eqn:E;
      [|discriminate].
    intros H Hm. eapply IH; [exact H|]. eapply build_stage_blocks; eassumption.
Qed.

(** Every child of a constructed network is a convolutional block,
    except the one called [upsample]. *)
Lemma PGGANGeneratorNet_init_blocks (resolution z_space_dim image_channels : Z)
    (fused_scale : bool) (fmaps_base fmaps_max : Z) (net : PGGANGeneratorNet.t) :
  PGGANGeneratorNet.__init__ resolution z_space_dim image_channels fused_scale
    fmaps_base fmaps_max = Ok net ->
  Forall (fun p => (exists b, snd p = MConvBlock b) \/ fst p = "upsample"%string)
    (PGGANGeneratorNet._modules net).
Proof.
  unfold PGGANGeneratorNet.__init__.
  destruct (negb _); [discriminate|].
  destruct (res_foldM _ _ _) as [[mods mapping]|] eqn:F; [|discriminate].
  cbn [mbind res_bind]. intros [= <-]. cbn [PGGANGeneratorNet._modules].
  apply build_loop_blocks in F; [|constructor].
  apply add_module_Forall; [|by right].
  eapply Forall_impl; [exact F|]. intros p Hp. by left.
Qed.

Lemma getattr_elem_of (self : PGGANGeneratorNet.t) (name : string) :
  name ∈ map fst (PGGANGeneratorNet._modules self) ->
  exists m, PGGANGeneratorNet.getattr self name = Ok m /\
            (name, m) ∈ PGGANGeneratorNet._modules self.
Proof.
  intros Hin. unfold PGGANGeneratorNet.getattr.
  apply list_elem_of_In, in_map_iff in Hin as ([k m] & Hk & Hin). cbn in Hk. subst k.
  apply list_elem_of_In in Hin.
  destruct (list_find_elem_of (fun p : string * module => fst p = name)
              (PGGANGeneratorNet._modules self) (name, m) Hin eq_refl) as [[i [k m']] Hf].
  rewrite Hf. exists m'. split; [reflexivity|].
  apply list_find_Some in Hf as (Hl & Hk & _). cbn in Hk. subst k.
  by eapply list_elem_of_lookup_2.
Qed.

Lemma In_range (n b : Z) : 0 <= b < n -> In b (Py.range n).
Proof.
  intros Hb. unfold Py.range. apply in_map_iff. exists (Z.to_nat b).
  split; [lia|]. apply in_seq. lia.
Qed.

Lemma block_names_elem_of (resolution b : Z) (name : string) :
  0 <= b < Z.log2 resolution - 1 -> In name (block_names b) ->
  name ∈ module_names resolution.
Proof.
  intros Hb Hn. unfold module_names. apply elem_of_app. left.
  apply list_elem_of_In, in_flat_map. exists b. split; [by apply In_range|assumption].
Qed.

(** The three children one pass of [forward] calls. *)
Lemma getattr_block (resolution z_space_dim image_channels : Z)
    (fused_scale : bool) (fmaps_base fmaps_max : Z) (net : PGGANGeneratorNet.t)
    (b : Z) (name : string) :
  PGGANGeneratorNet.__init__ resolution z_space_dim image_channels fused_scale
    fmaps_base fmaps_max = Ok net ->
  0 <= b < Z.log2 resolution - 1 -> In name (block_names b) ->
  exists blk, PGGANGeneratorNet.getattr net name = Ok (MConvBlock blk).
Proof.
  intros Hnet Hb Hn.
  pose proof (PGGANGeneratorNet_init_names _ _ _ _ _ _ _ Hnet) as Hnames.
  pose proof (PGGANGeneratorNet_init_blocks _ _ _ _ _ _ _ Hnet) as Hblocks.
  destruct (getattr_elem_of net name) as (m & Hm & Hin).
  { rewrite Hnames. by eapply block_names_elem_of. }
  rewrite Forall_forall in Hblocks. destruct (Hblocks _ Hin) as [[blk Hblk]|Hup].
  - cbn in Hblk. subst m. eauto.
  - exfalso. cbn [fst] in Hup. subst name. unfold block_names in Hn.
    destruct Hn as [H|[H|[H|[]]]]; cbn in H; discriminate.
Qed.

(** One pass of the loop of [forward] on a constructed network: three
    convolutional blocks in a row. *)
Lemma forward_stage_run (resolution z_space_dim image_channels : Z)
    (fused_scale : bool) (fmaps_base fmaps_max : Z) (net : PGGANGeneratorNet.t)
    (res_log2 : Z) :
  PGGANGeneratorNet.__init__ resolution z_space_dim image_channels fused_scale
    fmaps_base fmaps_max = Ok net ->
  2 <= res_log2 <= Z.log2 resolution ->
  exists b0 b1 bo,
    forall apply x image,
      PGGANGeneratorNet.forward_stage apply net (x, image) res_log2
      = (x1 ← apply (MConvBlock b0) x;
         x2 ← apply (MConvBlock b1) x1;
         im ← apply (MConvBlock bo) x2;
         Ok (x2, Some im)).
Proof.
  intros Hnet Hr.
  destruct (PGGANGeneratorNet_init_inv _ _ _ _ _ _ _ Hnet)
    as (_ & _ & _ & Hi & Hf & Hlod & _).
  assert (Hb : 0 <= res_log2 - 2 < Z.log2 resolution - 1) by lia.
  destruct (getattr_block _ _ _ _ _ _ net (res_log2 - 2)
              ("layer" ++ Py.str (2 * (res_log2 - 2))) Hnet Hb) as [b0 H0];
    [by left|].
  destruct (getattr_block _ _ _ _ _ _ net (res_log2 - 2)
              ("layer" ++ Py.str (2 * (res_log2 - 2) + 1)) Hnet Hb) as [b1 H1];
    [by right; left|].
  destruct (getattr_block _ _ _ _ _ _ net (res_log2 - 2)
              ("output" ++ Py.str (res_log2 - 2)) Hnet Hb) as [bo Ho];
    [by right; right; left|].
  exists b0, b1, bo. intros apply x image.
  unfold PGGANGeneratorNet.forward_stage. rewrite Hi, Hf, Hlod.
  destruct (Rle_dec (IZR res_log2 + 0) (IZR (Z.log2 resolution))) as [_|Hn].
  - rewrite H0, H1, Ho. reflexivity.
  - exfalso. apply Hn. rewrite Rplus_0_r. apply IZR_le. lia.
Qed.

Lemma In_range2 (a b r : Z) : In r (Py.range2 a b) -> a <= r < b.
Proof.
  unfold Py.range2. intros (i & <- & Hi)%in_map_iff. apply in_seq in Hi. lia.
Qed.

Lemma range2_cons (a b : Z) : a < b -> Py.range2 a b = a :: Py.range2 (a + 1) b.
Proof.
  intros Hab. unfold Py.range2.
  replace (Z.to_nat (b - a)) with (S (Z.to_nat (b - (a + 1)))) by lia.
  cbn [seq map]. f_equal; [lia|].
  rewrite <- seq_shift, map_map. apply map_ext. intros i. lia.
Qed.

(** The loop of [forward] on a constructed network either ends with an
    image or stops at the exception of a convolutional block. *)
Lemma forward_loop_run (resolution z_space_dim image_channels : Z)
    (fused_scale : bool) (fmaps_base fmaps_max : Z) (net : PGGANGeneratorNet.t)
    (apply : module -> Tensor -> res Tensor) (rs : list Z) :
  PGGANGeneratorNet.__init__ resolution z_space_dim image_channels fused_scale
    fmaps_base fmaps_max = Ok net ->
  (forall r, In r rs -> 2 <= r <= Z.log2 resolution) ->
  forall x image,
    (exists x' image',
        res_foldM (PGGANGeneratorNet.forward_stage apply net) (x, image) rs
        = Ok (x', image') /\
        (image' = None -> rs = [] /\ image = None)) \/
    (exists blk t e,
        apply (MConvBlock blk) t = Raise e /\
        res_foldM (PGGANGeneratorNet.forward_stage apply net) (x, image) rs = Raise e).
Proof.
  intros Hnet. induction rs as [|r rs IH]; intros Hrs x image.
  - left. exists x, image. split; [reflexivity|]. by intros ->.
  - destruct (forward_stage_run _ _ _ _ _ _ net r Hnet (Hrs r (or_introl eq_refl)))
      as (b0 & b1 & bo & Hstage).
    cbn [res_foldM]. rewrite Hstage.
    destruct (apply (MConvBlock b0) x) as [x1|e] eqn:E0; cbn [mbind res_bind];
      [|right; eauto].
    destruct (apply (MConvBlock b1) x1) as [x2|e] eqn:E1; cbn [mbind res_bind];
      [|right; eauto].
    destruct (apply (MConvBlock bo) x2) as [im|e] eqn:E2; cbn [mbind res_bind];
      [|right; eauto].
    destruct (IH (fun r' H => Hrs r' (or_intror H)) x2 (Some im))
      as [(x' & image' & Hf & Him)|(blk & t & e & Hb & Hf)].
    + left. exists x', image'. split; [exact Hf|]. intros ->.
      by destruct (Him eq_refl) as [_ ?].
    + right. eauto.
Qed.

Lemma check_latent_ok (self : PGGANGeneratorNet.t) (m : tensor 2) (B D : nat) :
  has_shape 2 [B; D] m -> Z.of_nat D = PGGANGeneratorNet.z_space_dim self ->
  PGGANGeneratorNet.check_latent self (mk 2 m) = Ok m.
Proof.
  intros Hm HD. unfold PGGANGeneratorNet.check_latent. cbn [projT1 projT2 mk].
  rewrite cast_refl.
  apply has_shape_matrix in Hm as [_ Hrows].
  replace (forallb _ m) with true; [reflexivity|].
  symmetry. apply forallb_forall. intros row Hrow.
  rewrite Forall_forall in Hrows. apply list_elem_of_In in Hrow.
  rewrite (Hrows row Hrow). apply Z.eqb_eq. exact HD.
Qed.

(** X11.  On a non-empty batch of latent codes of [z_space_dim] entries, the
    forward pass of a constructed generator either returns an image or
    raises the exception that the call of one of its convolutional blocks
    raised: every child name it builds resolves and [image] is bound when
    it is returned. *)
Theorem PGGANGeneratorNet_forward_no_own_error
    (resolution z_space_dim image_channels : Z)
    (fused_scale : bool) (fmaps_base fmaps_max : Z) (net : PGGANGeneratorNet.t)
    (apply : module -> Tensor -> res Tensor) (m : tensor 2) (B : nat) :
  PGGANGeneratorNet.__init__ resolution z_space_dim image_channels fused_scale
    fmaps_base fmaps_max = Ok net ->
  has_shape 2 [B; Z.to_nat z_space_dim] m -> (0 < B)%nat -> 0 <= z_space_dim ->
  (exists image, PGGANGeneratorNet.forward apply net (mk 2 m) = Ok image) \/
  (exists blk t e,
      apply (MConvBlock blk) t = Raise e /\
      PGGANGeneratorNet.forward apply net (mk 2 m) = Raise e).
Proof.
  intros Hnet Hm _ Hz.
  destruct (PGGANGeneratorNet_init_inv _ _ _ _ _ _ _ Hnet)
    as (Hall & _ & _ & Hi & Hf & _ & Hzd & _).
  unfold PGGANGeneratorNet.forward.
  rewrite (check_latent_ok net m B (Z.to_nat z_space_dim) Hm) by (rewrite Hzd; lia).
  cbn [mbind res_bind]. rewrite Hi, Hf.
  assert (Hlog : 3 <= Z.log2 resolution).
  { apply allowed_cases in Hall.
    repeat (destruct Hall as [->|Hall]; [by vm_compute|]). subst. by vm_compute. }
  destruct (forward_loop_run _ _ _ _ _ _ net apply
              (Py.range2 2 (Z.log2 resolution + 1)) Hnet
              (fun r H => ltac:(apply In_range2 in H; lia))
              (mk 4 (PGGANGeneratorNet.latent_view m)) None)
    as [(x' & image' & Hfold & Him)|(blk & t & e & Hb & Hfold)].
  - rewrite Hfold. destruct image' as [im|]; [left; eauto|].
    exfalso. destruct (Him eq_refl) as [Hnil _].
    rewrite range2_cons in Hnil by lia. discriminate.
  - right. exists blk, t, e. rewrite Hfold. by split.
Qed.

(** X12.  The forward pass of a generator as constructed (where [lod] is
    zero) never calls the [upsample] child: two ways of calling children
    that agree on convolutional blocks give the same result. *)
Theorem PGGANGeneratorNet_forward_skips_upsample
    (resolution z_space_dim image_channels : Z)
    (fused_scale : bool) (fmaps_base fmaps_max : Z) (net : PGGANGeneratorNet.t)
    (apply apply' : module -> Tensor -> res Tensor) (z : Tensor) :
  PGGANGeneratorNet.__init__ resolution z_space_dim image_channels fused_scale
    fmaps_base fmaps_max = Ok net ->
  (forall blk t, apply (MConvBlock blk) t = apply' (MConvBlock blk) t) ->
  PGGANGeneratorNet.forward apply net z = PGGANGeneratorNet.forward apply' net z.
Proof.
  intros Hnet Hsame.
  destruct (PGGANGeneratorNet_init_inv _ _ _ _ _ _ _ Hnet)
    as (_ & _ & _ & Hi & Hf & _).
  unfold PGGANGeneratorNet.forward.
  destruct (PGGANGeneratorNet.check_latent net z) as [m|e]; [|reflexivity].
  cbn [mbind res_bind]. rewrite Hi, Hf.
  assert (Hfold : forall rs st,
             (forall r, In r rs -> 2 <= r <= Z.log2 resolution) ->
             res_foldM (PGGANGeneratorNet.forward_stage apply net) st rs
             = res_foldM (PGGANGeneratorNet.forward_stage apply' net) st rs).
  { induction rs as [|r rs IH]; intros [x image] Hrs; [reflexivity|].
    cbn [res_foldM].
    destruct (forward_stage_run _ _ _ _ _ _ net r Hnet (Hrs r (or_introl eq_refl)))
      as (b0 & b1 & bo & Hstage).
    rewrite !Hstage, (Hsame b0 x).
    destruct (apply' (MConvBlock b0) x) as [x1|]; cbn [mbind res_bind]; [|reflexivity].
    rewrite (Hsame b1 x1).
    destruct (apply' (MConvBlock b1) x1) as [x2|]; cbn [mbind res_bind]; [|reflexivity].
    rewrite (Hsame bo x2).
    destruct (apply' (MConvBlock bo) x2) as [im|]; cbn [mbind res_bind]; [|reflexivity].
    apply IH. intros r' H. apply Hrs. by right. }
  rewrite Hfold; [reflexivity|]. intros r H. apply In_range2 in H. lia.
Qed.

(** X13.  When the parameter [lod] of a constructed generator is set to more
    than [log2 resolution - 2], the forward pass on a well-shaped batch
    of latent codes takes the upsampling branch in its first pass and
    fails with [UnboundLocalError] for [image]. *)
Theorem PGGANGeneratorNet_forward_lod_too_large
    (resolution z_space_dim image_channels : Z)
    (fused_scale : bool) (fmaps_base fmaps_max : Z) (net : PGGANGeneratorNet.t)
    (apply : module -> Tensor -> res Tensor) (l : R) (m : tensor 2) (B : nat) :
  PGGANGeneratorNet.__init__ resolution z_space_dim image_channels fused_scale
    fmaps_base fmaps_max = Ok net ->
  (IZR (Z.log2 resolution) - 2 < l)%R ->
  has_shape 2 [B; Z.to_nat z_space_dim] m -> (0 < B)%nat -> 0 <= z_space_dim ->
  PGGANGeneratorNet.forward apply (with_lod l net) (mk 2 m)
  = Raise (UnboundLocalError "image").
Proof.
  intros Hnet Hl Hm _ Hz.
  destruct (PGGANGeneratorNet_init_inv _ _ _ _ _ _ _ Hnet)
    as (Hall & _ & _ & Hi & Hf & _ & Hzd & _).
  pose proof (PGGANGeneratorNet_init_names _ _ _ _ _ _ _ Hnet) as Hnames.
  unfold PGGANGeneratorNet.forward.
  rewrite (check_latent_ok (with_lod l net) m B (Z.to_nat z_space_dim) Hm)
    by (cbn; rewrite Hzd; lia).
  cbn [mbind res_bind with_lod PGGANGeneratorNet.init_res_log2
       PGGANGeneratorNet.final_res_log2].
  rewrite Hi, Hf.
  assert (Hlog : 3 <= Z.log2 resolution).
  { apply allowed_cases in Hall.
    repeat (destruct Hall as [->|Hall]; [by vm_compute|]). subst. by vm_compute. }
  rewrite range2_cons by lia. cbn [res_foldM].
  unfold PGGANGeneratorNet.forward_stage at 1.
  cbn [with_lod PGGANGeneratorNet.lod PGGANGeneratorNet.final_res_log2
       PGGANGeneratorNet.init_res_log2].
  rewrite Hf.
  destruct (Rle_dec (IZR 2 + l) (IZR (Z.log2 resolution))) as [Hle|_]; [lra|].
  destruct (getattr_elem_of net "upsample") as (up & Hup & _).
  { rewrite Hnames. unfold module_names. apply elem_of_app. right.
    apply elem_of_cons. by left. }
  change (PGGANGeneratorNet.getattr (with_lod l net) "upsample")
    with (PGGANGeneratorNet.getattr net "upsample").
  rewrite Hup. reflexivity.
Qed.

Lemma append_assoc (a b c : string) : ((a ++ b) ++ c = a ++ (b ++ c))%string.
Proof.
  induction a as [|x a IH]; [reflexivity|].
  change (String x ((a ++ b) ++ c) = String x (a ++ (b ++ c)))%string. by rewrite IH.
Qed.

(** X14.  The forward pass on a non-empty matrix whose rows do not have
    [z_space_dim] entries raises [ValueError], and the message ends with
    the shape received, printed as [torch.Size([B, D])]. *)
Theorem PGGANGeneratorNet_forward_shape_error (self : PGGANGeneratorNet.t)
    (apply : module -> Tensor -> res Tensor) (m : tensor 2) (B D : nat) :
  has_shape 2 [B; D] m -> (0 < B)%nat ->
  Z.of_nat D <> PGGANGeneratorNet.z_space_dim self ->
  PGGANGeneratorNet.forward apply self (mk 2 m)
  = Raise (ValueError
             ("The input tensor should be with shape [batch_size, " ++
              "latent_space_dim], where `latent_space_dim` equals to " ++
              Py.str (PGGANGeneratorNet.z_space_dim self) ++ "!" ++ newline ++
              "But torch.Size([" ++ Py.str (Z.of_nat B) ++ ", " ++
              Py.str (Z.of_nat D) ++ "]) received!")%string).
Proof.
  intros Hm HB HD. unfold PGGANGeneratorNet.forward, PGGANGeneratorNet.check_latent.
  cbn [projT1 projT2 mk]. rewrite cast_refl.
  apply has_shape_matrix in Hm as [Hlen Hrows].
  destruct m as [|row m]; [cbn in Hlen; lia|].
  apply Forall_cons in Hrows as [Hrow _].
  cbn [forallb]. rewrite Hrow.
  destruct (Z.eqb_spec (Z.of_nat D) (PGGANGeneratorNet.z_space_dim self)) as [?|_];
    [contradiction|].
  cbn [andb mbind res_bind]. do 2 f_equal.
  replace (shape 2 (row :: m)) with [length (row :: m); length row]
    by (by destruct row).
  subst B D. unfold str_list. cbn [map String.concat].
  rewrite !append_assoc. reflexivity.
Qed.

Lemma PGGANGeneratorNet_forward_witness_net :
  exists net, PGGANGeneratorNet.__init__ 8 512 3 false 16384 512 = Ok net.
Proof.
  apply PGGANGeneratorNet_init_ok; [unfold allowed; cbn; tauto | lia | lia | lia | lia].
Qed.

Lemma example_latent_shape : has_shape 2 [1; Z.to_nat 512]%nat example_latent.
Proof.
  apply has_shape_matrix. split; [reflexivity|].
  repeat constructor.
Qed.

Lemma PGGANGeneratorNet_forward_no_own_error_witness :
  exists net,
    PGGANGeneratorNet.__init__ 8 512 3 false 16384 512 = Ok net /\
    exists image,
      PGGANGeneratorNet.forward (fun _ x => Ok x) net (mk 2 example_latent) = Ok image.
Proof.
  destruct PGGANGeneratorNet_forward_witness_net as [net Hnet].
  exists net. split; [exact Hnet|].
  destruct (PGGANGeneratorNet_forward_no_own_error 8 512 3 false 16384 512 net
              (fun _ x => Ok x) example_latent 1 Hnet example_latent_shape
              ltac:(lia) ltac:(lia))
    as [Hok|(blk & t & e & Hb & _)]; [exact Hok|discriminate].
Defined.

Lemma PGGANGeneratorNet_forward_skips_upsample_witness :
  exists net,
    PGGANGeneratorNet.__init__ 8 512 3 false 16384 512 = Ok net /\
    PGGANGeneratorNet.forward
      (fun m x => match m with
                  | MConvBlock _ => Ok x
                  | MResolutionScaling _ => Raise (RuntimeError "unused")
                  end) net (mk 2 example_latent)
    = PGGANGeneratorNet.forward (fun _ x => Ok x) net (mk 2 example_latent).
Proof.
  destruct PGGANGeneratorNet_forward_witness_net as [net Hnet].
  exists net. split; [exact Hnet|].
  apply (PGGANGeneratorNet_forward_skips_upsample 8 512 3 false 16384 512 net);
    [exact Hnet|reflexivity].
Defined.

Lemma PGGANGeneratorNet_forward_lod_too_large_witness :
  exists net,
    PGGANGeneratorNet.__init__ 8 512 3 false 16384 512 = Ok net /\
    PGGANGeneratorNet.forward (fun _ x => Ok x) (with_lod 2 net) (mk 2 example_latent)
    = Raise (UnboundLocalError "image").
Proof.
  destruct PGGANGeneratorNet_forward_witness_net as [net Hnet].
  exists net. split; [exact Hnet|].
  apply (PGGANGeneratorNet_forward_lod_too_large 8 512 3 false 16384 512 net
           (fun _ x => Ok x) 2%R example_latent 1 Hnet);
    [change (Z.log2 8) with 3; lra | exact example_latent_shape | lia | lia].
Defined.

Lemma PGGANGeneratorNet_forward_shape_error_witness :
  exists net,
    PGGANGeneratorNet.__init__ 8 512 3 false 16384 512 = Ok net /\
    exists msg,
      PGGANGeneratorNet.forward (fun _ x => Ok x) net (mk 2 example_short_latent)
      = Raise (ValueError msg) /\
      Py.contains msg "But torch.Size([1, 3]) received!" = true.
Proof.
  destruct PGGANGeneratorNet_forward_witness_net as [net Hnet].
  exists net. split; [exact Hnet|].
  destruct (PGGANGeneratorNet_init_inv _ _ _ _ _ _ _ Hnet)
    as (_ & _ & _ & _ & _ & _ & Hzd & _).
  eexists. split.
  - apply (PGGANGeneratorNet_forward_shape_error net (fun _ x => Ok x)
             example_short_latent 1 3).
    + repeat constructor.
    + lia.
    + rewrite Hzd. lia.
  - rewrite Hzd. by vm_compute.
Defined.

Lemma Sequential_app (pre post : list layer) (x : pyval) :
  Sequential (pre ++ post) x = (y ← Sequential pre x; Sequential post y).
Proof.
  revert x. induction pre as [|m pre IH]; intros x; [reflexivity|].
  cbn [app Sequential]. destruct (m x) as [y|e]; [apply IH|reflexivity].
Qed.

Lemma slice_to_from {A : Type} (l : list A) (i : Z) :
  Py.slice_to l i ++ Py.slice_from l i = l.
Proof. unfold Py.slice_to, Py.slice_from. apply firstn_skipn. Qed.

Lemma PGGAN_multi_z_init_fields (get_gan_model : gan_utils) (gan_model_name : string)
    (blending_layer z_number : Z) (args : args_t) (self : PGGAN_multi_z.t) :
  PGGAN_multi_z.__init__ get_gan_model gan_model_name blending_layer z_number args = Ok self ->
  get_gan_model gan_model_name = Ok (PGGAN_multi_z.pggan self) /\
  PGGAN_multi_z.blending_layer self = blending_layer /\
  PGGAN_multi_z.pre_model self
  = Py.slice_to (children (PGGAN_multi_z.pggan self)) blending_layer /\
  PGGAN_multi_z.post_model self
  = Py.slice_from (children (PGGAN_multi_z.pggan self)) blending_layer /\
  exists h w,
    Py.getitem (if (gan_model_name =? "PGGAN-CelebA")%string
                then PGGAN_LATENT_1024 else PGGAN_LATENT_256) blending_layer
    = Ok (PGGAN_multi_z.layer_c_number self, h, w) /\
    PGGAN_multi_z.mask_size self = [h; w].
Proof.
  unfold PGGAN_multi_z.__init__. destruct (get_gan_model gan_model_name) as [g|]; [|discriminate].
  cbn [mbind res_bind].
  destruct (Py.getitem _ blending_layer) as [[[c h] w]|] eqn:E; [|discriminate].
  cbn [mbind res_bind]. intros [= <-]. cbn. repeat split; eauto.
Qed.

(** X15.  The pre- and post-stage of a constructed multi-code wrapper
    partition the children of the generator in order, for every
    [blending_layer] (negative or too large ones included): running the
    pre-stage and then the post-stage is running all the children in
    sequence. *)
Theorem PGGAN_multi_z_split_composes (get_gan_model : gan_utils) (gan_model_name : string)
    (blending_layer z_number : Z) (args : args_t) (self : PGGAN_multi_z.t) :
  PGGAN_multi_z.__init__ get_gan_model gan_model_name blending_layer z_number args = Ok self ->
  PGGAN_multi_z.pre_model self ++ PGGAN_multi_z.post_model self
  = children (PGGAN_multi_z.pggan self) /\
  forall x,
    (y ← Sequential (PGGAN_multi_z.pre_model self) x;
     Sequential (PGGAN_multi_z.post_model self) y)
    = Sequential (children (PGGAN_multi_z.pggan self)) x.
Proof.
  intros Hinit.
  destruct (PGGAN_multi_z_init_fields _ _ _ _ _ _ Hinit) as (_ & _ & Hpre & Hpost & _).
  assert (Happ : PGGAN_multi_z.pre_model self ++ PGGAN_multi_z.post_model self
                 = children (PGGAN_multi_z.pggan self)).
  { rewrite Hpre, Hpost. apply slice_to_from. }
  split; [exact Happ|]. intros x. by rewrite <- Happ, Sequential_app.
Qed.

Lemma PGGAN_multi_z_split_composes_witness :
  PGGAN_multi_z.pre_model example_multi ++ PGGAN_multi_z.post_model example_multi
  = children (PGGAN_multi_z.pggan example_multi) /\
  forall x,
    (y ← Sequential (PGGAN_multi_z.pre_model example_multi) x;
     Sequential (PGGAN_multi_z.post_model example_multi) y)
    = Sequential (children (PGGAN_multi_z.pggan example_multi)) x.
Proof.
  apply (PGGAN_multi_z_split_composes example_gan_utils "PGGAN-CelebA" 0 2 example_args).
  reflexivity.
Defined.

Lemma getitem_range {A : Type} (l : list A) (i : Z) :
  (- Z.of_nat (length l) <= i < Z.of_nat (length l) -> exists x, Py.getitem l i = Ok x) /\
  (~ (- Z.of_nat (length l) <= i < Z.of_nat (length l)) ->
   Py.getitem l i = Raise (IndexError "index out of range")).
Proof.
  unfold Py.getitem. split; intros Hi.
  - destruct (Z.ltb_spec i 0) as [Hneg|Hpos].
    + destruct (Z.ltb_spec (i + Z.of_nat (length l)) 0) as [?|_]; [lia|].
      destruct (Z.leb_spec (Z.of_nat (length l)) (i + Z.of_nat (length l))) as [?|_]; [lia|].
      cbn [orb].
      destruct (lookup_lt_is_Some_2 l (Z.to_nat (i + Z.of_nat (length l)))) as [x Hx]; [lia|].
      rewrite Hx. eauto.
    + destruct (Z.ltb_spec i 0) as [?|_]; [lia|].
      destruct (Z.leb_spec (Z.of_nat (length l)) i) as [?|_]; [lia|].
      cbn [orb].
      destruct (lookup_lt_is_Some_2 l (Z.to_nat i)) as [x Hx]; [lia|].
      rewrite Hx. eauto.
  - destruct (Z.ltb_spec i 0) as [Hneg|Hpos].
    + destruct (Z.ltb_spec (i + Z.of_nat (length l)) 0) as [?|?]; [reflexivity|].
      destruct (Z.leb_spec (Z.of_nat (length l)) (i + Z.of_nat (length l))) as [?|?];
        [reflexivity|lia].
    + destruct (Z.ltb_spec i 0) as [?|_]; [lia|].
      destruct (Z.leb_spec (Z.of_nat (length l)) i) as [?|?]; [reflexivity|lia].
Qed.

(** X16.  Once the generator is loaded, the constructor of the multi-code
    wrapper succeeds exactly for [-n <= blending_layer < n], where [n] is
    20 for ['PGGAN-CelebA'] and 16 for every other name, and raises
    [IndexError] otherwise.  On success [z_dim] is 512, the channel number
    is between 1 and 512 and the mask is square. *)
Theorem PGGAN_multi_z_init_blending_layer_range (get_gan_model : gan_utils)
    (gan_model_name : string) (blending_layer z_number : Z) (args : args_t)
    (g : gan_model) :
  get_gan_model gan_model_name = Ok g ->
  let depth := if (gan_model_name =? "PGGAN-CelebA")%string then 20 else 16 in
  (- depth <= blending_layer < depth ->
   exists self,
     PGGAN_multi_z.__init__ get_gan_model gan_model_name blending_layer z_number args
     = Ok self /\
     PGGAN_multi_z.z_number self = z_number /\
     PGGAN_multi_z.z_dim self = 512 /\
     0 < PGGAN_multi_z.layer_c_number self <= 512 /\
     exists h, PGGAN_multi_z.mask_size self = [h; h] /\ 0 < h) /\
  (~ (- depth <= blending_layer < depth) ->
   exists msg,
     PGGAN_multi_z.__init__ get_gan_model gan_model_name blending_layer z_number args
     = Raise (IndexError msg)).
Proof.
  intros Hg depth. unfold PGGAN_multi_z.__init__. rewrite Hg. cbn [mbind res_bind].
  set (table := if (gan_model_name =? "PGGAN-CelebA")%string
                then PGGAN_LATENT_1024 else PGGAN_LATENT_256).
  assert (Hlen : Z.of_nat (length table) = depth).
  { unfold table, depth. by destruct (gan_model_name =? "PGGAN-CelebA")%string. }
  assert (Htab : Forall (fun e => 0 < e.1.1 <= 512 /\ e.1.2 = e.2 /\ 0 < e.2) table).
  { unfold table. destruct (gan_model_name =? "PGGAN-CelebA")%string;
      repeat constructor; cbn; lia. }
  destruct (getitem_range table blending_layer) as [Hin Hout].
  rewrite Hlen in Hin, Hout. split; intros Hb.
  - destruct (Hin Hb) as [[[c h] w] Hx]. rewrite Hx. cbn [mbind res_bind].
    eexists. split; [reflexivity|]. cbn.
    apply getitem_In in Hx. rewrite Forall_forall in Htab.
    apply list_elem_of_In in Hx. destruct (Htab _ Hx) as (Hc & Hhw & Hw). cbn in *.
    subst h. repeat split; try lia. exists w. by split.
  - rewrite (Hout Hb). cbn [mbind res_bind]. eauto.
Qed.

Lemma PGGAN_multi_z_init_blending_layer_range_witness :
  (exists self,
     PGGAN_multi_z.__init__ example_gan_utils "PGGAN-CelebA" (-1) 30 example_args
     = Ok self /\
     PGGAN_multi_z.mask_size self = [1024; 1024]) /\
  (exists msg,
     PGGAN_multi_z.__init__ example_gan_utils "PGGAN-CelebA" 20 30 example_args
     = Raise (IndexError msg)).
Proof.
  split.
  - destruct (proj1 (PGGAN_multi_z_init_blending_layer_range example_gan_utils
                       "PGGAN-CelebA" (-1) 30 example_args example_gan_model eq_refl))
      as (self & Hself & _); [cbn; lia|].
    exists self. split; [exact Hself|].
    cbv in Hself. injection Hself as <-. reflexivity.
  - apply (proj2 (PGGAN_multi_z_init_blending_layer_range example_gan_utils
                    "PGGAN-CelebA" 20 30 example_args example_gan_model eq_refl)).
    cbn. lia.
Defined.

(** X17.  [init_value] raises [RuntimeError] for a negative [batch_size],
    and [ZeroDivisionError] for a wrapper without codes ([z_number = 0]). *)
Theorem PGGAN_multi_z_init_value_errors (self : PGGAN_multi_z.t) (batch_size : Z)
    (g : rng) :
  (batch_size < 0 ->
   exists msg, PGGAN_multi_z.init_value self batch_size g = Raise (RuntimeError msg)) /\
  (0 <= batch_size -> PGGAN_multi_z.z_number self = 0 ->
   0 <= PGGAN_multi_z.z_dim self ->
   PGGAN_multi_z.init_value self batch_size g = Raise ZeroDivisionError).
Proof.
  unfold PGGAN_multi_z.init_value, randn. split.
  - intros Hb. unfold check_size. cbn [forallb].
    destruct (Z.leb_spec 0 batch_size) as [?|_]; [lia|]. cbn. eauto.
  - intros Hb Hz Hd. rewrite check_size_ok by (repeat constructor; lia).
    cbn [mbind res_bind]. destruct (randn_n _ g) as [t g'].
    rewrite Hz. reflexivity.
Qed.

Lemma PGGAN_multi_z_init_value_errors_witness :
  exists self,
    PGGAN_multi_z.__init__ example_gan_utils "PGGAN-CelebA" 6 0 example_args = Ok self /\
    (exists msg,
        PGGAN_multi_z.init_value self (-1) (fun _ => 0%R) = Raise (RuntimeError msg)) /\
    PGGAN_multi_z.init_value self 1 (fun _ => 0%R) = Raise ZeroDivisionError.
Proof.
  eexists. split; [reflexivity|]. split.
  - apply (proj1 (PGGAN_multi_z_init_value_errors _ (-1) (fun _ => 0%R))). lia.
  - apply (proj2 (PGGAN_multi_z_init_value_errors _ 1 (fun _ => 0%R))); cbn; lia.
Defined.

(** X18.  The forward pass of a multi-code wrapper without codes
    ([z_number = 0]) raises [ZeroDivisionError], whatever the two inputs
    are. *)
Theorem PGGAN_multi_z_forward_no_codes (self : PGGAN_multi_z.t)
    (z_estimate alpha_estimate : pyval) :
  PGGAN_multi_z.z_number self = 0 ->
  PGGAN_multi_z.forward self [z_estimate; alpha_estimate] = Raise ZeroDivisionError.
Proof.
  intros Hz. unfold PGGAN_multi_z.forward, PGGAN_multi_z.fused_feature_map.
  rewrite Hz. reflexivity.
Qed.

Lemma PGGAN_multi_z_forward_no_codes_witness :
  exists self,
    PGGAN_multi_z.__init__ example_gan_utils "PGGAN-CelebA" 6 0 example_args = Ok self /\
    PGGAN_multi_z.forward self [PyNum 0%R; PyNum 0%R] = Raise ZeroDivisionError.
Proof.
  eexists. split; [reflexivity|].
  apply PGGAN_multi_z_forward_no_codes. reflexivity.
Defined.

(** X19.  The generator made by [get_derivable_generator] for the type
    ['PGGAN-Multi-Z'] is a multi-code wrapper around the generator loaded
    under the given name, split at [args.composing_layer], with
    [args.z_number] codes, with its own initialiser, and with the input
    sizes [(z_number, 512)] and [(z_number, layer_c_number)]. *)
Theorem get_derivable_generator_multi_wiring (get_gan_model : gan_utils)
    (gan_model_name : string) (args : args_t) (d : derivable_generator) :
  get_derivable_generator get_gan_model gan_model_name "PGGAN-Multi-Z" args = Ok d ->
  exists g,
    d = Multi g /\
    PGGAN_multi_z.blending_layer g = composing_layer args /\
    PGGAN_multi_z.z_number g = args_z_number args /\
    PGGAN_multi_z.init g = true /\
    PGGAN_multi_z.input_size g
    = [[args_z_number args; 512]; [args_z_number args; PGGAN_multi_z.layer_c_number g]] /\
    get_gan_model gan_model_name = Ok (PGGAN_multi_z.pggan g).
Proof.
  unfold get_derivable_generator. cbn [String.eqb Ascii.eqb Bool.eqb].
  destruct (PGGAN_multi_z.__init__ _ _ _ _ _) as [g|] eqn:E; [|discriminate].
  cbn [mbind res_bind]. intros [= <-]. exists g. split; [reflexivity|].
  destruct (PGGAN_multi_z_init_fields _ _ _ _ _ _ E) as (Hg & Hb & _).
  destruct (PGGAN_multi_z_init_inv _ _ _ _ _ _ E) as (Hn & Hd & Hi & _).
  unfold PGGAN_multi_z.input_size. rewrite Hn, Hd. by repeat split.
Qed.

Lemma get_derivable_generator_multi_wiring_witness :
  exists g,
    get_derivable_generator example_gan_utils "PGGAN-CelebA" "PGGAN-Multi-Z" example_args
    = Ok (Multi g) /\
    PGGAN_multi_z.input_size g = [[30; 512]; [30; 512]].
Proof.
  destruct (get_derivable_generator_multi_wiring example_gan_utils "PGGAN-CelebA"
              example_args _ eq_refl) as (g & Hd & _ & _ & _ & Hs & _).
  exists g. split; [by rewrite <- Hd|].
  injection Hd as <-. exact Hs.
Defined.

(** Two tensors of one shape with the same entries are equal. *)
Lemma tensor_ext (n : nat) (s : list nat) (a b : tensor n) :
  has_shape n s a -> has_shape n s b ->
  (forall idx, in_range idx s -> get n idx a = get n idx b) -> a = b.
Proof.
  revert s a b. induction n as [|k IH]; intros s a b Ha Hb Hg.
  - destruct s; [|by destruct Ha]. apply (Hg []). constructor.
  - revert a b Ha Hb Hg. norm_tensor. intros a b Ha Hb Hg.
    destruct s as [|d s]; [by destruct Ha|].
    pose proof (proj1 (has_shape_cons k d s a) Ha) as [Hla _].
    pose proof (proj1 (has_shape_cons k d s b) Hb) as [Hlb _].
    apply list_eq. intros i. destruct (Nat.lt_ge_cases i d) as [Hi|Hi].
    + destruct (has_shape_lookup k d s a i Ha Hi) as (u & Hu & Hus).
      destruct (has_shape_lookup k d s b i Hb Hi) as (v & Hv & Hvs).
      rewrite Hu, Hv. f_equal. apply (IH s u v Hus Hvs). intros idx Hr.
      assert (Hir : in_range (i :: idx) (d :: s)) by (by constructor).
      specialize (Hg (i :: idx) Hir).
      by rewrite !get_cons, Hu, Hv in Hg.
    + rewrite !lookup_ge_None_2; [reflexivity| |]; lia.
Qed.

Lemma sum_over_1 (f : nat -> R) : sum_over 1 f = f 0%nat.
Proof. unfold sum_over, Rsum. cbn. lra. Qed.

(** With uniform weights [v] the fused map is the sum of the feature maps
    times [v / z_number]. *)
Lemma fused_feature_map_uniform (self : PGGAN_multi_z.t)
    (z alpha : list (list (list R))) (F : nat -> tensor 4) (v : R) (B D C H W : nat) :
  1 <= PGGAN_multi_z.z_number self ->
  PGGAN_multi_z.z_dim self = Z.of_nat D -> (0 < D)%nat ->
  PGGAN_multi_z.layer_c_number self = Z.of_nat C -> (0 < C)%nat ->
  has_shape 3 [B; Z.to_nat (PGGAN_multi_z.z_number self); D] z ->
  has_shape 3 [B; Z.to_nat (PGGAN_multi_z.z_number self); C] alpha ->
  Forall (fun x => x = v) (flatten 3 alpha) ->
  (forall j, (j < Z.to_nat (PGGAN_multi_z.z_number self))%nat ->
     Sequential (PGGAN_multi_z.pre_model self) (PyTensor (mk 4 (code_input z j)))
       = Ok (PyTensor (mk 4 (F j))) /\
     has_shape 4 [B; C; H; W] (F j)) ->
  exists fused : tensor 4,
    PGGAN_multi_z.fused_feature_map self [PyTensor (mk 3 z); PyTensor (mk 3 alpha)]
      = Ok (PyTensor (mk 4 fused)) /\
    has_shape 4 [B; C; H; W] fused /\
    forall b c h w, (b < B)%nat -> (c < C)%nat -> (h < H)%nat -> (w < W)%nat ->
      get 4 [b; c; h; w] fused
      = (sum_over (Z.to_nat (PGGAN_multi_z.z_number self))
           (fun j => get 4 [b; c; h; w] (F j))
         * v / IZR (PGGAN_multi_z.z_number self))%R.
Proof.
  intros Hzn HD HDpos HC HCpos Hz Ha Hv Hpre.
  destruct (fused_feature_map_spec self z alpha F B D C H W Hzn HD HDpos HC HCpos Hz Ha Hpre)
    as (fused & Hf & Hfs & Hfg).
  exists fused. split; [exact Hf|]. split; [exact Hfs|].
  intros b c h w Hb Hc Hh Hw. rewrite (Hfg b c h w Hb Hc Hh Hw).
  rewrite <- sum_over_scal. f_equal. apply sum_over_ext. intros j Hj. f_equal.
  apply (get_of_flatten (fun x => x = v) 3
           [B; Z.to_nat (PGGAN_multi_z.z_number self); C] [b; j; c] alpha Hv Ha).
  repeat constructor; assumption.
Qed.

Lemma code_input_shape (z : tensor 3) (B Zn D j : nat) :
  has_shape 3 [B; Zn; D] z -> (j < Zn)%nat -> (0 < D)%nat ->
  has_shape 4 [B; D; 1; 1]%nat (code_input z j).
Proof.
  intros Hz Hj HD. destruct (select1_spec z B Zn D j Hz Hj) as (_ & Hs & _).
  apply (view_spec (slice1 j z) B D Hs HD).
Qed.


(** X21.  With a single code and all weights equal to [1], the forward pass
    of the multi-code wrapper is the sequence of all children of the
    generator applied to that code. *)
Theorem PGGAN_multi_z_single_code_unit_weights
    (get_gan_model : gan_utils) (gan_model_name : string) (blending_layer : Z)
    (args : args_t) (self : PGGAN_multi_z.t)
    (z alpha : tensor 3) (F0 : tensor 4) (B H W : nat) :
  PGGAN_multi_z.__init__ get_gan_model gan_model_name blending_layer 1 args = Ok self ->
  has_shape 3 [B; 1%nat; 512%nat] z ->
  has_shape 3 [B; 1%nat; Z.to_nat (PGGAN_multi_z.layer_c_number self)] alpha ->
  Forall (fun x => x = 1%R) (flatten 3 alpha) ->
  Sequential (PGGAN_multi_z.pre_model self) (PyTensor (mk 4 (code_input z 0)))
  = Ok (PyTensor (mk 4 F0)) ->
  has_shape 4 [B; Z.to_nat (PGGAN_multi_z.layer_c_number self); H; W] F0 ->
  PGGAN_multi_z.forward self [PyTensor (mk 3 z); PyTensor (mk 3 alpha)]
  = Sequential (children (PGGAN_multi_z.pggan self)) (PyTensor (mk 4 (code_input z 0))).
Proof.
  intros Hinit Hz Ha Hall Hpre HF.
  destruct (PGGAN_multi_z_init_inv _ _ _ _ _ _ Hinit) as (Hn & Hd & _ & Hc).
  destruct (PGGAN_multi_z_init_fields _ _ _ _ _ _ Hinit) as (_ & _ & Hp & Hq & _).
  destruct (fused_feature_map_uniform self z alpha (fun _ => F0) 1%R B 512
              (Z.to_nat (PGGAN_multi_z.layer_c_number self)) H W)
    as (fused & Hf & Hfs & Hfg); rewrite ?Hn; try assumption; try lia.
  { intros j Hj. change (Z.to_nat 1) with 1%nat in Hj.
    assert (j = 0%nat) as -> by lia. by split. }
  assert (Heq : fused = F0).
  { apply (tensor_ext 4 _ fused F0 Hfs HF). intros idx Hr.
    apply in_range_cons_inv in Hr as (b & idx1 & -> & Hb' & Hr).
    apply in_range_cons_inv in Hr as (c & idx2 & -> & Hc' & Hr).
    apply in_range_cons_inv in Hr as (h & idx3 & -> & Hh & Hr).
    apply in_range_cons_inv in Hr as (w & idx4 & -> & Hw & Hr).
    inversion Hr; subst. rewrite (Hfg b c h w Hb' Hc' Hh Hw), Hn.
    change (Z.to_nat 1) with 1%nat. rewrite sum_over_1. lra. }
  unfold PGGAN_multi_z.forward. rewrite Hf, Heq. cbn [mbind res_bind].
  rewrite <- (slice_to_from (children (PGGAN_multi_z.pggan self)) blending_layer).
  rewrite Sequential_app, <- Hp, <- Hq, Hpre. reflexivity.
Qed.


Lemma PGGAN_multi_z_single_code_unit_weights_witness :
  exists self,
    PGGAN_multi_z.__init__ example_gan_utils "PGGAN-CelebA" 0 1 example_args = Ok self /\
    PGGAN_multi_z.forward self
      [PyTensor (mk 3 example_single_code); PyTensor (mk 3 example_single_code)]
    = Sequential (children (PGGAN_multi_z.pggan self))
        (PyTensor (mk 4 (code_input example_single_code 0))).
Proof.
  eexists. split; [reflexivity|].
  apply (PGGAN_multi_z_single_code_unit_weights example_gan_utils "PGGAN-CelebA" 0
           example_args _ example_single_code example_single_code
           (code_input example_single_code 0) 1 1 1 eq_refl).
  - exact (full_n_shape [1; 1; 512]%nat 1%R).
  - exact (full_n_shape [1; 1; 512]%nat 1%R).
  - exact (full_n_all [1; 1; 512]%nat 1%R).
  - reflexivity.
  - apply (code_input_shape example_single_code 1 1 512 0
             (full_n_shape [1; 1; 512]%nat 1%R)); lia.
Defined.

Lemma heap_step_refl (ls : list loc) (h : list cell) : heap_step ls h h.
Proof. split; [lia|]. by intros l _. Qed.

Lemma heap_step_trans (ls : list loc) (h1 h2 h3 : list cell) :
  heap_step ls h1 h2 -> heap_step ls h2 h3 -> heap_step ls h1 h3.
Proof.
  intros [Hl12 H12] [Hl23 H23]. split; [lia|]. intros l Hl.
  destruct (H12 l Hl) as [Hr12 Hd12]. destruct (H23 l ltac:(lia)) as [Hr23 Hd23].
  split; [by rewrite Hr23|]. intros Hn. by rewrite Hd23, Hd12.
Qed.

Lemma heap_step_app (ls : list loc) (h extra : list cell) : heap_step ls h (h ++ extra).
Proof.
  split; [rewrite length_app; lia|]. intros l Hl.
  rewrite lookup_app_l by assumption. by split.
Qed.

Lemma lookup_alter_same {A : Type} (f : A -> A) (l : list A) (i : nat) :
  alter f i l !! i = f <$> l !! i.
Proof.
  revert i. induction l as [|x l IH]; intros [|i]; try reflexivity. apply IH.
Qed.

Lemma write_all_heap_requires_grad (ls : list loc) (vs : list Tensor) (h : list cell)
    (l : loc) :
  requires_grad <$> write_all_heap ls vs h !! l = requires_grad <$> h !! l.
Proof.
  unfold write_all_heap. generalize (combine ls vs). intros ps. revert h.
  induction ps as [|[l0 v] ps IH]; intros h; [reflexivity|].
  cbn [fold_left fst snd]. rewrite IH. unfold write_heap.
  destruct (decide (l0 = l)) as [->|Hne].
  - rewrite lookup_alter_same. unfold loc in *. by destruct (h !! l).
  - by rewrite list_lookup_alter_ne.
Qed.

Lemma heap_step_write_all (ls : list loc) (vs : list Tensor) (h : list cell) :
  heap_step ls h (write_all_heap ls vs h).
Proof.
  split; [by rewrite length_write_all_heap|]. intros l _. split.
  - apply write_all_heap_requires_grad.
  - apply write_all_heap_other.
Qed.

Lemma require_grad_heap_other (ls : list loc) (h : list cell) (l : loc) :
  l ∉ ls -> require_grad_heap ls h !! l = h !! l.
Proof.
  unfold require_grad_heap. revert h. induction ls as [|l0 ls IH]; intros h Hl; [reflexivity|].
  apply not_elem_of_cons in Hl as [Hne Hl]. cbn [fold_left].
  rewrite IH by assumption. by rewrite list_lookup_alter_ne.
Qed.

Lemma require_grad_heap_data (ls : list loc) (h : list cell) (l : loc) :
  data <$> require_grad_heap ls h !! l = data <$> h !! l.
Proof.
  unfold require_grad_heap. revert h. induction ls as [|l0 ls IH]; intros h; [reflexivity|].
  cbn [fold_left]. rewrite IH. destruct (decide (l0 = l)) as [->|Hne].
  - rewrite lookup_alter_same. unfold loc in *. by destruct (h !! l).
  - by rewrite list_lookup_alter_ne.
Qed.

Lemma require_grad_heap_set (ls : list loc) (h : list cell) (l : loc) :
  l ∈ ls -> (l < length h)%nat ->
  requires_grad <$> require_grad_heap ls h !! l = Some true.
Proof.
  unfold require_grad_heap. revert h. induction ls as [|l0 ls IH]; intros h Hin Hl.
  - by apply elem_of_nil in Hin.
  - cbn [fold_left]. destruct (decide (l ∈ ls)) as [Hin'|Hnin].
    + apply IH; [assumption|]. by rewrite length_alter.
    + apply elem_of_cons in Hin as [->|?]; [|contradiction].
      fold (require_grad_heap ls
              (alter (fun c => {| data := data c; requires_grad := true |}) l0 h)).
      rewrite require_grad_heap_other by assumption.
      rewrite lookup_alter_same. unfold loc in *.
      destruct (lookup_lt_is_Some_2 h l0 Hl) as [c ->]. reflexivity.
Qed.

Lemma deref_prepared (s : state) (ls : list loc) (l : loc) :
  deref (prepared s ls) l = deref s l.
Proof.
  unfold deref, lookup_cell, prepared. cbn [heap].
  pose proof (require_grad_heap_data ls (heap s) l) as H.
  destruct (require_grad_heap ls (heap s) !! l), (heap s !! l); cbn in *; congruence.
Qed.

Lemma M_mapM_new_tensor_run (ts : list Tensor) (s : state) :
  M_mapM new_tensor ts s
  = ({| heap := heap s ++ map fresh_cell ts; gen := gen s |},
     Ok (seq (length (heap s)) (length ts))).
Proof.
  revert s. induction ts as [|t ts IH]; intros s.
  - cbn. rewrite app_nil_r. by destruct s.
  - cbn [M_mapM]. rewrite M_bind_run, new_tensor_run, M_bind_run, IH. cbn [heap gen].
    rewrite length_app, <- app_assoc. cbn [length map app seq].
    by rewrite Nat.add_1_r.
Qed.

Section frame.

Context {AG : Autograd}.

Variable self : GradientDescent.t.
Variable generator : Generator.
Variable gt_image : pyval.
Variable loss_function : pyval -> pyval -> res pyval.
Variable batch_size : Z.

Lemma init_one_heap (acc : list loc) (input_size : list Z) (s s' : state)
    (r : res (list loc)) :
  GradientDescent.init_one self batch_size acc input_size s = (s', r) ->
  exists extra,
    heap s' = heap s ++ extra /\
    forall ls, r = Ok ls ->
      exists new, ls = acc ++ new /\
                  Forall (fun l => (length (heap s) <= l)%nat) new.
Proof.
  unfold GradientDescent.init_one.
  destruct (GradientDescent.init_type self =? "Zero")%string.
  - rewrite M_bind_run. unfold lift at 1.
    destruct (zeros (batch_size :: input_size)) as [t|e].
    + rewrite M_bind_run, new_tensor_run, M_ret_run. intros [= <- <-].
      eexists. split; [reflexivity|]. intros ls [= <-].
      eexists. split; [reflexivity|]. by repeat constructor.
    + intros [= <- <-]. exists []. split; [by rewrite app_nil_r|]. discriminate.
  - destruct (GradientDescent.init_type self =? "Normal")%string.
    + rewrite M_bind_run. unfold lift_rng at 1.
      destruct (randn (batch_size :: input_size) (gen s)) as [[t g']|e].
      * rewrite M_bind_run, new_tensor_run, M_ret_run. intros [= <- <-].
        eexists. split; [reflexivity|]. intros ls [= <-].
        eexists. split; [reflexivity|]. by repeat constructor.
      * intros [= <- <-]. exists []. split; [by rewrite app_nil_r|]. discriminate.
    + rewrite M_ret_run. intros [= <- <-]. exists [].
      split; [by rewrite app_nil_r|]. intros ls [= <-]. exists [].
      split; [by rewrite app_nil_r|constructor].
Qed.

Lemma init_loop_heap (sizes : list (list Z)) (acc : list loc) (s s' : state)
    (r : res (list loc)) :
  M_foldM (GradientDescent.init_one self batch_size) acc sizes s = (s', r) ->
  exists extra,
    heap s' = heap s ++ extra /\
    forall ls, r = Ok ls ->
      exists new, ls = acc ++ new /\
                  Forall (fun l => (length (heap s) <= l)%nat) new.
Proof.
  revert acc s. induction sizes as [|sz sizes IH]; intros acc s.
  - cbn [M_foldM]. rewrite M_ret_run. intros [= <- <-]. exists [].
    split; [by rewrite app_nil_r|]. intros ls [= <-]. exists [].
    split; [by rewrite app_nil_r|constructor].
  - cbn [M_foldM]. rewrite M_bind_run.
    destruct (GradientDescent.init_one self batch_size acc sz s) as [s1 r1] eqn:E.
    destruct (init_one_heap acc sz s s1 r1 E) as (extra1 & Hh1 & Hr1).
    destruct r1 as [acc1|e].
    + intros Hrest. destruct (IH acc1 s1 Hrest) as (extra2 & Hh2 & Hr2).
      exists (extra1 ++ extra2). split; [by rewrite Hh2, Hh1, app_assoc|].
      intros ls Hls. destruct (Hr2 ls Hls) as (new2 & -> & Hn2).
      destruct (Hr1 acc1 eq_refl) as (new1 & -> & Hn1).
      exists (new1 ++ new2). split; [by rewrite app_assoc|].
      apply Forall_app. split; [exact Hn1|].
      eapply Forall_impl; [exact Hn2|]. intros l Hl. cbn beta in *.
      rewrite Hh1, length_app in Hl. lia.
    + intros [= <- <-]. exists extra1. split; [exact Hh1|]. discriminate.
Qed.

(** The statements that bind the latents allocate, and do nothing else
    to the heap. *)
Lemma initial_latents_heap (init_ : list loc) (s s0 : state) (r : res (list loc)) :
  GradientDescent.initial_latents self generator batch_size init_ s = (s0, r) ->
  exists extra,
    heap s0 = heap s ++ extra /\
    forall latents, r = Ok latents ->
      (init_ <> [] /\ latents = init_) \/
      (init_ = [] /\ Forall (fun l => (length (heap s) <= l)%nat) latents).
Proof.
  destruct init_ as [|l0 ls0].
  - unfold GradientDescent.initial_latents. cbn [length Nat.eqb].
    destruct (negb (init generator)).
    + intros H. destruct (init_loop_heap _ _ _ _ _ H) as (extra & Hh & Hr).
      exists extra. split; [exact Hh|]. intros latents Hl. right. split; [reflexivity|].
      destruct (Hr latents Hl) as (new & -> & Hn). exact Hn.
    + rewrite M_bind_run. unfold lift_rng at 1.
      destruct (init_value generator batch_size (gen s)) as [[ts g']|e].
      * rewrite M_mapM_new_tensor_run. cbn [heap gen]. intros [= <- <-].
        eexists. split; [reflexivity|]. intros latents [= <-]. right.
        split; [reflexivity|]. apply Forall_forall. intros l Hl.
        apply list_elem_of_In, in_seq in Hl. lia.
      * intros [= <- <-]. exists []. split; [by rewrite app_nil_r|]. discriminate.
  - rewrite initial_latents_given by discriminate.
    destruct (_ =? _)%nat; intros [= <- <-]; exists [];
      (split; [by rewrite app_nil_r|]); [|discriminate].
    intros latents [= <-]. left. by split.
Qed.

Lemma iteration_heap (video : bool) (latents : list loc)
    (st : OptState * list (list loc)) (i : Z) (s s' : state)
    (r : res (OptState * list (list loc))) :
  valid s latents ->
  GradientDescent.iteration self generator gt_image loss_function video latents st i s
  = (s', r) ->
  heap_step latents (heap s) (heap s').
Proof.
  intros Hv. destruct st as [opt hist]. rewrite iteration_run.
  destruct (GradientDescent.descend _ _ _ _ opt _) as [[opt' vs']|e].
  - cbn zeta. destruct video.
    + set (s1 := {| heap := write_all_heap latents vs' (heap s); gen := gen s |}).
      assert (Hv1 : valid s1 latents).
      { unfold valid, s1. cbn [heap]. by rewrite length_write_all_heap. }
      destruct (deepcopy_spec latents s1 Hv1) as (s2 & h & cells & Hdc & _ & Hh2 & _).
      rewrite Hdc. intros [= <- <-].
      rewrite Hh2. eapply heap_step_trans; [|apply heap_step_app].
      apply heap_step_write_all.
    + intros [= <- <-]. cbn [heap]. apply heap_step_write_all.
  - intros [= <- <-]. apply heap_step_refl.
Qed.

(** The optimisation loop writes to the latents only. *)
Lemma loop_heap (video : bool) (latents : list loc) (opt0 : OptState) (k : nat)
    (s s' : state) (r : res (OptState * list (list loc))) :
  valid s latents ->
  loop self generator gt_image loss_function video latents opt0 k s = (s', r) ->
  heap_step latents (heap s) (heap s').
Proof.
  intros Hv. revert s' r. induction k as [|k IH]; intros s' r.
  - intros H.
    change ((s, Ok (opt0, @nil (list loc))) = (s', r)) in H.
    injection H as <- <-. apply heap_step_refl.
  - rewrite loop_S.
    destruct (loop self generator gt_image loss_function video latents opt0 k s)
      as [s1 r1] eqn:E.
    pose proof (IH s1 r1 eq_refl) as H1.
    destruct r1 as [st|e].
    + intros Hit. eapply heap_step_trans; [exact H1|].
      eapply iteration_heap; [|exact Hit].
      eapply valid_grow; [|exact Hv]. apply H1.
    + by intros [= <- <-].
Qed.

Lemma heap_step_prepared (s : state) (latents : list loc) :
  (length (heap s) <= length (heap (prepared s latents)))%nat /\
  forall l, l ∉ latents -> heap (prepared s latents) !! l = heap s !! l.
Proof.
  unfold prepared. cbn [heap]. split; [by rewrite length_require_grad_heap|].
  intros l Hl. by apply require_grad_heap_other.
Qed.

(** What a call of [invert] leaves of the heap it starts from, whatever
    its outcome. *)
Lemma invert_heap (video : bool) (init_ : list loc) (s s' : state)
    (r : res (list loc * list (list loc))) :
  valid s init_ ->
  GradientDescent.invert self generator gt_image loss_function batch_size video init_ s
  = (s', r) ->
  (length (heap s) <= length (heap s'))%nat /\
  (forall l, (l < length (heap s))%nat -> l ∉ init_ -> heap s' !! l = heap s !! l) /\
  forall latents history, r = Ok (latents, history) ->
    Forall (fun l => requires_grad <$> heap s' !! l = Some true) latents.
Proof.
  intros Hv. rewrite invert_run.
  destruct (GradientDescent.initial_latents self generator batch_size init_ s)
    as [s0 r0] eqn:E0.
  destruct (initial_latents_heap init_ s s0 r0 E0) as (extra & Hh0 & Hr0).
  destruct r0 as [latents|e].
  - pose proof (initial_latents_valid self generator batch_size init_ s s0 latents
                  Hv E0) as Hv0.
    assert (Hout : forall l, (l < length (heap s))%nat -> l ∉ init_ -> l ∉ latents).
    { intros l Hl Hn. destruct (Hr0 latents eq_refl) as [[_ ->]|[_ Hf]]; [exact Hn|].
      intros Hin. rewrite Forall_forall in Hf. specialize (Hf l Hin). cbn beta in Hf. lia. }
    rewrite optimise_run.
    destruct (heap_step_prepared s0 latents) as [Hlp Hpo].
    destruct (optimizer_check _ _ _) as [[]|e].
    + destruct (loop self generator gt_image loss_function video latents _ _
                  (prepared s0 latents)) as [s1 r1] eqn:E1.
      pose proof (loop_heap video latents _ _ _ s1 r1
                    (valid_prepared s0 latents latents Hv0) E1) as [Hl1 H1].
      assert (Hlen : (length (heap s) <= length (heap s1))%nat).
      { rewrite Hh0, length_app in Hlp. lia. }
      assert (Hsame : forall l, (l < length (heap s))%nat -> l ∉ init_ ->
                                heap s1 !! l = heap s !! l).
      { intros l Hl Hn. pose proof (Hout l Hl Hn) as Hnl.
        assert (Hl0 : (l < length (heap s0))%nat) by (rewrite Hh0, length_app; lia).
        destruct (H1 l ltac:(lia)) as [_ Hd].
        etrans; [exact (Hd Hnl)|]. etrans; [exact (Hpo l Hnl)|].
        rewrite Hh0. by apply lookup_app_l. }
      destruct r1 as [[opt history]|e]; intros [= <- <-];
        (split; [exact Hlen|]); (split; [exact Hsame|]); [|discriminate].
      intros latents' history' [= <- <-]. apply Forall_forall. intros l Hin.
      unfold valid in Hv0. rewrite Forall_forall in Hv0. pose proof (Hv0 l Hin) as Hl.
      cbn beta in Hl.
      destruct (H1 l ltac:(lia)) as [Hr _]. etrans; [exact Hr|].
      by apply require_grad_heap_set.
    + intros [= <- <-]. split; [rewrite Hh0, length_app in Hlp; lia|].
      split; [|discriminate]. intros l Hl Hn.
      etrans; [exact (Hpo l (Hout l Hl Hn))|]. rewrite Hh0. by apply lookup_app_l.
  - intros [= <- <-]. rewrite Hh0. split; [rewrite length_app; lia|].
    split; [|discriminate]. intros l Hl _. by apply lookup_app_l.
Qed.

End frame.

(** Without iterations [invert] hands back the latents it was given. *)
Lemma invert_idle_run {AG : Autograd} (self : GradientDescent.t) (generator : Generator)
    (gt_image : pyval) (loss_function : pyval -> pyval -> res pyval) (batch_size : Z)
    (video : bool) (init_ : list loc) (s : state) :
  GradientDescent.iterations self <= 0 ->
  init_ <> [] -> length init_ = length (input_size generator) ->
  (0 <= GradientDescent.lr self)%R ->
  GradientDescent.invert self generator gt_image loss_function batch_size video init_ s
  = (prepared s init_, Ok (init_, [])).
Proof.
  intros Hit Hne Hlen Hlr.
  rewrite invert_run, initial_latents_given by assumption.
  rewrite Hlen, Nat.eqb_refl, optimise_run, (optimizer_check_ok _ _ _ Hlr Hne).
  replace (Z.to_nat (GradientDescent.iterations self)) with 0%nat by lia.
  reflexivity.
Qed.

(** X22.  With [iterations <= 0], a non-negative learning rate and as many
    initial latents as the generator has inputs, [invert] returns these
    latents and an empty history, also with [video] set, and leaves the
    entries of every tensor as they were. *)
Theorem invert_without_iterations {AG : Autograd} (self : GradientDescent.t)
    (generator : Generator) (gt_image : pyval)
    (loss_function : pyval -> pyval -> res pyval) (batch_size : Z)
    (video : bool) (init_ : list loc) (s : state) :
  GradientDescent.iterations self <= 0 ->
  init_ <> [] -> length init_ = length (input_size generator) ->
  (0 <= GradientDescent.lr self)%R ->
  exists s',
    GradientDescent.invert self generator gt_image loss_function batch_size video init_ s
    = (s', Ok (init_, [])) /\
    gen s' = gen s /\
    length (heap s') = length (heap s) /\
    forall l, deref s' l = deref s l.
Proof.
  intros Hit Hne Hlen Hlr. exists (prepared s init_).
  split; [by apply invert_idle_run|]. split; [reflexivity|].
  split; [apply length_require_grad_heap|]. intros l. apply deref_prepared.
Qed.

Lemma invert_without_iterations_witness :
  exists s',
    GradientDescent.invert (AG := example_autograd) example_gd_idle example_generator
      (PyNum 0%R) example_loss 1 true [0%nat] example_state2
    = (s', Ok ([0%nat], [])) /\
    deref s' 0%nat = mk 2 [[0%R]].
Proof.
  destruct (invert_without_iterations (AG := example_autograd) example_gd_idle
              example_generator (PyNum 0%R) example_loss 1 true [0%nat] example_state2)
    as (s' & Hrun & _ & _ & Hd).
  - cbn. lia.
  - discriminate.
  - reflexivity.
  - cbn. lra.
  - exists s'. split; [exact Hrun|]. rewrite Hd. reflexivity.
Defined.



(** X24.  The latents that [invert] returns are tensor objects with
    [requires_grad] set. *)
Theorem invert_latents_require_grad {AG : Autograd} (self : GradientDescent.t)
    (generator : Generator) (gt_image : pyval)
    (loss_function : pyval -> pyval -> res pyval) (batch_size : Z)
    (video : bool) (init_ : list loc) (s s' : state)
    (latents : list loc) (history : list (list loc)) :
  valid s init_ ->
  GradientDescent.invert self generator gt_image loss_function batch_size video init_ s
  = (s', Ok (latents, history)) ->
  valid s' latents /\
  Forall (fun l => requires_grad (lookup_cell s' l) = true) latents.
Proof.
  intros Hv Hrun.
  destruct (invert_heap self generator gt_image loss_function batch_size video init_
              s s' _ Hv Hrun) as (_ & _ & Hrg).
  specialize (Hrg latents history eq_refl).
  split.
  - eapply Forall_impl; [exact Hrg|]. intros l Hl. cbn beta in *.
    apply fmap_Some in Hl as (c & Hc & _). by eapply lookup_lt_Some.
  - eapply Forall_impl; [exact Hrg|]. intros l Hl. cbn beta in *.
    apply fmap_Some in Hl as (c & Hc & Hr).
    unfold lookup_cell. unfold loc in *. by rewrite Hc.
Qed.

Lemma invert_latents_require_grad_witness :
  exists s',
    GradientDescent.invert (AG := example_autograd) example_gd_idle example_generator
      (PyNum 0%R) example_loss 1 false [0%nat] example_state2
    = (s', Ok ([0%nat], [])) /\
    requires_grad (lookup_cell s' 0%nat) = true.
Proof.
  pose proof (invert_idle_run (AG := example_autograd) example_gd_idle example_generator
                (PyNum 0%R) example_loss 1 false [0%nat] example_state2
                ltac:(cbn; lia) ltac:(discriminate) eq_refl ltac:(cbn; lra)) as Hrun.
  eexists. split; [exact Hrun|].
  destruct (invert_latents_require_grad (AG := example_autograd) example_gd_idle
              example_generator (PyNum 0%R) example_loss 1 false [0%nat] example_state2
              _ [0%nat] [] ltac:(repeat constructor) Hrun) as [_ Hrg].
  by apply Forall_cons in Hrg as [? _].
Defined.

Lemma Forall_nonneg_forallb (l : list Z) :
  Forall (fun d => 0 <= d) l -> forallb (fun d => 0 <=? d) l = true.
Proof.
  intros H. apply forallb_forall. intros d Hd. rewrite Forall_forall in H.
  apply Z.leb_le, H. by apply list_elem_of_In.
Qed.

(** The loop that fills the latents with zeros. *)
Lemma init_loop_zero (self : GradientDescent.t) (batch_size : Z)
    (sizes : list (list Z)) (acc : list loc) (s : state) :
  GradientDescent.init_type self = "Zero"%string ->
  0 <= batch_size -> Forall (Forall (fun d => 0 <= d)) sizes ->
  M_foldM (GradientDescent.init_one self batch_size) acc sizes s
  = ({| heap := heap s ++
                map (fun sz => fresh_cell
                                 (mk (length (map Z.to_nat (batch_size :: sz)))
                                    (full_n (map Z.to_nat (batch_size :: sz)) 0%R)))
                  sizes;
        gen := gen s |},
     Ok (acc ++ seq (length (heap s)) (length sizes))).
Proof.
  intros Hty Hb Hsz. revert acc s.
  induction Hsz as [|sz sizes Hsz _ IH]; intros acc s.
  - cbn. rewrite !app_nil_r. by destruct s.
  - cbn [M_foldM]. rewrite M_bind_run. unfold GradientDescent.init_one at 1.
    rewrite Hty. cbn [String.eqb Ascii.eqb Bool.eqb].
    rewrite M_bind_run. unfold lift at 1, zeros, full.
    rewrite check_size_ok by (by constructor). cbn [mbind res_bind].
    rewrite M_bind_run, new_tensor_run, M_ret_run, IH. cbn [heap gen].
    rewrite length_app, <- !app_assoc. cbn [length map app seq].
    by rewrite Nat.add_1_r.
Qed.

(** X25.  Without initial latents, for a generator without an initialiser
    and the fill strategy ['Zero'], [invert] binds one new tensor per
    declared input, of shape [(batch_size,) + input_size] and with all
    entries zero, and leaves the existing tensors and the random
    generator as they are. *)
Theorem initial_latents_zero (self : GradientDescent.t)
    (generator : Generator) (batch_size : Z) (s : state) :
  init generator = false ->
  GradientDescent.init_type self = "Zero"%string ->
  0 <= batch_size -> Forall (Forall (fun d => 0 <= d)) (input_size generator) ->
  exists s0,
    GradientDescent.initial_latents self generator batch_size [] s
    = (s0, Ok (seq (length (heap s)) (length (input_size generator)))) /\
    gen s0 = gen s /\
    (forall l, (l < length (heap s))%nat -> heap s0 !! l = heap s !! l) /\
    forall i sz, input_size generator !! i = Some sz ->
      exists (n : nat) (t : tensor n),
        deref s0 (length (heap s) + i)%nat = mk n t /\
        n = S (length sz) /\
        has_shape n (Z.to_nat batch_size :: map Z.to_nat sz) t /\
        Forall (fun v => v = 0%R) (flatten n t).
Proof.
  intros Hinit Hty Hb Hsz.
  eexists. split.
  - unfold GradientDescent.initial_latents. cbn [length Nat.eqb]. rewrite Hinit.
    cbn [negb]. rewrite (init_loop_zero self batch_size _ [] s Hty Hb Hsz). reflexivity.
  - cbn [gen heap]. split; [reflexivity|]. split.
    + intros l Hl. by apply lookup_app_l.
    + intros i sz Hi. unfold deref, lookup_cell. cbn [heap].
      rewrite lookup_app_r by lia.
      replace (length (heap s) + i - length (heap s))%nat with i by lia.
      rewrite lookup_map, Hi. cbn [fmap option_fmap option_map default fresh_cell data].
      eexists _, _. split; [reflexivity|]. split; [cbn [map length]; by rewrite length_map|].
      split.
      * exact (full_n_shape (Z.to_nat batch_size :: map Z.to_nat sz) 0%R).
      * exact (full_n_all (Z.to_nat batch_size :: map Z.to_nat sz) 0%R).
Qed.

Lemma initial_latents_zero_witness :
  exists s0 (t : tensor 2),
    GradientDescent.initial_latents example_gd
      (of_PGGAN example_pggan) 1 [] example_state2 = (s0, Ok [2%nat]) /\
    deref s0 2%nat = mk 2 t /\
    has_shape 2 [1; 512]%nat t /\
    Forall (fun v => v = 0%R) (flatten 2 t).
Proof.
  destruct (initial_latents_zero example_gd
              (of_PGGAN example_pggan) 1 example_state2)
    as (s0 & Hrun & _ & _ & Hcells).
  - reflexivity.
  - reflexivity.
  - lia.
  - repeat constructor. lia.
  - destruct (Hcells 0%nat [512] eq_refl) as (n & t & Hd & Hn & Hs & Ha).
    cbn in Hn. subst n.
    exists s0, t. split; [exact Hrun|]. split; [exact Hd|]. by split.
Defined.

(** X26.  Without initial latents, for a multi-code wrapper [invert] binds
    the two tensors of [init_value], whatever the fill strategy of the
    optimiser is: the codes of shape (batch_size, z_number, 512) and the
    weights of shape (batch_size, z_number, layer_c_number), all equal to
    the [float32] nearest to the Python [float] [1 / z_number]. *)
Theorem initial_latents_multi_z (self : GradientDescent.t)
    (get_gan_model : gan_utils) (gan_model_name : string) (blending_layer z_number : Z)
    (args : args_t) (g : PGGAN_multi_z.t) (batch_size : Z) (s : state) :
  PGGAN_multi_z.__init__ get_gan_model gan_model_name blending_layer z_number args = Ok g ->
  1 <= batch_size -> 1 <= z_number ->
  exists (s0 : state) (z alpha : tensor 3),
    GradientDescent.initial_latents self (of_PGGAN_multi_z g) batch_size [] s
    = (s0, Ok [length (heap s); S (length (heap s))]) /\
    deref s0 (length (heap s)) = mk 3 z /\
    deref s0 (S (length (heap s))) = mk 3 alpha /\
    has_shape 3 [Z.to_nat batch_size; Z.to_nat z_number; 512%nat] z /\
    has_shape 3 [Z.to_nat batch_size; Z.to_nat z_number;
                 Z.to_nat (PGGAN_multi_z.layer_c_number g)] alpha /\
    Forall (fun v => v = Float.float32 (Float.float64 (1 / IZR z_number)))
      (flatten 3 alpha).
Proof.
  intros Hinit Hb Hzn.
  destruct (PGGAN_multi_z_init_inv _ _ _ _ _ _ Hinit) as (Hn & Hd & Hi & Hc).
  subst z_number.
  destruct (init_value_spec g batch_size (gen s)) as (z & alpha & g' & Hiv & Hzs & Has & Hall);
    try lia.
  rewrite Hd in Hzs. change (Z.to_nat 512) with 512%nat in Hzs.
  eexists. exists z, alpha. split.
  - unfold GradientDescent.initial_latents. cbn [length Nat.eqb of_PGGAN_multi_z init
      init_value input_size]. rewrite Hi. cbn [negb].
    rewrite M_bind_run. unfold lift_rng at 1. rewrite Hiv.
    rewrite M_mapM_new_tensor_run. reflexivity.
  - cbn [heap]. unfold deref, lookup_cell. cbn [heap].
    rewrite !lookup_app_r by lia. rewrite Nat.sub_diag.
    replace (S (length (heap s)) - length (heap s))%nat with 1%nat by lia.
    split; [reflexivity|]. split; [reflexivity|]. split; [exact Hzs|].
    split; [exact Has|exact Hall].
Qed.

Lemma initial_latents_multi_z_witness :
  exists (s0 : state) (z alpha : tensor 3),
    GradientDescent.initial_latents example_gd_uniform
      (of_PGGAN_multi_z example_multi) 1 [] example_state = (s0, Ok [0%nat; 1%nat]) /\
    deref s0 1%nat = mk 3 alpha /\
    Forall (fun v => v = (1 / 2)%R) (flatten 3 alpha).
Proof.
  destruct (initial_latents_multi_z example_gd_uniform
              example_gan_utils "PGGAN-CelebA" 0 2 example_args example_multi 1
              example_state eq_refl ltac:(lia) ltac:(lia))
    as (s0 & z & alpha & Hrun & _ & Ha & _ & _ & Hall).
  exists s0, z, alpha. split; [exact Hrun|]. split; [exact Ha|].
  eapply Forall_impl; [exact Hall|]. intros v ->.
  exact (float32_inv_pow2 1 ltac:(lia)).
Defined.

Section video.

Context {AG : Autograd}.

Variable self : GradientDescent.t.
Variable generator : Generator.
Variable gt_image : pyval.
Variable loss_function : pyval -> pyval -> res pyval.

(** [invert] with and without [video]. *)
Lemma invert_sim (batch_size : Z) (init_ : list loc) (s : state) :
  valid s init_ ->
  exists (sV sN : state) (extra : list cell),
    heap sV = heap sN ++ extra /\
    gen sV = gen sN /\
    ((exists latents hist,
         GradientDescent.invert self generator gt_image loss_function batch_size true
           init_ s = (sV, Ok (latents, hist)) /\
         GradientDescent.invert self generator gt_image loss_function batch_size false
           init_ s = (sN, Ok (latents, [])) /\
         valid sN latents) \/
     (exists e,
         GradientDescent.invert self generator gt_image loss_function batch_size true
           init_ s = (sV, Raise e) /\
         GradientDescent.invert self generator gt_image loss_function batch_size false
           init_ s = (sN, Raise e))).
Proof.
  intros Hv. rewrite !invert_run.
  destruct (GradientDescent.initial_latents self generator batch_size init_ s)
    as [s0 [latents|e]] eqn:E0.
  - pose proof (initial_latents_valid self generator batch_size init_ s s0 latents
                  Hv E0) as Hv0.
    rewrite !optimise_run.
    destruct (optimizer_check _ _ _) as [[]|e].
    + destruct (loop_sim_any self generator gt_image loss_function latents
                  (opt_init (GradientDescent.optimizer self)
                     (map (deref (prepared s0 latents)) latents))
                  (prepared s0 latents) (valid_prepared s0 latents latents Hv0)
                  (Z.to_nat (GradientDescent.iterations self)))
        as (sV & sN & extra & Hheap & Hgen & HlenN &
            [(opt & hist & HrV & HrN & _)|(e & HrV & HrN)]).
      * exists sV, sN, extra. split; [exact Hheap|]. split; [exact Hgen|].
        left. exists latents, hist. rewrite HrV, HrN. split; [reflexivity|].
        split; [reflexivity|]. unfold valid. rewrite HlenN.
        apply (valid_prepared s0 latents latents Hv0).
      * exists sV, sN, extra. split; [exact Hheap|]. split; [exact Hgen|].
        right. exists e. by rewrite HrV, HrN.
    + exists (prepared s0 latents), (prepared s0 latents), [].
      rewrite app_nil_r. repeat (split; [reflexivity|]). right. exists e. by split.
  - exists s0, s0, []. rewrite app_nil_r. repeat (split; [reflexivity|]).
    right. exists e. by split.
Qed.

End video.

(** X27.  The flag [video] does not change the outcome of [invert]: the
    two runs return the same latents with the same entries, or raise the
    same exception, and leave the random generator in the same state. *)
Theorem invert_video_independent {AG : Autograd} (self : GradientDescent.t)
    (generator : Generator) (gt_image : pyval)
    (loss_function : pyval -> pyval -> res pyval) (batch_size : Z)
    (init_ : list loc) (s : state) :
  valid s init_ ->
  exists (sV sN : state),
    gen sV = gen sN /\
    ((exists latents hist,
         GradientDescent.invert self generator gt_image loss_function batch_size true
           init_ s = (sV, Ok (latents, hist)) /\
         GradientDescent.invert self generator gt_image loss_function batch_size false
           init_ s = (sN, Ok (latents, [])) /\
         map (deref sV) latents = map (deref sN) latents) \/
     (exists e,
         GradientDescent.invert self generator gt_image loss_function batch_size true
           init_ s = (sV, Raise e) /\
         GradientDescent.invert self generator gt_image loss_function batch_size false
           init_ s = (sN, Raise e))).
Proof.
  intros Hv.
  destruct (invert_sim self generator gt_image loss_function batch_size init_ s Hv)
    as (sV & sN & extra & Hheap & Hgen & [(latents & hist & HrV & HrN & HvN)|(e & HrV & HrN)]).
  - exists sV, sN. split; [exact Hgen|]. left. exists latents, hist.
    split; [exact HrV|]. split; [exact HrN|].
    apply map_ext_Forall. eapply Forall_impl; [exact HvN|]. intros l Hl. cbn beta in *.
    destruct sV as [hV gV], sN as [hN gN]. cbn [heap] in *. subst hV.
    by apply deref_app.
  - exists sV, sN. split; [exact Hgen|]. right. exists e. by split.
Qed.

Lemma invert_video_independent_witness :
  exists (sV sN : state),
    gen sV = gen sN /\
    ((exists latents hist,
         GradientDescent.invert (AG := example_autograd) example_gd example_generator
           (PyNum 0%R) example_loss 1 true [0%nat] example_state2
         = (sV, Ok (latents, hist)) /\
         GradientDescent.invert (AG := example_autograd) example_gd example_generator
           (PyNum 0%R) example_loss 1 false [0%nat] example_state2
         = (sN, Ok (latents, [])) /\
         map (deref sV) latents = map (deref sN) latents) \/
     (exists e,
         GradientDescent.invert (AG := example_autograd) example_gd example_generator
           (PyNum 0%R) example_loss 1 true [0%nat] example_state2 = (sV, Raise e) /\
         GradientDescent.invert (AG := example_autograd) example_gd example_generator
           (PyNum 0%R) example_loss 1 false [0%nat] example_state2 = (sN, Raise e))).
Proof.
  apply (invert_video_independent (AG := example_autograd) example_gd example_generator
           (PyNum 0%R) example_loss 1 [0%nat] example_state2).
  repeat constructor.
Defined.
